(** * The data-distribution relocation queue (DataDistributionQueue.actor.cpp)

    A shallow embedding of the relocation queue of the data distributor:
    the [RelocateData] record, the per-server [Busyness] ledgers and the
    admission checks built on them, the ordered sets and key-range maps the
    queue is made of, and the parts of [DDQueueData] that enqueue, launch
    and cancel relocations.

    Conventions.
    - A C++ [int] or [int64_t] is a [Z].  Signed overflow is undefined in C++,
      so the embedding describes the executions without overflow, on which
      machine arithmetic and [Z] arithmetic agree.  Integer division is
      [Z.quot] (truncation), and a division by zero is a failure.
    - A failed [ASSERT], an out-of-range [operator[]] on a vector and a
      division by zero are the failure [None] of the [option] monad.
    - [std::map::operator[]] inserts a default value for an absent key; the
      embedding writes the insertion out.
    - [startTime] is a [double] holding either [-1] or a reading of the
      clock; it is only compared and never a NaN, and is modelled by an
      integer number of clock ticks.
    - Trace events, spawned actors and stream sends are collected in a list
      of [Effect]s next to the state the functions thread. *)

From stdpp Require Import gmap strings list fin_maps.
From Stdlib Require Import ZArith Lia Sorted.

Local Open Scope Z_scope.

(** * Part I: the embedding *)

(** ** Small utilities *)

(** A left fold whose step can fail. *)
Fixpoint foldM_opt {A B : Type} (f : A -> B -> option A) (a : A) (l : list B)
  : option A :=
  match l with
  | [] => Some a
  | x :: l' => a' ← f a x; foldM_opt f a' l'
  end.

(** Case analysis on the integer comparisons of a goal. *)
Ltac zcmp :=
  repeat match goal with
  | |- context [?a <? ?b] => destruct (Z.ltb_spec a b)
  | |- context [?a <=? ?b] => destruct (Z.leb_spec a b)
  | |- context [?a =? ?b] => destruct (Z.eqb_spec a b)
  end; try lia; try done.

(** C++ [a / b] on [int]. *)
Definition int_div (a b : Z) : option Z :=
  if b =? 0 then None else Some (a ÷ b).

(** ** Busyness (lines 380-410)

    [ledger] is a [std::vector<int>] built with ten zero entries; no member
    function changes its length. *)

Definition WORK_FULL_UTILIZATION : Z := 10000.

Record Busyness : Type := mkBusyness { ledger : list Z }.

Definition Busyness_new : Busyness := mkBusyness (replicate 10 0).

(** The class invariant of the vector: ten entries. *)
Definition Busyness_wf (b : Busyness) : Prop := length (ledger b) = 10%nat.

(** [ASSERT(prio > 0 && prio < 1000)]. *)
Definition prio_ok (prio : Z) : bool := (0 <? prio) && (prio <? 1000).

(** [ledger[i]], read. *)
Definition ledger_get (l : list Z) (i : Z) : option Z :=
  if 0 <=? i then l !! Z.to_nat i else None.

(** [ledger[i] += work]. *)
Definition ledger_add (work : Z) (l : list Z) (i : Z) : option (list Z) :=
  x ← ledger_get l i; Some (<[Z.to_nat i := x + work]> l).

(** The index [canLaunch] reads: [ledger[prio / 100]]. *)
Definition canLaunch_index (prio : Z) : Z := prio ÷ 100.

(** The indices of [for (int i = 0; i <= (prio / 100); i++)]. *)
Definition addWork_indices (prio : Z) : list Z :=
  Z.of_nat <$> seq 0 (Z.to_nat (prio ÷ 100 + 1)).

Definition canLaunch (b : Busyness) (prio work : Z) : option bool :=
  if prio_ok prio then
    x ← ledger_get (ledger b) (canLaunch_index prio);
    Some (x <=? WORK_FULL_UTILIZATION - work)
  else None.

Definition addWork (b : Busyness) (prio work : Z) : option Busyness :=
  if prio_ok prio then
    l ← foldM_opt (ledger_add work) (ledger b) (addWork_indices prio);
    Some (mkBusyness l)
  else None.

Definition removeWork (b : Busyness) (prio work : Z) : option Busyness :=
  addWork b prio (- work).

(** The indices [removeWork] touches are those of the [addWork] it calls. *)
Definition removeWork_indices (prio : Z) : list Z := addWork_indices prio.

(** What [addWork] leaves in the ledger when it succeeds: [work] is added to
    the buckets [0 .. prio / 100]. *)
Definition ledger_shift (prio work : Z) (l : list Z) : list Z :=
  imap (fun i x => if Z.of_nat i <=? prio ÷ 100 then x + work else x) l.


(** ** Identifiers, keys and key ranges

    [UID], [Key] and [KeyRange] are declared in flow/IRandom.h and
    fdbclient/FDBTypes.h, which are not among the sources. *)

(** Modelled from the spec: [UID], an identifier made of two 64-bit
    parts. *)
Definition UID : Type := (N * N)%type.

(** Modelled from the spec: [id.isValid()]; the identifier whose parts are
    both zero, which the default constructor builds, is the invalid one. *)
Definition UID_isValid (u : UID) : bool :=
  negb ((u.1 =? 0)%N && (u.2 =? 0)%N).

(** Modelled from the spec: [operator>] on [UID], the lexicographic order
    of the two parts. *)
Definition UID_gt (a b : UID) : bool :=
  (b.1 <? a.1)%N || ((a.1 =? b.1)%N && (b.2 <? a.2)%N).

(** Modelled from the spec: a key is a byte string, and keys are ordered
    lexicographically (section 3). *)
Definition Key : Type := string.

Definition key_lt (a b : Key) : bool := String.ltb a b.
Definition key_le (a b : Key) : bool := String.leb a b.

(** Modelled from the spec: a key range is the half-open interval
    [[begin, end)] (section 3). *)
Record KeyRange : Type := mkKeyRange { kr_begin : Key; kr_end : Key }.

#[global] Instance KeyRange_eq_dec : EqDecision KeyRange.
Proof. solve_decision. Defined.

(** Modelled from the spec: [r.contains(keys)], the range [keys] lies
    inside [r]. *)
Definition KeyRange_contains (r keys : KeyRange) : bool :=
  key_le (kr_begin r) (kr_begin keys) && key_le (kr_end keys) (kr_end r).

(** Modelled from the spec: [r.intersects(keys)], the two ranges share a
    key. *)
Definition KeyRange_intersects (r keys : KeyRange) : bool :=
  key_lt (kr_begin r) (kr_end keys) && key_lt (kr_begin keys) (kr_end r).

(** Modelled from the spec: [r.contains(key)]. *)
Definition KeyRange_has (r : KeyRange) (key : Key) : bool :=
  key_le (kr_begin r) key && key_lt key (kr_end r).

(** ** Knobs

    [SERVER_KNOBS] and [CLIENT_KNOBS] are declared in files that are not
    among the sources; the functions take the values they read as a record. *)

Record Knobs : Type := mkKnobs {
  PRIORITY_RECOVER_MOVE : Z;
  PRIORITY_REBALANCE_UNDERUTILIZED_TEAM : Z;
  PRIORITY_REBALANCE_OVERUTILIZED_TEAM : Z;
  PRIORITY_REBALANCE_READ_OVERUTIL_TEAM : Z;
  PRIORITY_REBALANCE_READ_UNDERUTIL_TEAM : Z;
  PRIORITY_PERPETUAL_STORAGE_WIGGLE : Z;
  PRIORITY_TEAM_HEALTHY : Z;
  PRIORITY_TEAM_CONTAINS_UNDESIRED_SERVER : Z;
  PRIORITY_TEAM_REDUNDANT : Z;
  PRIORITY_MERGE_SHARD : Z;
  PRIORITY_POPULATE_REGION : Z;
  PRIORITY_TEAM_UNHEALTHY : Z;
  PRIORITY_TEAM_2_LEFT : Z;
  PRIORITY_TEAM_1_LEFT : Z;
  PRIORITY_TEAM_FAILED : Z;
  PRIORITY_TEAM_0_LEFT : Z;
  PRIORITY_SPLIT_SHARD : Z;
  RELOCATION_PARALLELISM_PER_SOURCE_SERVER : Z;
  RELOCATION_PARALLELISM_PER_DEST_SERVER : Z;
  USE_OLD_NEEDED_SERVERS : bool;
  REBALANCE_MAX_RETRIES : Z;
  MIN_SHARD_BYTES : Z;
  SHARD_ENCODE_LOCATION_METADATA : bool;
  anonymousShardId : UID
}.

(** ** Relocation requests and relocation records (lines 44-196) *)

(** Modelled from the spec: [RelocateReason] (declared in
    fdbserver/DataDistribution.actor.h, not among the sources), the [reason]
    of section 3; the queue names [INVALID], [REBALANCE_DISK] and
    [REBALANCE_READ], and every other reason is [OTHER]. *)
Inductive RelocateReason : Type :=
| RR_INVALID | RR_OTHER | RR_REBALANCE_DISK | RR_REBALANCE_READ.

(** [DataMovementReason], with the cases of the [switch] of
    [dataMovementPriority]. *)
Inductive DataMovementReason : Type :=
| DMR_INVALID
| DMR_RECOVER_MOVE
| DMR_REBALANCE_UNDERUTILIZED_TEAM
| DMR_REBALANCE_OVERUTILIZED_TEAM
| DMR_REBALANCE_READ_OVERUTIL_TEAM
| DMR_REBALANCE_READ_UNDERUTIL_TEAM
| DMR_PERPETUAL_STORAGE_WIGGLE
| DMR_TEAM_HEALTHY
| DMR_TEAM_CONTAINS_UNDESIRED_SERVER
| DMR_TEAM_REDUNDANT
| DMR_MERGE_SHARD
| DMR_POPULATE_REGION
| DMR_TEAM_UNHEALTHY
| DMR_TEAM_2_LEFT
| DMR_TEAM_1_LEFT
| DMR_TEAM_FAILED
| DMR_TEAM_0_LEFT
| DMR_SPLIT_SHARD.

#[global] Instance RelocateReason_eq_dec : EqDecision RelocateReason.
Proof. solve_decision. Defined.

#[global] Instance DataMovementReason_eq_dec : EqDecision DataMovementReason.
Proof. solve_decision. Defined.

Definition isDataMovementForMountainChopper (reason : DataMovementReason) : bool :=
  bool_decide (reason = DMR_REBALANCE_OVERUTILIZED_TEAM) ||
  bool_decide (reason = DMR_REBALANCE_READ_OVERUTIL_TEAM).

Definition isDataMovementForValleyFiller (reason : DataMovementReason) : bool :=
  bool_decide (reason = DMR_REBALANCE_UNDERUTILIZED_TEAM) ||
  bool_decide (reason = DMR_REBALANCE_READ_UNDERUTIL_TEAM).

Definition dataMovementPriority (k : Knobs) (reason : DataMovementReason) : Z :=
  match reason with
  | DMR_INVALID => -1
  | DMR_RECOVER_MOVE => PRIORITY_RECOVER_MOVE k
  | DMR_REBALANCE_UNDERUTILIZED_TEAM => PRIORITY_REBALANCE_UNDERUTILIZED_TEAM k
  | DMR_REBALANCE_OVERUTILIZED_TEAM => PRIORITY_REBALANCE_OVERUTILIZED_TEAM k
  | DMR_REBALANCE_READ_OVERUTIL_TEAM => PRIORITY_REBALANCE_READ_OVERUTIL_TEAM k
  | DMR_REBALANCE_READ_UNDERUTIL_TEAM => PRIORITY_REBALANCE_READ_UNDERUTIL_TEAM k
  | DMR_PERPETUAL_STORAGE_WIGGLE => PRIORITY_PERPETUAL_STORAGE_WIGGLE k
  | DMR_TEAM_HEALTHY => PRIORITY_TEAM_HEALTHY k
  | DMR_TEAM_CONTAINS_UNDESIRED_SERVER => PRIORITY_TEAM_CONTAINS_UNDESIRED_SERVER k
  | DMR_TEAM_REDUNDANT => PRIORITY_TEAM_REDUNDANT k
  | DMR_MERGE_SHARD => PRIORITY_MERGE_SHARD k
  | DMR_POPULATE_REGION => PRIORITY_POPULATE_REGION k
  | DMR_TEAM_UNHEALTHY => PRIORITY_TEAM_UNHEALTHY k
  | DMR_TEAM_2_LEFT => PRIORITY_TEAM_2_LEFT k
  | DMR_TEAM_1_LEFT => PRIORITY_TEAM_1_LEFT k
  | DMR_TEAM_FAILED => PRIORITY_TEAM_FAILED k
  | DMR_TEAM_0_LEFT => PRIORITY_TEAM_0_LEFT k
  | DMR_SPLIT_SHARD => PRIORITY_SPLIT_SHARD k
  end.

(** Modelled from the spec: the handle [dataMove] of a restored move
    (section 3).  Of the persisted [DataMove] the queue reads [meta.id],
    [meta.src] and the two destination teams. *)
Record DataMove : Type := mkDataMove {
  dm_meta_id : UID;
  dm_meta_src : list UID;
  primaryDest : list UID;
  remoteDest : list UID
}.

(** Modelled from the spec: [RelocateShard] (fdbserver/DataDistribution.actor.h
    is not among the sources), the input of section 6.4:
    [{keys, priority, moveReason, reason, dataMoveId, dataMove?, cancelled}]. *)
Record RelocateShard : Type := mkRelocateShard {
  rs_keys : KeyRange;
  rs_priority : Z;
  rs_cancelled : bool;
  rs_dataMove : option DataMove;
  rs_dataMoveId : UID;
  rs_reason : RelocateReason;
  rs_moveReason : DataMovementReason
}.

(** [RelocateShard(keys, moveReason, reason)], the constructor the
    rebalancers call. *)
Definition RelocateShard_new (k : Knobs) (keys : KeyRange)
    (moveReason : DataMovementReason) (reason : RelocateReason) : RelocateShard :=
  mkRelocateShard keys (dataMovementPriority k moveReason) false None
    (anonymousShardId k) reason moveReason.

(** [struct RelocateData]; the [interval] member only feeds trace events and
    is left out. *)
Record RelocateData : Type := mkRelocateData {
  keys : KeyRange;
  priority : Z;
  boundaryPriority : Z;
  healthPriority : Z;
  reason : RelocateReason;
  startTime : Z;
  randomId : UID;
  dataMoveId : UID;
  workFactor : Z;
  src : list UID;
  completeSources : list UID;
  completeDests : list UID;
  wantsNewServers : bool;
  cancellable : bool;
  dataMove : option DataMove
}.

Definition isHealthPriority (k : Knobs) (p : Z) : bool :=
  (p =? PRIORITY_POPULATE_REGION k) || (p =? PRIORITY_TEAM_UNHEALTHY k) ||
  (p =? PRIORITY_TEAM_2_LEFT k) || (p =? PRIORITY_TEAM_1_LEFT k) ||
  (p =? PRIORITY_TEAM_0_LEFT k) || (p =? PRIORITY_TEAM_REDUNDANT k) ||
  (p =? PRIORITY_TEAM_HEALTHY k) ||
  (p =? PRIORITY_TEAM_CONTAINS_UNDESIRED_SERVER k) ||
  (p =? PRIORITY_PERPETUAL_STORAGE_WIGGLE k).

Definition isBoundaryPriority (k : Knobs) (p : Z) : bool :=
  (p =? PRIORITY_SPLIT_SHARD k) || (p =? PRIORITY_MERGE_SHARD k).

(** The default constructor [RelocateData()]. *)
Definition RelocateData_default (k : Knobs) : RelocateData :=
  mkRelocateData (mkKeyRange "" "") (-1) (-1) (-1) RR_INVALID (-1) (0%N, 0%N)
    (anonymousShardId k) 0 [] [] [] false false None.

(** [RelocateData(rs)]; [now] is the reading of the clock and [rid] the
    random identifier drawn by the constructor. *)
Definition RelocateData_of (k : Knobs) (rs : RelocateShard) (now : Z) (rid : UID)
  : RelocateData :=
  mkRelocateData
    (rs_keys rs)
    (rs_priority rs)
    (if isBoundaryPriority k (rs_priority rs) then rs_priority rs else -1)
    (if isHealthPriority k (rs_priority rs) then rs_priority rs else -1)
    (rs_reason rs)
    now
    rid
    (rs_dataMoveId rs)
    0
    (match rs_dataMove rs with Some dm => dm_meta_src dm | None => [] end)
    []
    []
    (isDataMovementForMountainChopper (rs_moveReason rs) ||
     isDataMovementForValleyFiller (rs_moveReason rs) ||
     bool_decide (rs_moveReason rs = DMR_SPLIT_SHARD) ||
     bool_decide (rs_moveReason rs = DMR_TEAM_REDUNDANT))
    true
    (rs_dataMove rs).

Definition isRestore (rd : RelocateData) : bool :=
  match dataMove rd with Some _ => true | None => false end.

(** [operator>]: priority descending, then [startTime] ascending, then
    [randomId] descending. *)
Definition rd_gt (a b : RelocateData) : bool :=
  if negb (priority a =? priority b) then priority b <? priority a
  else if negb (startTime a =? startTime b) then startTime a <? startTime b
  else UID_gt (randomId a) (randomId b).

(** [operator==] (lines 188-194). *)
Definition rd_eq (a b : RelocateData) : bool :=
  (priority a =? priority b) && (boundaryPriority a =? boundaryPriority b) &&
  (healthPriority a =? healthPriority b) &&
  bool_decide (reason a = reason b) && bool_decide (keys a = keys b) &&
  (startTime a =? startTime b) && (workFactor a =? workFactor b) &&
  bool_decide (src a = src b) &&
  bool_decide (completeSources a = completeSources b) &&
  bool_decide (wantsNewServers a = wantsNewServers b) &&
  bool_decide (randomId a = randomId b).

(** ** [std::set<RelocateData, std::greater<RelocateData>>]

    The set is the list of its elements in iteration order.  Two elements
    are the same key of the set when neither is [operator>] the other. *)

Definition RdSet : Type := list RelocateData.

Definition rd_equiv (a b : RelocateData) : bool :=
  negb (rd_gt a b) && negb (rd_gt b a).

(** [s.count(x)] and [s.find(x) != s.end()]. *)
Definition rdset_count (x : RelocateData) (s : RdSet) : bool :=
  existsb (rd_equiv x) s.

(** [s.insert(x)]: no effect when an equivalent element is present. *)
Fixpoint rdset_insert (x : RelocateData) (s : RdSet) : RdSet :=
  match s with
  | [] => [x]
  | y :: s' =>
      if rd_gt x y then x :: y :: s'
      else if rd_gt y x then y :: rdset_insert x s'
      else y :: s'
  end.

(** [s.erase(x)]. *)
Definition rdset_erase (x : RelocateData) (s : RdSet) : RdSet :=
  List.filter (fun y => negb (rd_equiv x y)) s.

(** Field updates of a [RelocateData]. *)

Definition set_keys (v : KeyRange) (rd : RelocateData) : RelocateData :=
  mkRelocateData v (priority rd) (boundaryPriority rd) (healthPriority rd)
    (reason rd) (startTime rd) (randomId rd) (dataMoveId rd) (workFactor rd)
    (src rd) (completeSources rd) (completeDests rd) (wantsNewServers rd)
    (cancellable rd) (dataMove rd).

Definition set_priority (v : Z) (rd : RelocateData) : RelocateData :=
  mkRelocateData (keys rd) v (boundaryPriority rd) (healthPriority rd) (reason
    rd) (startTime rd) (randomId rd) (dataMoveId rd) (workFactor rd) (src rd)
    (completeSources rd) (completeDests rd) (wantsNewServers rd) (cancellable
    rd) (dataMove rd).

Definition set_boundaryPriority (v : Z) (rd : RelocateData) : RelocateData :=
  mkRelocateData (keys rd) (priority rd) v (healthPriority rd) (reason rd)
    (startTime rd) (randomId rd) (dataMoveId rd) (workFactor rd) (src rd)
    (completeSources rd) (completeDests rd) (wantsNewServers rd) (cancellable
    rd) (dataMove rd).

Definition set_healthPriority (v : Z) (rd : RelocateData) : RelocateData :=
  mkRelocateData (keys rd) (priority rd) (boundaryPriority rd) v (reason rd)
    (startTime rd) (randomId rd) (dataMoveId rd) (workFactor rd) (src rd)
    (completeSources rd) (completeDests rd) (wantsNewServers rd) (cancellable
    rd) (dataMove rd).

Definition set_startTime (v : Z) (rd : RelocateData) : RelocateData :=
  mkRelocateData (keys rd) (priority rd) (boundaryPriority rd) (healthPriority
    rd) (reason rd) v (randomId rd) (dataMoveId rd) (workFactor rd) (src rd)
    (completeSources rd) (completeDests rd) (wantsNewServers rd) (cancellable
    rd) (dataMove rd).

Definition set_dataMoveId (v : UID) (rd : RelocateData) : RelocateData :=
  mkRelocateData (keys rd) (priority rd) (boundaryPriority rd) (healthPriority
    rd) (reason rd) (startTime rd) (randomId rd) v (workFactor rd) (src rd)
    (completeSources rd) (completeDests rd) (wantsNewServers rd) (cancellable
    rd) (dataMove rd).

Definition set_workFactor (v : Z) (rd : RelocateData) : RelocateData :=
  mkRelocateData (keys rd) (priority rd) (boundaryPriority rd) (healthPriority
    rd) (reason rd) (startTime rd) (randomId rd) (dataMoveId rd) v (src rd)
    (completeSources rd) (completeDests rd) (wantsNewServers rd) (cancellable
    rd) (dataMove rd).

Definition set_completeDests (v : list UID) (rd : RelocateData) : RelocateData :=
  mkRelocateData (keys rd) (priority rd) (boundaryPriority rd) (healthPriority
    rd) (reason rd) (startTime rd) (randomId rd) (dataMoveId rd) (workFactor rd)
    (src rd) (completeSources rd) v (wantsNewServers rd) (cancellable rd)
    (dataMove rd).

Definition set_wantsNewServers (v : bool) (rd : RelocateData) : RelocateData :=
  mkRelocateData (keys rd) (priority rd) (boundaryPriority rd) (healthPriority
    rd) (reason rd) (startTime rd) (randomId rd) (dataMoveId rd) (workFactor rd)
    (src rd) (completeSources rd) (completeDests rd) v (cancellable rd)
    (dataMove rd).

Definition set_cancellable (v : bool) (rd : RelocateData) : RelocateData :=
  mkRelocateData (keys rd) (priority rd) (boundaryPriority rd) (healthPriority
    rd) (reason rd) (startTime rd) (randomId rd) (dataMoveId rd) (workFactor rd)
    (src rd) (completeSources rd) (completeDests rd) (wantsNewServers rd) v
    (dataMove rd).

Definition set_dataMove (v : option DataMove) (rd : RelocateData) : RelocateData :=
  mkRelocateData (keys rd) (priority rd) (boundaryPriority rd) (healthPriority
    rd) (reason rd) (startTime rd) (randomId rd) (dataMoveId rd) (workFactor rd)
    (src rd) (completeSources rd) (completeDests rd) (wantsNewServers rd)
    (cancellable rd) v.


(** ** Work factors and admission (lines 412-519) *)

Abbreviation Busymap := (gmap UID Busyness).

(** [busymap[id]]: the entry, created with a fresh ledger when absent. *)
Definition busymap_at (m : Busymap) (id : UID) : Busyness * Busymap :=
  match m !! id with
  | Some b => (b, m)
  | None => (Busyness_new, <[id := Busyness_new]> m)
  end.

Definition getSrcWorkFactor (k : Knobs) (relocation : RelocateData)
    (singleRegionTeamSize : Z) : option Z :=
  if (healthPriority relocation =? PRIORITY_TEAM_1_LEFT k) ||
     (healthPriority relocation =? PRIORITY_TEAM_0_LEFT k)
  then int_div WORK_FULL_UTILIZATION (RELOCATION_PARALLELISM_PER_SOURCE_SERVER k)
  else if healthPriority relocation =? PRIORITY_TEAM_2_LEFT k
  then a ← int_div WORK_FULL_UTILIZATION 2;
       int_div a (RELOCATION_PARALLELISM_PER_SOURCE_SERVER k)
  else a ← int_div WORK_FULL_UTILIZATION singleRegionTeamSize;
       int_div a (RELOCATION_PARALLELISM_PER_SOURCE_SERVER k).

Definition getDestWorkFactor (k : Knobs) : option Z :=
  int_div WORK_FULL_UTILIZATION (RELOCATION_PARALLELISM_PER_DEST_SERVER k).

(** [neededServers] as lines 443-446 compute it. *)
Definition neededServers (k : Knobs) (relocation : RelocateData)
    (teamSize singleRegionTeamSize : Z) : Z :=
  let n := Z.min (Z.of_nat (length (src relocation)))
                 (teamSize - singleRegionTeamSize + 1) in
  if USE_OLD_NEEDED_SERVERS k
  then Z.max 1 (Z.of_nat (length (src relocation)) - teamSize + 1)
  else n.

(** One turn of the loop of lines 452-456: the work of a cancellable
    relocation is taken off the copy when the server is one of its sources. *)
Definition removeCancelled (id : UID) (busyCopy : Busyness) (c : RelocateData)
  : option Busyness :=
  if bool_decide (id ∈ src c)
  then removeWork busyCopy (priority c) (workFactor c)
  else Some busyCopy.

(** The loop of lines 448-463 over the source servers still to visit. *)
Fixpoint canLaunchSrc_loop (prio work : Z) (cancellableRelocations : list RelocateData)
    (srcs : list UID) (needed : Z) (busymap : Busymap) : option (bool * Busymap) :=
  match srcs with
  | [] => Some (false, busymap)
  | id :: rest =>
      let '(busyCopy, busymap1) := busymap_at busymap id in
      busyCopy' ← foldM_opt (removeCancelled id) busyCopy cancellableRelocations;
      ok ← canLaunch busyCopy' prio work;
      if ok : bool then
        let needed' := needed - 1 in
        if needed' =? 0 then Some (true, busymap1)
        else canLaunchSrc_loop prio work cancellableRelocations rest needed' busymap1
      else canLaunchSrc_loop prio work cancellableRelocations rest needed busymap1
  end.

Definition canLaunchSrc (k : Knobs) (relocation : RelocateData)
    (teamSize singleRegionTeamSize : Z) (busymap : Busymap)
    (cancellableRelocations : list RelocateData) : option (bool * Busymap) :=
  if (workFactor relocation =? 0) &&
     negb (Z.of_nat (length (src relocation)) =? 0) &&
     (singleRegionTeamSize <=? teamSize)
  then
    work ← getSrcWorkFactor k relocation singleRegionTeamSize;
    canLaunchSrc_loop (priority relocation) work cancellableRelocations
      (src relocation) (neededServers k relocation teamSize singleRegionTeamSize)
      busymap
  else None.

(** A candidate team is the list of its server ids ([getServerIDs]) paired
    with the flag telling whether it holds a source of the shard. *)
Abbreviation CandidateTeams := (list (list UID * bool)).

Definition teamServers (candidateTeams : CandidateTeams) : list UID :=
  concat (fst <$> candidateTeams).

Fixpoint canLaunchDest_loop (prio work : Z) (ids : list UID) (busymapDest : Busymap)
  : option (bool * Busymap) :=
  match ids with
  | [] => Some (true, busymapDest)
  | id :: rest =>
      let '(b, m1) := busymap_at busymapDest id in
      ok ← canLaunch b prio work;
      if ok : bool then canLaunchDest_loop prio work rest m1 else Some (false, m1)
  end.

Definition canLaunchDest (k : Knobs) (candidateTeams : CandidateTeams)
    (prio : Z) (busymapDest : Busymap) : option (bool * Busymap) :=
  if RELOCATION_PARALLELISM_PER_DEST_SERVER k <=? 0 then Some (true, busymapDest)
  else
    work ← getDestWorkFactor k;
    canLaunchDest_loop prio work (teamServers candidateTeams) busymapDest.

(** [busymap[id].addWork(prio, work)]. *)
Definition busymap_addWork (prio work : Z) (m : Busymap) (id : UID) : option Busymap :=
  let '(b, m1) := busymap_at m id in
  b' ← addWork b prio work; Some (<[id := b']> m1).

(** [busymap[id].removeWork(prio, work)]. *)
Definition busymap_removeWork (prio work : Z) (m : Busymap) (id : UID) : option Busymap :=
  let '(b, m1) := busymap_at m id in
  b' ← removeWork b prio work; Some (<[id := b']> m1).

Definition launch (k : Knobs) (relocation : RelocateData) (busymap : Busymap)
    (singleRegionTeamSize : Z) : option (RelocateData * Busymap) :=
  work ← getSrcWorkFactor k relocation singleRegionTeamSize;
  m ← foldM_opt (busymap_addWork (priority relocation) work) busymap (src relocation);
  Some (set_workFactor work relocation, m).

Definition launchDest (k : Knobs) (relocation : RelocateData)
    (candidateTeams : CandidateTeams) (destBusymap : Busymap)
  : option (RelocateData * Busymap) :=
  match completeDests relocation with
  | [] =>
      destWorkFactor ← getDestWorkFactor k;
      m ← foldM_opt (busymap_addWork (priority relocation) destWorkFactor)
            destBusymap (teamServers candidateTeams);
      Some (set_completeDests (teamServers candidateTeams) relocation, m)
  | _ :: _ => None
  end.

Definition completeDest (k : Knobs) (relocation : RelocateData) (destBusymap : Busymap)
  : option Busymap :=
  destWorkFactor ← getDestWorkFactor k;
  foldM_opt (busymap_removeWork (priority relocation) destWorkFactor)
    destBusymap (completeDests relocation).

Definition complete (k : Knobs) (relocation : RelocateData)
    (busymap destBusymap : Busymap) : option (Busymap * Busymap) :=
  if 0 <? workFactor relocation then
    m ← foldM_opt (busymap_removeWork (priority relocation) (workFactor relocation))
          busymap (src relocation);
    d ← completeDest k relocation destBusymap;
    Some (m, d)
  else None.


(** ** Key-range maps

    [KeyRangeMap] and [KeyRangeActorMap] are declared in
    fdbclient/KeyRangeMap.h, which is not among the sources; section 4.1 of
    the specification describes them. *)

(** Modelled from the spec: a key-range map assigns a value to every key;
    it is the list of its entries, in key order and without overlap. *)
Abbreviation KeyRangeMap V := (list (KeyRange * V)).

(** Modelled from the spec: [m.intersectingRanges(r)], the entries
    touching [r]. *)
Definition intersectingRanges {V : Type} (m : KeyRangeMap V) (r : KeyRange)
  : list (KeyRange * V) :=
  List.filter (fun e => KeyRange_intersects (fst e) r) m.

(** Modelled from the spec: [m.containedRanges(r)], the entries fully
    inside [r]. *)
Definition containedRanges {V : Type} (m : KeyRangeMap V) (r : KeyRange)
  : list (KeyRange * V) :=
  List.filter (fun e => KeyRange_contains r (fst e)) m.

(** Modelled from the spec: [m.rangeContaining(key)], the entry whose
    range holds [key]. *)
Definition rangeContaining {V : Type} (m : KeyRangeMap V) (key : Key)
  : option (KeyRange * V) :=
  List.find (fun e => KeyRange_has (fst e) key) m.

Definition key_min (a b : Key) : Key := if key_lt a b then a else b.
Definition key_max (a b : Key) : Key := if key_lt a b then b else a.

(** Modelled from the spec: what an insertion of [r] leaves of the entries
    before the start of [r]; an entry that straddles the start keeps its
    value on the part outside [r]. *)
Definition krm_before {V : Type} (r : KeyRange) (m : KeyRangeMap V) : KeyRangeMap V :=
  flat_map (fun e : KeyRange * V =>
    if key_lt (kr_begin (fst e)) (kr_begin r)
    then [(mkKeyRange (kr_begin (fst e)) (key_min (kr_end (fst e)) (kr_begin r)), snd e)]
    else []) m.

(** Modelled from the spec: what an insertion of [r] leaves of the entries
    after the end of [r]. *)
Definition krm_after {V : Type} (r : KeyRange) (m : KeyRangeMap V) : KeyRangeMap V :=
  flat_map (fun e : KeyRange * V =>
    if key_lt (kr_end r) (kr_end (fst e))
    then [(mkKeyRange (key_max (kr_begin (fst e)) (kr_end r)) (kr_end (fst e)), snd e)]
    else []) m.

(** Modelled from the spec: [m.insert(r, v)] replaces exactly the coverage
    of [r]. *)
Definition krm_insert {V : Type} (r : KeyRange) (v : V) (m : KeyRangeMap V)
  : KeyRangeMap V :=
  krm_before r m ++ [(r, v)] ++ krm_after r m.

(** Modelled from the spec: assignment through the reference
    [m.rangeContaining(key)->value()]. *)
Definition krm_assign {V : Type} (key : Key) (v : V) (m : KeyRangeMap V)
  : KeyRangeMap V :=
  (fun e : KeyRange * V => if KeyRange_has (fst e) key then (fst e, v) else e) <$> m.

(** Modelled from the spec: [actors.liveActorAt(key)]; the value of an
    actor map tells whether the actor of the range is still running. *)
Definition liveActorAt (actors : KeyRangeMap bool) (key : Key) : bool :=
  match rangeContaining actors key with
  | Some (_, live) => live
  | None => false
  end.

(** Modelled from the spec: [actors.getRangesAffectedByInsertion(keys,
    ranges)] (section 4.5, step 7): [keys], preceded and followed by what a
    live actor straddling an end of [keys] covers outside of it. *)
Definition getRangesAffectedByInsertion (actors : KeyRangeMap bool) (r : KeyRange)
  : list KeyRange :=
  match rangeContaining actors (kr_begin r) with
  | Some (s, live) =>
      if negb (String.eqb (kr_begin s) (kr_begin r)) && live
      then [mkKeyRange (kr_begin s) (kr_begin r)] else []
  | None => []
  end ++ [r] ++
  match rangeContaining actors (kr_end r) with
  | Some (e, live) =>
      if negb (String.eqb (kr_begin e) (kr_end r)) && live
      then [mkKeyRange (kr_end r) (kr_end e)] else []
  | None => []
  end.

(** ** Effects *)

(** Modelled from the spec: the severities of trace events (flow/Trace.h is
    not among the sources). *)
Inductive Severity : Type :=
| SevVerbose | SevDebug | SevInfo | SevWarn | SevWarnAlways | SevError.

(** What a function of the queue does besides changing the queue: the
    trace events it logs, the actors it starts or cancels and the messages
    it sends. *)
Inductive Effect : Type :=
| ETrace (sev : Severity) (name : string)
| ECleanUpDataMove (id : UID) (range : KeyRange)
| ECancelDataMove (range : KeyRange)
| ECancelActors (range : KeyRange)
| ESpawnRelocator (rd : RelocateData)
| EGetAverageShardBytes
| EGetShardMetrics (range : KeyRange)
| EOutput (rs : RelocateShard).

(** ** The queue state (lines 529-638) *)

(** [DDDataMove]: the identifier of the move and, when [cancel] is a valid
    future, the [cleanUpDataMove] call it stands for. *)
Record DDDataMove : Type := mkDDDataMove {
  dm_id : UID;
  dm_cancel : option (UID * KeyRange)
}.

Definition DDDataMove_default : DDDataMove := mkDDDataMove (0%N, 0%N) None.

Definition DDDataMove_isValid (d : DDDataMove) : bool := UID_isValid (dm_id d).

(** The members of [DDQueueData] that the embedded functions read or
    write. *)
Record DDQueueData : Type := mkDDQueueData {
  activeRelocations : Z;
  queuedRelocations : Z;
  teamSize : Z;
  singleRegionTeamSize : Z;
  busymap : Busymap;
  destBusymap : Busymap;
  queueMap : KeyRangeMap RelocateData;
  fetchingSourcesQueue : RdSet;
  fetchKeysComplete : RdSet;
  queue : gmap UID RdSet;
  inFlight : KeyRangeMap RelocateData;
  inFlightActors : KeyRangeMap bool;
  dataMoves : KeyRangeMap DDDataMove;
  rawProcessingUnhealthy : bool;
  rawProcessingWiggle : bool;
  priority_relocations : gmap Z Z;
  unhealthyRelocations : Z
}.

(** Field updates of a [DDQueueData]. *)

Definition set_activeRelocations (v : Z) (st : DDQueueData) : DDQueueData :=
  mkDDQueueData v (queuedRelocations st) (teamSize st) (singleRegionTeamSize
    st) (busymap st) (destBusymap st) (queueMap st) (fetchingSourcesQueue st)
    (fetchKeysComplete st) (queue st) (inFlight st) (inFlightActors st)
    (dataMoves st) (rawProcessingUnhealthy st) (rawProcessingWiggle st)
    (priority_relocations st) (unhealthyRelocations st).

Definition set_queuedRelocations (v : Z) (st : DDQueueData) : DDQueueData :=
  mkDDQueueData (activeRelocations st) v (teamSize st) (singleRegionTeamSize
    st) (busymap st) (destBusymap st) (queueMap st) (fetchingSourcesQueue st)
    (fetchKeysComplete st) (queue st) (inFlight st) (inFlightActors st)
    (dataMoves st) (rawProcessingUnhealthy st) (rawProcessingWiggle st)
    (priority_relocations st) (unhealthyRelocations st).

Definition set_busymap (v : Busymap) (st : DDQueueData) : DDQueueData :=
  mkDDQueueData (activeRelocations st) (queuedRelocations st) (teamSize st)
    (singleRegionTeamSize st) v (destBusymap st) (queueMap st)
    (fetchingSourcesQueue st) (fetchKeysComplete st) (queue st) (inFlight st)
    (inFlightActors st) (dataMoves st) (rawProcessingUnhealthy st)
    (rawProcessingWiggle st) (priority_relocations st) (unhealthyRelocations
    st).

Definition set_destBusymap (v : Busymap) (st : DDQueueData) : DDQueueData :=
  mkDDQueueData (activeRelocations st) (queuedRelocations st) (teamSize st)
    (singleRegionTeamSize st) (busymap st) v (queueMap st) (fetchingSourcesQueue
    st) (fetchKeysComplete st) (queue st) (inFlight st) (inFlightActors st)
    (dataMoves st) (rawProcessingUnhealthy st) (rawProcessingWiggle st)
    (priority_relocations st) (unhealthyRelocations st).

Definition set_fetchingSourcesQueue (v : RdSet) (st : DDQueueData) : DDQueueData :=
  mkDDQueueData (activeRelocations st) (queuedRelocations st) (teamSize st)
    (singleRegionTeamSize st) (busymap st) (destBusymap st) (queueMap st) v
    (fetchKeysComplete st) (queue st) (inFlight st) (inFlightActors st)
    (dataMoves st) (rawProcessingUnhealthy st) (rawProcessingWiggle st)
    (priority_relocations st) (unhealthyRelocations st).

Definition set_queue (v : gmap UID RdSet) (st : DDQueueData) : DDQueueData :=
  mkDDQueueData (activeRelocations st) (queuedRelocations st) (teamSize st)
    (singleRegionTeamSize st) (busymap st) (destBusymap st) (queueMap st)
    (fetchingSourcesQueue st) (fetchKeysComplete st) v (inFlight st)
    (inFlightActors st) (dataMoves st) (rawProcessingUnhealthy st)
    (rawProcessingWiggle st) (priority_relocations st) (unhealthyRelocations
    st).

Definition set_inFlight (v : KeyRangeMap RelocateData) (st : DDQueueData) : DDQueueData :=
  mkDDQueueData (activeRelocations st) (queuedRelocations st) (teamSize st)
    (singleRegionTeamSize st) (busymap st) (destBusymap st) (queueMap st)
    (fetchingSourcesQueue st) (fetchKeysComplete st) (queue st) v
    (inFlightActors st) (dataMoves st) (rawProcessingUnhealthy st)
    (rawProcessingWiggle st) (priority_relocations st) (unhealthyRelocations
    st).

Definition set_inFlightActors (v : KeyRangeMap bool) (st : DDQueueData) : DDQueueData :=
  mkDDQueueData (activeRelocations st) (queuedRelocations st) (teamSize st)
    (singleRegionTeamSize st) (busymap st) (destBusymap st) (queueMap st)
    (fetchingSourcesQueue st) (fetchKeysComplete st) (queue st) (inFlight st) v
    (dataMoves st) (rawProcessingUnhealthy st) (rawProcessingWiggle st)
    (priority_relocations st) (unhealthyRelocations st).

Definition set_dataMoves (v : KeyRangeMap DDDataMove) (st : DDQueueData) : DDQueueData :=
  mkDDQueueData (activeRelocations st) (queuedRelocations st) (teamSize st)
    (singleRegionTeamSize st) (busymap st) (destBusymap st) (queueMap st)
    (fetchingSourcesQueue st) (fetchKeysComplete st) (queue st) (inFlight st)
    (inFlightActors st) v (rawProcessingUnhealthy st) (rawProcessingWiggle st)
    (priority_relocations st) (unhealthyRelocations st).

Definition set_rawProcessingUnhealthy (v : bool) (st : DDQueueData) : DDQueueData :=
  mkDDQueueData (activeRelocations st) (queuedRelocations st) (teamSize st)
    (singleRegionTeamSize st) (busymap st) (destBusymap st) (queueMap st)
    (fetchingSourcesQueue st) (fetchKeysComplete st) (queue st) (inFlight st)
    (inFlightActors st) (dataMoves st) v (rawProcessingWiggle st)
    (priority_relocations st) (unhealthyRelocations st).

Definition set_rawProcessingWiggle (v : bool) (st : DDQueueData) : DDQueueData :=
  mkDDQueueData (activeRelocations st) (queuedRelocations st) (teamSize st)
    (singleRegionTeamSize st) (busymap st) (destBusymap st) (queueMap st)
    (fetchingSourcesQueue st) (fetchKeysComplete st) (queue st) (inFlight st)
    (inFlightActors st) (dataMoves st) (rawProcessingUnhealthy st) v
    (priority_relocations st) (unhealthyRelocations st).

Definition set_priority_relocations (v : gmap Z Z) (st : DDQueueData) : DDQueueData :=
  mkDDQueueData (activeRelocations st) (queuedRelocations st) (teamSize st)
    (singleRegionTeamSize st) (busymap st) (destBusymap st) (queueMap st)
    (fetchingSourcesQueue st) (fetchKeysComplete st) (queue st) (inFlight st)
    (inFlightActors st) (dataMoves st) (rawProcessingUnhealthy st)
    (rawProcessingWiggle st) v (unhealthyRelocations st).

Definition set_unhealthyRelocations (v : Z) (st : DDQueueData) : DDQueueData :=
  mkDDQueueData (activeRelocations st) (queuedRelocations st) (teamSize st)
    (singleRegionTeamSize st) (busymap st) (destBusymap st) (queueMap st)
    (fetchingSourcesQueue st) (fetchKeysComplete st) (queue st) (inFlight st)
    (inFlightActors st) (dataMoves st) (rawProcessingUnhealthy st)
    (rawProcessingWiggle st) (priority_relocations st) v.

(** [queue[id]]: the per-server set, created empty when absent. *)
Definition queue_at (q : gmap UID RdSet) (id : UID) : RdSet * gmap UID RdSet :=
  let s := default [] (q !! id) in (s, <[id := s]> q).

(** [priority_relocations[p]]: the counter, created at zero when absent. *)
Definition counter_at (c : gmap Z Z) (p : Z) : Z * gmap Z Z :=
  let n := default 0 (c !! p) in (n, <[p := n]> c).

(** The health priorities counted in [unhealthyRelocations]. *)
Definition countsAsUnhealthy (k : Knobs) (hp : Z) : bool :=
  (hp =? PRIORITY_POPULATE_REGION k) || (hp =? PRIORITY_TEAM_UNHEALTHY k) ||
  (hp =? PRIORITY_TEAM_2_LEFT k) || (hp =? PRIORITY_TEAM_1_LEFT k) ||
  (hp =? PRIORITY_TEAM_0_LEFT k) || (hp =? PRIORITY_TEAM_REDUNDANT k).

Definition startRelocation (k : Knobs) (prio hp : Z) (st : DDQueueData) : DDQueueData :=
  let st1 :=
    if countsAsUnhealthy k hp
    then set_rawProcessingUnhealthy true
           (set_unhealthyRelocations (unhealthyRelocations st + 1) st)
    else st in
  let st2 :=
    if hp =? PRIORITY_PERPETUAL_STORAGE_WIGGLE k
    then set_rawProcessingWiggle true st1 else st1 in
  let '(n, c) := counter_at (priority_relocations st2) prio in
  set_priority_relocations (<[prio := n + 1]> c) st2.

Definition finishRelocation (k : Knobs) (prio hp : Z) (st : DDQueueData)
  : option DDQueueData :=
  st1 ← (if countsAsUnhealthy k hp then
           let n := unhealthyRelocations st - 1 in
           if 0 <=? n then
             let st' := set_unhealthyRelocations n st in
             Some (if n =? 0 then set_rawProcessingUnhealthy false st' else st')
           else None
         else Some st);
  let '(n, c) := counter_at (priority_relocations st1) prio in
  let c1 := <[prio := n - 1]> c in
  let '(w, c2) := counter_at c1 (PRIORITY_PERPETUAL_STORAGE_WIGGLE k) in
  let st2 := set_priority_relocations c2 st1 in
  Some (if w =? 0 then set_rawProcessingWiggle false st2 else st2).

(** [std::set<UID>], the list of its elements in ascending order. *)
Fixpoint uidset_insert (x : UID) (s : list UID) : list UID :=
  match s with
  | [] => [x]
  | y :: s' =>
      if UID_gt y x then x :: y :: s'
      else if UID_gt x y then y :: uidset_insert x s'
      else y :: s'
  end.


(** ** [queueRelocation]: the scan of the overlapping entries (lines 835-890)

    The first loop of [queueRelocation] visits every entry of [queueMap]
    that intersects the keys of the new relocation [rd]. *)

(** Lines 858-866: what [rd] takes over from an active entry [rrs]. *)
Definition inheritFrom (hasHealthPriority hasBoundaryPriority : bool)
    (rd rrs : RelocateData) : RelocateData :=
  let rd1 := set_wantsNewServers (wantsNewServers rd || wantsNewServers rrs) rd in
  let rd2 := set_startTime (Z.min (startTime rd1) (startTime rrs)) rd1 in
  let rd3 :=
    if negb hasHealthPriority
    then set_healthPriority (Z.max (healthPriority rd2) (healthPriority rrs)) rd2
    else rd2 in
  let rd4 :=
    if negb hasBoundaryPriority
    then set_boundaryPriority (Z.max (boundaryPriority rd3) (boundaryPriority rrs)) rd3
    else rd3 in
  set_priority
    (Z.max (priority rd4) (Z.max (boundaryPriority rd4) (healthPriority rd4))) rd4.

(** Lines 843-844. *)
Definition foundActiveFetching (st : DDQueueData) (rrs : RelocateData) : bool :=
  rdset_count rrs (fetchingSourcesQueue st).

(** Lines 847-853: the look-up in the queue of the first source, made only
    when the entry is not being fetched and has sources. *)
Definition foundActiveRelocation (st : DDQueueData) (rrs : RelocateData)
  : bool * DDQueueData :=
  match src rrs with
  | first :: _ =>
      if negb (foundActiveFetching st rrs) then
        let '(firstQueue, q1) := queue_at (queue st) first in
        (rdset_count rrs firstQueue, set_queue q1 st)
      else (false, st)
  | [] => (false, st)
  end.

(** [queue[id].erase(rrs)]. *)
Definition queue_erase (rrs : RelocateData) (q : gmap UID RdSet) (id : UID)
  : gmap UID RdSet :=
  let '(s, q1) := queue_at q id in <[id := rdset_erase rrs s]> q1.

(** The state threaded through the scan: the new relocation, the queue,
    [serversToLaunchFrom] and the effects so far. *)
Abbreviation ScanState := (RelocateData * DDQueueData * list UID * list Effect)%type.

(** One turn of the loop (lines 841-889). *)
Definition queueRelocation_visit (k : Knobs)
    (hasHealthPriority hasBoundaryPriority : bool)
    (acc : ScanState) (rrs : RelocateData) : option ScanState :=
  let '(rd, st, serversToLaunchFrom, eff) := acc in
  let fetching := foundActiveFetching st rrs in
  let '(relocating, st1) := foundActiveRelocation st rrs in
  let rd1 :=
    if fetching || relocating
    then inheritFrom hasHealthPriority hasBoundaryPriority rd rrs else rd in
  let st2 :=
    if KeyRange_contains (keys rd1) (keys rrs) then
      if fetching
      then set_fetchingSourcesQueue (rdset_erase rrs (fetchingSourcesQueue st1)) st1
      else if relocating
      then set_queue (foldl (queue_erase rrs) (queue st1) (src rrs)) st1
      else st1
    else st1 in
  if fetching || relocating then
    let st3 := set_queuedRelocations (queuedRelocations st2 - 1) st2 in
    st4 ← finishRelocation k (priority rrs) (healthPriority rrs) st3;
    Some (rd1, st4, foldr uidset_insert serversToLaunchFrom (src rrs),
          eff ++ [ETrace SevVerbose "QueuedRelocationsChanged"])
  else Some (rd1, st2, serversToLaunchFrom, eff).

(** Lines 835-890: [rd] is built from [rs], then the loop runs over the
    values of the entries intersecting [rd.keys]. *)
Definition queueRelocation_scan (k : Knobs) (rs : RelocateShard) (now : Z) (rid : UID)
    (st : DDQueueData) (serversToLaunchFrom : list UID) : option ScanState :=
  let rd := RelocateData_of k rs now rid in
  let hasHealthPriority := isHealthPriority k (priority rd) in
  let hasBoundaryPriority := isBoundaryPriority k (priority rd) in
  foldM_opt (queueRelocation_visit k hasHealthPriority hasBoundaryPriority)
    (rd, st, serversToLaunchFrom, [])
    (snd <$> intersectingRanges (queueMap st) (keys rd)).

(** ** [launchQueuedWork] (lines 996-1160) *)

(** Lines 1041-1054: is there an in-flight entry that keeps [rd] waiting? *)
Definition blocksLaunch (k : Knobs) (st : DDQueueData) (rd : RelocateData)
    (e : KeyRange * RelocateData) : bool :=
  rdset_count (snd e) (fetchKeysComplete st) &&
  liveActorAt (inFlightActors st) (kr_begin (fst e)) &&
  negb (KeyRange_contains (keys rd) (fst e)) &&
  (priority rd <=? priority (snd e)) &&
  (healthPriority rd <? PRIORITY_TEAM_UNHEALTHY k).

Definition overlappingInFlight (k : Knobs) (st : DDQueueData) (rd : RelocateData)
  : bool :=
  existsb (blocksLaunch k st rd) (intersectingRanges (inFlight st) (keys rd)).

(** Lines 1064-1070. *)
Definition cancellableRelocations (st : DDQueueData) (rd : RelocateData)
  : list RelocateData :=
  snd <$> List.filter (fun e => cancellable (snd e))
            (containedRanges (inFlight st) (keys rd)).

(** Lines 1096-1098: [ASSERT(queue[rd.src[i]].erase(rd))]. *)
Definition queue_erase_assert (rd : RelocateData) (q : gmap UID RdSet) (id : UID)
  : option (gmap UID RdSet) :=
  let '(s, q1) := queue_at q id in
  if rdset_count rd s then Some (<[id := rdset_erase rd s]> q1) else None.

(** Lines 1120-1144: the launch of one of the affected ranges.  [newId]
    gives the random identifier drawn for a range. *)
Definition launchRange (k : Knobs) (rd : RelocateData) (newId : KeyRange -> UID)
    (acc : DDQueueData * list Effect) (r : KeyRange)
  : option (DDQueueData * list Effect) :=
  let '(st, eff) := acc in
  e ← rangeContaining (inFlight st) (kr_begin r);
  let rrs1 := set_keys r (snd e) in
  rrs2 ← (if bool_decide (keys rd = r) && isRestore rd then
            match dataMove rd with
            | Some dm =>
                if SHARD_ENCODE_LOCATION_METADATA k
                then Some (set_dataMoveId (dm_meta_id dm) rrs1) else None
            | None => None
            end
          else
            Some (set_dataMoveId
                    (if SHARD_ENCODE_LOCATION_METADATA k
                     then newId r else anonymousShardId k)
                    (set_dataMove None rrs1)));
  '(rrs3, bm) ← launch k rrs2 (busymap st) (singleRegionTeamSize st);
  let st1 := set_inFlight (krm_assign (kr_begin r) rrs3 (inFlight st)) st in
  let st2 := set_activeRelocations (activeRelocations st1 + 1) (set_busymap bm st1) in
  let st3 := startRelocation k (priority rrs3) (healthPriority rrs3) st2 in
  Some (set_inFlightActors (krm_insert (keys rrs3) true (inFlightActors st3)) st3,
        eff ++ [ETrace SevVerbose "InFlightRelocationChange"; ESpawnRelocator rrs3]).

(** Lines 1064-1145: the admission check and, when it passes, the launch. *)
Definition launchAdmitted (k : Knobs) (newId : KeyRange -> UID)
    (st : DDQueueData) (eff : list Effect) (rd : RelocateData)
  : option (DDQueueData * list Effect) :=
  '(admitted, bm) ← (if isRestore rd then Some (true, busymap st)
                      else canLaunchSrc k rd (teamSize st) (singleRegionTeamSize st)
                             (busymap st) (cancellableRelocations st rd));
  let st0 := set_busymap bm st in
  if negb admitted then Some (st0, eff)
  else
    '(st1, eff1) ←
      (if isRestore rd then Some (st0, eff)
       else
         st' ← finishRelocation k (priority rd) (healthPriority rd)
                 (set_queuedRelocations (queuedRelocations st0 - 1) st0);
         q ← foldM_opt (queue_erase_assert rd) (queue st') (src rd);
         Some (set_queue q st', eff ++ [ETrace SevVerbose "QueuedRelocationsChanged"]));
    let eff2 :=
      if SHARD_ENCODE_LOCATION_METADATA k
      then eff1 ++ [ECancelDataMove (keys rd)] else eff1 in
    let rd1 :=
      set_wantsNewServers
        (wantsNewServers rd ||
         existsb (fun e : KeyRange * RelocateData =>
                    liveActorAt (inFlightActors st1) (kr_begin (fst e)) &&
                    wantsNewServers (snd e))
           (intersectingRanges (inFlight st1) (keys rd))) rd in
    let ranges := getRangesAffectedByInsertion (inFlightActors st1) (keys rd1) in
    let span := mkKeyRange (kr_begin (List.hd (keys rd1) ranges))
                           (kr_end (List.last ranges (keys rd1))) in
    let st2 := set_inFlightActors (krm_insert span false (inFlightActors st1)) st1 in
    let st3 := set_inFlight (krm_insert (keys rd1) rd1 (inFlight st2)) st2 in
    foldM_opt (launchRange k rd1 newId) (st3, eff2 ++ [ECancelActors span]) ranges.

(** One turn of the loop of lines 1037-1148.  A relocation kept waiting by
    an in-flight entry is passed over ([continue]) after
    [ASSERT(!rd.isRestore())]. *)
Definition launchOne (k : Knobs) (newId : KeyRange -> UID)
    (acc : DDQueueData * list Effect) (rd : RelocateData)
  : option (DDQueueData * list Effect) :=
  let '(st, eff) := acc in
  if overlappingInFlight k st rd then
    if isRestore rd then None else Some (st, eff)
  else launchAdmitted k newId st eff rd.

(** [launchQueuedWork(combined)]; [validate()] only traces and is left out. *)
Definition launchQueuedWork (k : Knobs) (newId : KeyRange -> UID)
    (st : DDQueueData) (combined : RdSet) : option (DDQueueData * list Effect) :=
  foldM_opt (launchOne k newId) (st, []) combined.

(** Lines 1009-1017: the candidates taken from the queues of the servers. *)
Definition combineFromServer (teamSize : Z)
    (acc : RdSet * gmap UID RdSet) (id : UID) : RdSet * gmap UID RdSet :=
  let '(combined, q) := acc in
  let '(queuedWork, q1) := queue_at q id in
  (foldl (fun c rd => rdset_insert rd c) combined (take (Z.to_nat teamSize) queuedWork),
   q1).

Definition combineFromServers (teamSize : Z) (q : gmap UID RdSet)
    (serversToLaunchFrom : list UID) : RdSet * gmap UID RdSet :=
  foldl (combineFromServer teamSize) ([], q) serversToLaunchFrom.

(** [launchQueuedWork(serversToLaunchFrom)] (lines 1007-1019). *)
Definition launchQueuedWork_servers (k : Knobs) (newId : KeyRange -> UID)
    (st : DDQueueData) (serversToLaunchFrom : list UID)
  : option (DDQueueData * list Effect) :=
  let '(combined, q) :=
    combineFromServers (teamSize st) (queue st) serversToLaunchFrom in
  launchQueuedWork k newId (set_queue q st) combined.

(** [launchQueuedWork(launchData)] (lines 1021-1026). *)
Definition launchQueuedWork_one (k : Knobs) (newId : KeyRange -> UID)
    (st : DDQueueData) (launchData : RelocateData)
  : option (DDQueueData * list Effect) :=
  launchQueuedWork k newId st (rdset_insert launchData []).

(** ** [enqueueCancelledDataMove] (lines 1189-1210) *)

Definition enqueueCancelledDataMove (dataMoveId : UID) (range : KeyRange)
    (st : DDQueueData) : DDQueueData * list Effect :=
  match List.find (fun e => DDDataMove_isValid (snd e))
          (intersectingRanges (dataMoves st) range) with
  | Some _ => (st, [ETrace SevError "DDEnqueueCancelledDataMoveConflict"])
  | None =>
      let dataMove := mkDDDataMove dataMoveId (Some (dataMoveId, range)) in
      (set_dataMoves (krm_insert range dataMove (dataMoves st)) st,
       [ECleanUpDataMove dataMoveId range;
        ETrace SevInfo "DDEnqueuedCancelledDataMove"])
  end.


(** ** [rebalanceTeams] (lines 1812-1881)

    The actor waits for replies and draws random numbers; what it receives
    is gathered in a record, and the function computes what the actor does
    on these replies. *)

Record RebalanceInput : Type := mkRebalanceInput {
  (** [g_network->isSimulated() && g_simulator.speedUpSimulation] *)
  speedUpSimulation : bool;
  (** the reply to the request sent on [getAverageShardBytes] *)
  averageShardBytes : Z;
  (** [getShardsFor(sourceTeam)] at line 1827 *)
  shardsBefore : list KeyRange;
  (** the number drawn by the [n]-th [randomChoice] *)
  randomDraw : nat -> nat;
  (** [bytes] of the metrics replied for a shard at the [n]-th try *)
  shardBytes : nat -> KeyRange -> Z;
  (** [sourceTeam->getLoadBytes(false)] and [destTeam->getLoadBytes()] *)
  sourceBytes : Z;
  destBytes : Z;
  (** [getShardsFor(sourceTeam)] at line 1870 *)
  shardsAfter : list KeyRange
}.

(** [deterministicRandom()->randomChoice(shards)] on the [n]-th try. *)
Definition randomChoice (inp : RebalanceInput) (n : nat) : KeyRange :=
  nth (randomDraw inp n mod length (shardsBefore inp))%nat (shardsBefore inp)
      (mkKeyRange "" "").

(** The state of the loop of lines 1840-1852: the shard and its size kept
    so far, and the number of tries made. *)
Record PickState : Type := mkPickState {
  moveShard : KeyRange;
  metricsBytes : Z;
  tries : nat
}.

(** [fuel] bounds the turns left: [REBALANCE_MAX_RETRIES - retries]. *)
Fixpoint pickShard (inp : RebalanceInput) (fuel : nat) (p : PickState) : PickState :=
  match fuel with
  | O => p
  | S fuel' =>
      let testShard := randomChoice inp (tries p) in
      let testBytes := shardBytes inp (tries p) testShard in
      if metricsBytes p <? testBytes then
        if averageShardBytes inp <? testBytes
        then mkPickState testShard testBytes (S (tries p))
        else pickShard inp fuel' (mkPickState testShard testBytes (S (tries p)))
      else pickShard inp fuel' (mkPickState (moveShard p) (metricsBytes p) (S (tries p)))
  end.

Definition pickStart : PickState := mkPickState (mkKeyRange "" "") 0 0.

(** The requests for shard metrics sent over [n] tries. *)
Definition metricsRequests (inp : RebalanceInput) (n : nat) : list Effect :=
  (fun i => EGetShardMetrics (randomChoice inp i)) <$> seq 0 n.

Definition rebalanceTeams (k : Knobs) (inp : RebalanceInput)
    (moveReason : DataMovementReason) : bool * list Effect :=
  if speedUpSimulation inp then (false, [])
  else
    match shardsBefore inp with
    | [] => (false, [EGetAverageShardBytes])
    | _ :: _ =>
        let p := pickShard inp (Z.to_nat (REBALANCE_MAX_RETRIES k)) pickStart in
        let eff := EGetAverageShardBytes :: metricsRequests inp (tries p) in
        let sourceAndDestTooSimilar :=
          sourceBytes inp - destBytes inp
          <=? 3 * Z.max (MIN_SHARD_BYTES k) (metricsBytes p) in
        if sourceAndDestTooSimilar || (metricsBytes p =? 0) then (false, eff)
        else if existsb (fun sh => bool_decide (moveShard p = sh)) (shardsAfter inp)
        then (true, eff ++ [EOutput (RelocateShard_new k (moveShard p) moveReason
                                       RR_REBALANCE_DISK)])
        else (false, eff)
    end.

(** ** The busyness operations as the scheduler issues them

    The relocator is an actor; between two waits it runs without
    interruption.  The events below are the stretches of the relocator and
    of the main loop that touch [busymap] and [destBusymap]. *)

Inductive Phase : Type := SelectingTeams | Moving | Ended.

(** The state of a relocator: its own copy [rd] of the relocation, the flag
    [signalledTransferComplete], and where it stands. *)
Record Relocator : Type := mkRelocator {
  r_rd : RelocateData;
  r_signalled : bool;
  r_phase : Phase
}.

Record Sched : Type := mkSched {
  sc_busymap : Busymap;
  sc_destBusymap : Busymap;
  sc_relocators : list Relocator;
  (** the relocations sent on [dataTransferComplete] and not yet received *)
  sc_transferComplete : list RelocateData
}.

Definition Sched_init : Sched := mkSched ∅ ∅ [] [].

Inductive SchedEvent : Type :=
(** [launchQueuedWork], lines 1137-1144: [launch(rrs, busymap, ...)], then
    the relocator is started on a copy of [rrs] *)
| EvLaunch (rd : RelocateData)
(** relocator [i], lines 1416-1421 and 1515: the destination teams are not
    overloaded, [launchDest(rd, bestTeams, destBusymap)] *)
| EvLaunchDest (i : nat) (bestTeams : CandidateTeams)
(** relocator [i], lines 1595-1612: the health poll finds the destination
    unhealthy, or the data movement is complete, and
    [dataTransferComplete.send(rd)] is made for the first time *)
| EvSignalTransferComplete (i : nat)
(** relocator [i], lines 1615-1621 and 1672-1684: [moveKeys] fails with
    [move_to_removed_server]; [completeDest(rd, destBusymap)],
    [rd.completeDests.clear()], back to the choice of the teams *)
| EvMoveToRemovedServer (i : nat)
(** relocator [i], lines 1660-1668 and 1699-1702: the relocator ends, by
    success, error or cancellation, and sends [rd] on
    [dataTransferComplete] unless it has done so *)
| EvEnd (i : nat)
(** main loop, lines 2302-2303: a relocation is received from
    [dataTransferComplete]; [complete(done, busymap, destBusymap)] *)
| EvReceiveTransferComplete.

Definition sched_step (k : Knobs) (singleRegionTeamSize : Z) (s : Sched)
    (ev : SchedEvent) : option Sched :=
  match ev with
  | EvLaunch rd =>
      '(rd', bm) ← launch k rd (sc_busymap s) singleRegionTeamSize;
      Some (mkSched bm (sc_destBusymap s)
              (sc_relocators s ++ [mkRelocator rd' false SelectingTeams])
              (sc_transferComplete s))
  | EvLaunchDest i bestTeams =>
      r ← sc_relocators s !! i;
      match r_phase r with
      | SelectingTeams =>
          '(ok, d1) ← canLaunchDest k bestTeams (priority (r_rd r)) (sc_destBusymap s);
          if ok : bool then
            '(rd', d2) ← launchDest k (r_rd r) bestTeams d1;
            Some (mkSched (sc_busymap s) d2
                    (<[i := mkRelocator rd' (r_signalled r) Moving]> (sc_relocators s))
                    (sc_transferComplete s))
          else None
      | _ => None
      end
  | EvSignalTransferComplete i =>
      r ← sc_relocators s !! i;
      match r_phase r, r_signalled r with
      | Moving, false =>
          Some (mkSched (sc_busymap s) (sc_destBusymap s)
                  (<[i := mkRelocator (r_rd r) true Moving]> (sc_relocators s))
                  (sc_transferComplete s ++ [r_rd r]))
      | _, _ => None
      end
  | EvMoveToRemovedServer i =>
      r ← sc_relocators s !! i;
      match r_phase r with
      | Moving =>
          d ← completeDest k (r_rd r) (sc_destBusymap s);
          Some (mkSched (sc_busymap s) d
                  (<[i := mkRelocator (set_completeDests [] (r_rd r)) (r_signalled r)
                            SelectingTeams]> (sc_relocators s))
                  (sc_transferComplete s))
      | _ => None
      end
  | EvEnd i =>
      r ← sc_relocators s !! i;
      match r_phase r with
      | Ended => None
      | _ =>
          Some (mkSched (sc_busymap s) (sc_destBusymap s)
                  (<[i := mkRelocator (r_rd r) true Ended]> (sc_relocators s))
                  (if r_signalled r then sc_transferComplete s
                   else sc_transferComplete s ++ [r_rd r]))
      end
  | EvReceiveTransferComplete =>
      match sc_transferComplete s with
      | [] => None
      | done :: rest =>
          '(bm, d) ← complete k done (sc_busymap s) (sc_destBusymap s);
          Some (mkSched bm d (sc_relocators s) rest)
      end
  end.

Definition sched_run (k : Knobs) (singleRegionTeamSize : Z) (s : Sched)
    (evs : list SchedEvent) : option Sched :=
  foldM_opt (sched_step k singleRegionTeamSize) s evs.

(** What [validate()] checks of a ledger (lines 764-794): no bucket is
    below the next one, and no bucket is negative. *)
Fixpoint ledger_nonincreasing (l : list Z) : bool :=
  match l with
  | x :: ((y :: _) as l') => (y <=? x) && ledger_nonincreasing l'
  | _ => true
  end.

Definition ledger_ok (b : Busyness) : bool :=
  ledger_nonincreasing (ledger b) && forallb (fun x => 0 <=? x) (ledger b).

(** Every ledger of the map passes the check. *)
Definition Busymap_ok (m : Busymap) : Prop :=
  map_Forall (fun _ b => ledger_ok b = true) m.


(** ** The admission rule in the words of the specification

    These definitions restate section 4.4; they are compared with
    [canLaunchSrc] in Part III. *)

Definition sumZ (l : list Z) : Z := foldr Z.add 0 l.

(** The ledger [busymap] holds for [id]: ten zeros when [id] has no entry. *)
Definition busy_of (m : Busymap) (id : UID) : Busyness :=
  default Busyness_new (m !! id).

(** The work a cancellable relocation [c] holds in bucket [i] of server
    [id]: its work factor when [id] is one of its sources and the bucket is
    at or below its priority band. *)
Definition cancelledWork (id : UID) (i : Z) (c : RelocateData) : Z :=
  if bool_decide (id ∈ src c) && (i <=? priority c ÷ 100) then workFactor c else 0.

(** Bucket [i] of server [id] once the cancellable work is taken off. *)
Definition reducedLevel (busymap : Busymap) (cancellableRelocations : list RelocateData)
    (id : UID) (i : Z) : Z :=
  default 0 (ledger (busy_of busymap id) !! Z.to_nat i)
  - sumZ (cancelledWork id i <$> cancellableRelocations).

(** Server [id] can admit [work] at priority [prio]. *)
Definition admitsSrc (busymap : Busymap) (cancellableRelocations : list RelocateData)
    (prio work : Z) (id : UID) : bool :=
  reducedLevel busymap cancellableRelocations id (prio ÷ 100) + work <=? 10000.

(** How many entries of [srcs] admit the work. *)
Definition admittingServers (busymap : Busymap) (cancellableRelocations : list RelocateData)
    (prio work : Z) (srcs : list UID) : Z :=
  Z.of_nat (length (List.filter (admitsSrc busymap cancellableRelocations prio work) srcs)).

(** Every ledger of the map has its ten buckets. *)
Definition Busymap_wf (m : Busymap) : Prop :=
  map_Forall (fun _ b => Busyness_wf b) m.

#[global] Instance Busyness_wf_dec b : Decision (Busyness_wf b).
Proof. unfold Busyness_wf. apply _. Defined.

#[global] Instance Busymap_wf_dec m : Decision (Busymap_wf m).
Proof. unfold Busymap_wf. apply _. Defined.


(** ** Other notions of the specification *)

(** The iteration order of the set: each element is [operator>] those
    after it. *)
Definition rdset_sorted (s : RdSet) : Prop :=
  StronglySorted (fun a b => rd_gt a b = true) s.

(** An entry is active when it is found in [fetchingSourcesQueue] or in the
    queue of its first source. *)
Definition activeEntry (st : DDQueueData) (rrs : RelocateData) : Prop :=
  rdset_count rrs (fetchingSourcesQueue st) = true \/
  exists first others, src rrs = first :: others /\
    rdset_count rrs (default [] (queue st !! first)) = true.

(** The size replied for the shard drawn at try [i]. *)
Definition sampleBytes (inp : RebalanceInput) (i : nat) : Z :=
  shardBytes inp i (randomChoice inp i).


(** ** The work the scheduler has outstanding on a source server *)

(** How often [id] occurs in a list of servers. *)
Definition occurrences (id : UID) (l : list UID) : Z :=
  Z.of_nat (length (List.filter (fun x => bool_decide (x = id)) l)).

(** What a launched relocation adds to bucket [i] of the ledger of [id]. *)
Definition srcWorkAt (id : UID) (i : Z) (rd : RelocateData) : Z :=
  occurrences id (src rd) * (if i <=? priority rd ÷ 100 then workFactor rd else 0).

(** The same for a relocator: nothing once it has signalled the end of its
    transfer. *)
Definition relocatorWorkAt (id : UID) (i : Z) (r : Relocator) : Z :=
  if r_signalled r then 0 else srcWorkAt id i (r_rd r).

(** The work launched and not yet completed: that of the relocators that
    have not signalled, and that of the relocations sent on
    [dataTransferComplete] and not yet received. *)
Definition outstandingAt (s : Sched) (id : UID) (i : Z) : Z :=
  sumZ (relocatorWorkAt id i <$> sc_relocators s) +
  sumZ (srcWorkAt id i <$> sc_transferComplete s).

(** The invariant of [busymap]: every bucket holds the outstanding work,
    and no work factor is negative. *)
Definition busymap_accounts (s : Sched) : Prop :=
  Busymap_wf (sc_busymap s) /\
  (forall id (i : nat), (i < 10)%nat ->
     ledger (busy_of (sc_busymap s) id) !! i = Some (outstandingAt s id (Z.of_nat i))) /\
  Forall (fun r => 0 <= workFactor (r_rd r)) (sc_relocators s) /\
  Forall (fun rd => 0 <= workFactor rd) (sc_transferComplete s).

(** ** Values for the examples

    The knob values of a default cluster, with one relocation at a time per
    source server, and a few servers and ledgers to run the functions on. *)

Definition sample_knobs : Knobs :=
  {| PRIORITY_RECOVER_MOVE := 110;
     PRIORITY_REBALANCE_UNDERUTILIZED_TEAM := 120;
     PRIORITY_REBALANCE_OVERUTILIZED_TEAM := 121;
     PRIORITY_REBALANCE_READ_OVERUTIL_TEAM := 122;
     PRIORITY_REBALANCE_READ_UNDERUTIL_TEAM := 123;
     PRIORITY_PERPETUAL_STORAGE_WIGGLE := 139;
     PRIORITY_TEAM_HEALTHY := 140;
     PRIORITY_TEAM_CONTAINS_UNDESIRED_SERVER := 150;
     PRIORITY_TEAM_REDUNDANT := 200;
     PRIORITY_MERGE_SHARD := 340;
     PRIORITY_POPULATE_REGION := 600;
     PRIORITY_TEAM_UNHEALTHY := 700;
     PRIORITY_TEAM_2_LEFT := 709;
     PRIORITY_TEAM_1_LEFT := 800;
     PRIORITY_TEAM_FAILED := 805;
     PRIORITY_TEAM_0_LEFT := 809;
     PRIORITY_SPLIT_SHARD := 950;
     RELOCATION_PARALLELISM_PER_SOURCE_SERVER := 1;
     RELOCATION_PARALLELISM_PER_DEST_SERVER := 10;
     USE_OLD_NEEDED_SERVERS := false;
     REBALANCE_MAX_RETRIES := 100;
     MIN_SHARD_BYTES := 200000;
     SHARD_ENCODE_LOCATION_METADATA := false;
     anonymousShardId := (666666%N, 88888888%N) |}.

Definition serverA : UID := (1%N, 1%N).
Definition serverB : UID := (1%N, 2%N).
Definition serverC : UID := (1%N, 3%N).
Definition serverD : UID := (1%N, 4%N).

(** A ledger holding [w] in the buckets [0 .. 7] and nothing above. *)
Definition busy_upto7 (w : Z) : Busyness :=
  mkBusyness [w; w; w; w; w; w; w; w; 0; 0].

(** Scenario S3 of the specification: a relocation at [TEAM_2_LEFT] from
    the servers A, B and C. *)
Definition rd_S3 : RelocateData :=
  mkRelocateData (mkKeyRange "k1" "k5") 709 (-1) 709 RR_OTHER 10 (7%N, 7%N)
    (666666%N, 88888888%N) 0 [serverA; serverB; serverC] [] [] false true None.

Definition busymap_S3 : Busymap :=
  <[serverA := busy_upto7 6000]> (<[serverB := busy_upto7 4000]> ∅).

(** The end of the key space, ["\xff\xff"]. *)
Definition byte_ff : Ascii.ascii :=
  Ascii.Ascii true true true true true true true true.

Definition allKeys_end : Key := String byte_ff (String byte_ff EmptyString).

Definition allKeys : KeyRange := mkKeyRange "" allKeys_end.

(** A queue with nothing queued and nothing in flight: every key-range map
    holds its default value over the whole key space. *)
Definition DDQueueData_new (k : Knobs) (teamSize singleRegionTeamSize : Z)
  : DDQueueData :=
  mkDDQueueData 0 0 teamSize singleRegionTeamSize ∅ ∅
    [(allKeys, RelocateData_default k)] [] [] ∅
    [(allKeys, RelocateData_default k)] [(allKeys, false)]
    [(allKeys, DDDataMove_default)] false false ∅ 0.

Definition moveD : UID := (9%N, 9%N).

(** A queue in which the data move [moveD] is recorded over [[k1, k5)]. *)
Definition queue_with_moveD : DDQueueData :=
  set_dataMoves
    (krm_insert (mkKeyRange "k1" "k5") (mkDDDataMove moveD None)
       (dataMoves (DDQueueData_new sample_knobs 3 3)))
    (DDQueueData_new sample_knobs 3 3).


(** Two relocations queued on server A, and a third one queued behind
    them. *)
Definition rd_first : RelocateData :=
  mkRelocateData (mkKeyRange "a" "b") 950 950 (-1) RR_OTHER 5 (1%N, 0%N)
    (666666%N, 88888888%N) 0 [serverA] [] [] true true None.

Definition rd_second : RelocateData :=
  mkRelocateData (mkKeyRange "b" "c") 709 (-1) 709 RR_OTHER 6 (2%N, 0%N)
    (666666%N, 88888888%N) 0 [serverA] [] [] false true None.

Definition rd_third : RelocateData :=
  mkRelocateData (mkKeyRange "c" "d") 120 (-1) (-1) RR_REBALANCE_DISK 7 (3%N, 0%N)
    (666666%N, 88888888%N) 0 [serverA] [] [] true true None.

Definition queue_of_A : gmap UID RdSet :=
  {[ serverA := [rd_first; rd_second; rd_third] ]}.

(** A relocation of [[k1, k9)] in flight, whose keys are fetched and whose
    relocator is still running, in a queue otherwise empty. *)
Definition rd_inflight : RelocateData :=
  mkRelocateData (mkKeyRange "k1" "k9") 709 (-1) 709 RR_OTHER 3 (4%N, 0%N)
    (666666%N, 88888888%N) 5000 [serverA] [] [] false false None.

Definition queue_with_inflight : DDQueueData :=
  set_inFlightActors
    (krm_insert (mkKeyRange "k1" "k9") true
       (inFlightActors (DDQueueData_new sample_knobs 3 3)))
    (set_inFlight
       (krm_insert (mkKeyRange "k1" "k9") rd_inflight
          (inFlight (DDQueueData_new sample_knobs 3 3)))
       (mkDDQueueData 0 0 3 3 ∅ ∅
          [(allKeys, RelocateData_default sample_knobs)] [] [rd_inflight] ∅
          [(allKeys, RelocateData_default sample_knobs)] [(allKeys, false)]
          [(allKeys, DDDataMove_default)] false false ∅ 0)).

(** A rebalance of [[k5, k9a)] waiting in the queue: it overlaps the
    relocation in flight without containing it. *)
Definition rd_waiting : RelocateData :=
  mkRelocateData (mkKeyRange "k5" "k9a") 120 (-1) (-1) RR_REBALANCE_DISK 7 (3%N, 0%N)
    (666666%N, 88888888%N) 0 [serverA] [] [] true true None.


(** After scenario S2 of the specification: [R1] covers [[k1, k9)] at
    [TEAM_HEALTHY] and waits for its sources; [R2], a split, arrives for
    [[k3, k5)]. *)
Definition rd_R1 : RelocateData :=
  mkRelocateData (mkKeyRange "k1" "k9") 140 (-1) 140 RR_OTHER 3 (4%N, 0%N)
    (666666%N, 88888888%N) 0 [] [] [] false true None.

Definition rs_R2 : RelocateShard :=
  mkRelocateShard (mkKeyRange "k3" "k5") 950 false None (666666%N, 88888888%N)
    RR_OTHER DMR_SPLIT_SHARD.

Definition queue_S2 : DDQueueData :=
  mkDDQueueData 0 1 3 3 ∅ ∅
    (krm_insert (mkKeyRange "k1" "k9") rd_R1
       [(allKeys, RelocateData_default sample_knobs)])
    [rd_R1] [] ∅
    [(allKeys, RelocateData_default sample_knobs)] [(allKeys, false)]
    [(allKeys, DDDataMove_default)] false false {[ 140 := 1 ]} 0.


(** Inputs of [rebalanceTeams].  In the first the only shard of the source
    team is gone from the team when the size check has passed.  In the
    second the first shard drawn is above the average, and the second one,
    never drawn, is larger. *)
Definition shard1 : KeyRange := mkKeyRange "a" "b".
Definition shard2 : KeyRange := mkKeyRange "b" "c".

Definition input_shard_gone : RebalanceInput :=
  mkRebalanceInput false 1000 [shard1] (fun _ => 0%nat) (fun _ _ => 5000000)
    100000000 0 [].

Definition input_early_stop : RebalanceInput :=
  mkRebalanceInput false 1000 [shard1; shard2] (fun n => n)
    (fun _ sh => if bool_decide (sh = shard1) then 2000 else 9000)
    100000000 0 [shard1; shard2].


(** A relocation at [TEAM_2_LEFT] from server A, and the events of its
    life when its destination, server D, turns out to be gone: the move is
    launched, the destination is chosen, the health poll reports the
    destination unhealthy, the main loop receives the relocation, and
    [moveKeys] fails with [move_to_removed_server]. *)
Definition rd_to_removed : RelocateData :=
  mkRelocateData (mkKeyRange "k1" "k5") 709 (-1) 709 RR_OTHER 10 (7%N, 7%N)
    (666666%N, 88888888%N) 0 [serverA] [] [] false true None.

Definition events_to_removed : list SchedEvent :=
  [EvLaunch rd_to_removed;
   EvLaunchDest 0 [([serverD], false)];
   EvSignalTransferComplete 0;
   EvReceiveTransferComplete;
   EvMoveToRemovedServer 0].

(** A relocation in flight from server A that can still be cancelled. *)
Definition rd_cancellable : RelocateData :=
  mkRelocateData (mkKeyRange "k2" "k3") 709 (-1) 709 RR_OTHER 2 (8%N, 0%N)
    (666666%N, 88888888%N) 5000 [serverA] [] [] false true None.

(** Server A alone, loaded at 6000 in the buckets [0 .. 7]. *)
Definition rd_fromA : RelocateData :=
  mkRelocateData (mkKeyRange "k1" "k5") 709 (-1) 709 RR_OTHER 10 (7%N, 7%N)
    (666666%N, 88888888%N) 0 [serverA] [] [] false true None.

(** ** Notions used in the further properties *)

(** What [canLaunch(prio, _)] reads of the ledger of [id]: the bucket of
    the band of [prio]. *)
Definition levelAt (m : Busymap) (id : UID) (prio : Z) : Z :=
  default 0 (ledger (busy_of m id) !! Z.to_nat (prio ÷ 100)).

(** A team of destinations for the examples: the servers C and D. *)
Definition teams_CD : CandidateTeams := [([serverC], true); ([serverD], false)].

(** [launchDest] for one relocation after the other, each towards the same
    candidate teams. *)
Definition launchDest_all (k : Knobs) (candidateTeams : CandidateTeams)
    (destBusymap : Busymap) (rds : list RelocateData) : option Busymap :=
  foldM_opt (fun d rd => snd <$> launchDest k rd candidateTeams d) destBusymap rds.

(** Three relocations of one band with no destination chosen yet. *)
Definition rds_three : list RelocateData := [rd_S3; rd_fromA; rd_to_removed].

(** ** The counters of the queue (lines 796-804 and 1162-1170) *)

(** [testActive] of [validate()] (lines 801-803): the sum of the counters
    of [priority_relocations].  A sum does not depend on the order in which
    the entries of the map are visited. *)
Definition testActive (c : gmap Z Z) : Z :=
  map_fold (fun _ count acc => acc + count) 0 c.

(** What the second [ASSERT] of [validate()] (line 804) checks. *)
Definition counters_agree (st : DDQueueData) : Prop :=
  activeRelocations st + queuedRelocations st
  = testActive (priority_relocations st).

(** [rawProcessingUnhealthy] is set while relocations are counted in
    [unhealthyRelocations]. *)
Definition unhealthy_flag_ok (st : DDQueueData) : Prop :=
  0 <= unhealthyRelocations st /\
  rawProcessingUnhealthy st = (0 <? unhealthyRelocations st).

(** [getHighestPriorityRelocation] (lines 1162-1170).  The maximum does not
    depend on the order in which the entries of the map are visited. *)
Definition getHighestPriorityRelocation (st : DDQueueData) : Z :=
  map_fold (fun priority count highestPriority =>
              if 0 <? count then Z.max highestPriority priority
              else highestPriority)
    0 (priority_relocations st).

(** A queue that counts one relocation in flight at [TEAM_2_LEFT] and one
    queued at [TEAM_HEALTHY]. *)
Definition queue_counting : DDQueueData :=
  mkDDQueueData 1 1 3 3 ∅ ∅
    [(allKeys, RelocateData_default sample_knobs)] [] [] ∅
    [(allKeys, RelocateData_default sample_knobs)] [(allKeys, false)]
    [(allKeys, DDDataMove_default)] true false {[ 140 := 1; 709 := 1 ]} 1.

(** ** The rest of [queueRelocation] (lines 892-959) *)

Definition set_queueMap (v : KeyRangeMap RelocateData) (st : DDQueueData) : DDQueueData :=
  mkDDQueueData (activeRelocations st) (queuedRelocations st) (teamSize st)
    (singleRegionTeamSize st) (busymap st) (destBusymap st) v
    (fetchingSourcesQueue st) (fetchKeysComplete st) (queue st) (inFlight st)
    (inFlightActors st) (dataMoves st) (rawProcessingUnhealthy st)
    (rawProcessingWiggle st) (priority_relocations st) (unhealthyRelocations st).

Definition set_fetchKeysComplete (v : RdSet) (st : DDQueueData) : DDQueueData :=
  mkDDQueueData (activeRelocations st) (queuedRelocations st) (teamSize st)
    (singleRegionTeamSize st) (busymap st) (destBusymap st) (queueMap st)
    (fetchingSourcesQueue st) v (queue st) (inFlight st)
    (inFlightActors st) (dataMoves st) (rawProcessingUnhealthy st)
    (rawProcessingWiggle st) (priority_relocations st) (unhealthyRelocations st).

(** Modelled from the spec: [m.getAffectedRangesAfterInsertion(r, v)]
    (section 4.1), the ranges an insertion of [r] leaves of the entries it
    touches: what the entry holding the start of [r] keeps before [r], then
    [r], then what the entry holding the end of [r] keeps after [r]. *)
Definition getAffectedRangesAfterInsertion {V : Type} (m : KeyRangeMap V) (r : KeyRange)
  : list KeyRange :=
  match rangeContaining m (kr_begin r) with
  | Some (s, _) =>
      if negb (String.eqb (kr_begin s) (kr_begin r))
      then [mkKeyRange (kr_begin s) (kr_begin r)] else []
  | None => []
  end ++ [r] ++
  match rangeContaining m (kr_end r) with
  | Some (e, _) =>
      if negb (String.eqb (kr_begin e) (kr_end r))
      then [mkKeyRange (kr_end r) (kr_end e)] else []
  | None => []
  end.

(** What the main loop and the functions it calls do besides changing
    their state: the effects of the functions above, and the source
    fetches, delayed sends and replies of the rest. *)
Inductive LoopEffect : Type :=
| LQueue (e : Effect)
(** [getSourceActors.cancel(range)] *)
| LCancelSourceActors (range : KeyRange)
(** [getSourceActors.insert(rrs.keys, getSourceServersForRange(rrs))] *)
| LGetSourceServers (rrs : RelocateData)
(** [tag(delay(0), keys, rangesComplete)] *)
| LTagRangeComplete (range : KeyRange)
(** the event [MovingData], with [InFlight], [InQueue],
    [UnhealthyRelocations] and [HighestPriority] *)
| LMovingData (inFlight inQueue unhealthy highest : Z)
(** the reply to [getUnhealthyRelocationCount] *)
| LReplyUnhealthyRelocations (n : Z).

(** Lines 931-953: the relocation [rrs], found again in the queues of its
    sources, is replaced there by [newData]; the loop stops at the first
    source whose queue does not hold it. *)
Fixpoint requeue_servers (k : Knobs) (rrs newData : RelocateData) (srcs : list UID)
    (foundActiveRelocation : bool) (st : DDQueueData) (eff : list LoopEffect)
  : DDQueueData * list LoopEffect :=
  match srcs with
  | [] => (st, eff)
  | id :: rest =>
      let '(serverQueue, q1) := queue_at (queue st) id in
      let st0 := set_queue q1 st in
      if rdset_count rrs serverQueue then
        let '(st1, eff1) :=
          if foundActiveRelocation then (st0, eff)
          else (startRelocation k (priority newData) (healthPriority newData)
                  (set_queuedRelocations (queuedRelocations st0 + 1) st0),
                eff ++ [LQueue (ETrace SevVerbose "QueuedRelocationsChanged")]) in
        let st2 :=
          set_queue (<[id := rdset_insert newData (rdset_erase rrs serverQueue)]>
                       (queue st1)) st1 in
        requeue_servers k rrs newData rest true st2 eff1
      else (st0, eff)
  end.

(** One turn of the loop of lines 904-959, for the affected range [sr].
    The iterator [queueMapItr], advanced from one affected range to the
    next, is at the entry of [queueMap] that holds the start of [sr] (the
    assertion commented out at line 905). *)
Definition requeue_visit (k : Knobs) (rd : RelocateData)
    (acc : DDQueueData * list LoopEffect) (sr : KeyRange)
  : option (DDQueueData * list LoopEffect) :=
  let '(st, eff) := acc in
  e ← rangeContaining (queueMap st) (kr_begin sr);
  let rrs := snd e in
  let '(refetch, fetching) :=
    match src rrs with
    | [] =>
        if bool_decide (keys rrs = keys rd) then (true, fetchingSourcesQueue st)
        else (rdset_count rrs (fetchingSourcesQueue st),
              rdset_erase rrs (fetchingSourcesQueue st))
    | _ :: _ => (false, fetchingSourcesQueue st)
    end in
  let st0 := set_fetchingSourcesQueue fetching st in
  if refetch : bool then
    let rrs1 := set_keys sr rrs in
    let st1 := set_queueMap (krm_assign (kr_begin sr) rrs1 (queueMap st0)) st0 in
    let st2 := startRelocation k (priority rrs1) (healthPriority rrs1)
                 (set_queuedRelocations (queuedRelocations st1 + 1) st1) in
    Some (set_fetchingSourcesQueue (rdset_insert rrs1 (fetchingSourcesQueue st2)) st2,
          eff ++ [LQueue (ETrace SevVerbose "QueuedRelocationsChanged");
                  LGetSourceServers rrs1])
  else
    let newData := set_keys sr rrs in
    if negb (Z.of_nat (length (src rrs)) =? 0) || (startTime rrs =? -1) then
      let '(st1, eff1) := requeue_servers k rrs newData (src rrs) false st0 eff in
      Some (set_queueMap (krm_assign (kr_begin sr) newData (queueMap st1)) st1, eff1)
    else None.

(** [queueRelocation(rs, serversToLaunchFrom)] (lines 831-966); [now] is
    the reading of the clock and [rid] the random identifier drawn when
    [rd] is built. *)
Definition queueRelocation (k : Knobs) (rs : RelocateShard) (now : Z) (rid : UID)
    (st : DDQueueData) (serversToLaunchFrom : list UID)
  : option (DDQueueData * list UID * list LoopEffect) :=
  '(rd, st1, servers, eff) ← queueRelocation_scan k rs now rid st serversToLaunchFrom;
  let affectedQueuedItems := getAffectedRangesAfterInsertion (queueMap st1) (keys rd) in
  let st2 := set_queueMap (krm_insert (keys rd) rd (queueMap st1)) st1 in
  let span := mkKeyRange (kr_begin (List.hd (keys rd) affectedQueuedItems))
                         (kr_end (List.last affectedQueuedItems (keys rd))) in
  '(st3, eff3) ← foldM_opt (requeue_visit k rd)
                   (st2, (LQueue <$> eff) ++ [LCancelSourceActors span])
                   affectedQueuedItems;
  Some (st3, servers, eff3).

(** ** [completeSourceFetch], [launchQueuedWork(keys)] and the throttle of
    the read rebalancer (lines 968-1005 and 1172-1186)

    [lastAsSource] maps a server to the reading of the clock at which it
    was last a source; it is threaded next to the queue. *)

(** [updateLastAsSource(ids, t)]. *)
Definition updateLastAsSource (ids : list UID) (t : Z) (lastAsSource : gmap UID Z)
  : gmap UID Z :=
  foldl (fun m id => <[id := t]> m) lastAsSource ids.

(** [timeThrottle(ids)]; [parallelism] is [READ_REBALANCE_SRC_PARALLELISM]
    and [interval] is [STORAGE_METRICS_AVERAGE_INTERVAL] in clock ticks. *)
Definition timeThrottle (parallelism interval now : Z) (lastAsSource : gmap UID Z)
    (ids : list UID) : bool :=
  existsb (fun id =>
             match lastAsSource !! id with
             | Some t => (now - t) * parallelism <? interval
             | None => false
             end) ids.

(** [queue[id].insert(results)]. *)
Definition queue_insert (results : RelocateData) (q : gmap UID RdSet) (id : UID)
  : gmap UID RdSet :=
  let '(s, q1) := queue_at q id in <[id := rdset_insert results s]> q1.

Definition completeSourceFetch (results : RelocateData) (now : Z)
    (st : DDQueueData) (lastAsSource : gmap UID Z)
  : option (DDQueueData * gmap UID Z) :=
  if rdset_count results (fetchingSourcesQueue st) then
    let st1 := set_fetchingSourcesQueue
                 (rdset_erase results (fetchingSourcesQueue st)) st in
    let st2 := set_queueMap (krm_insert (keys results) results (queueMap st1)) st1 in
    let st3 := set_queue (foldl (queue_insert results) (queue st2) (src results)) st2 in
    Some (st3, updateLastAsSource (src results) now lastAsSource)
  else None.

(** Lines 998-1003: the candidates taken from the entries of [queueMap]
    that touch [keys]. *)
Definition combineFromRange (acc : RdSet * gmap UID RdSet) (e : KeyRange * RelocateData)
  : RdSet * gmap UID RdSet :=
  let '(combined, q) := acc in
  match src (snd e) with
  | first :: _ =>
      let '(s, q1) := queue_at q first in
      if rdset_count (snd e) s then (rdset_insert (snd e) combined, q1)
      else (combined, q1)
  | [] => (combined, q)
  end.

(** [launchQueuedWork(keys)] (lines 996-1005). *)
Definition launchQueuedWork_keys (k : Knobs) (newId : KeyRange -> UID)
    (st : DDQueueData) (keys : KeyRange) : option (DDQueueData * list Effect) :=
  let '(combined, q) :=
    foldl combineFromRange ([], queue st) (intersectingRanges (queueMap st) keys) in
  launchQueuedWork k newId (set_queue q st) combined.

(** ** The main loop of [dataDistributionQueue] (lines 2236-2373)

    The state of the loop is the queue [self] and the variables of the
    actor.  A turn of the loop launches what the last message left to
    launch, then handles one message.  [validate()] does nothing unless
    [EXPENSIVE_VALIDATION] is set and is embedded on its own below. *)

Record LoopState : Type := mkLoopState {
  self : DDQueueData;
  lastAsSource : gmap UID Z;
  (** [std::set<UID> serversToLaunchFrom], in ascending order *)
  serversToLaunchFrom : list UID;
  keysToLaunchFrom : KeyRange;
  launchData : RelocateData;
  (** [launchQueuedWorkTimeout] is [delay(0)] (true) or [Never()] (false) *)
  launchQueuedWorkTimeout : bool;
  (** the ranges the tags of line 2318 have not delivered yet *)
  rangesComplete : list KeyRange
}.

(** What the loop waits for in its [choose]. *)
Inductive LoopMessage : Type :=
(** [self.input] delivers [rs]; [now] and [rid] are the clock and the
    random identifier read when a [RelocateData] is built from it *)
| MInput (rs : RelocateShard) (now : Z) (rid : UID)
| MLaunchQueuedWorkTimeout
(** [fetchSourceServersComplete] delivers [results]; [now] is the clock
    read by [updateLastAsSource] *)
| MFetchSourceServersComplete (results : RelocateData) (now : Z)
| MDataTransferComplete (done : RelocateData)
(** [relocationComplete] delivers [done]; [durationTooLong] is the test of
    line 2319, made in simulation only *)
| MRelocationComplete (done : RelocateData) (durationTooLong : bool)
| MRangesComplete
| MRecordMetrics
| MGetUnhealthyRelocationCount.

(** Modelled from the spec: [keys.empty()], the range holds no key. *)
Definition KeyRange_empty (r : KeyRange) : bool := String.eqb (kr_begin r) (kr_end r).

(** Modelled from the spec: [rs.isRestore()], the request carries a
    persisted data move (section 6.4). *)
Definition RelocateShard_isRestore (rs : RelocateShard) : bool :=
  match rs_dataMove rs with Some _ => true | None => false end.

Definition initialLoopState (k : Knobs) (teamSize singleRegionTeamSize : Z) : LoopState :=
  mkLoopState (DDQueueData_new k teamSize singleRegionTeamSize) ∅ []
    (mkKeyRange "" "") (RelocateData_default k) false [].

(** Lines 2266-2275: the launch left by the last message, and the
    assertion that nothing is left to launch. *)
Definition loop_launch (k : Knobs) (newId : KeyRange -> UID) (s : LoopState)
  : option (LoopState * list LoopEffect) :=
  let launched : option (LoopState * list LoopEffect) :=
    if negb (startTime (launchData s) =? -1) then
      match launchQueuedWork_one k newId (self s) (launchData s) with
      | Some (st, eff) =>
          Some (mkLoopState st (lastAsSource s) (serversToLaunchFrom s)
                  (keysToLaunchFrom s) (RelocateData_default k)
                  (launchQueuedWorkTimeout s) (rangesComplete s), LQueue <$> eff)
      | None => None
      end
    else if negb (KeyRange_empty (keysToLaunchFrom s)) then
      match launchQueuedWork_keys k newId (self s) (keysToLaunchFrom s) with
      | Some (st, eff) =>
          Some (mkLoopState st (lastAsSource s) (serversToLaunchFrom s)
                  (mkKeyRange "" "") (launchData s)
                  (launchQueuedWorkTimeout s) (rangesComplete s), LQueue <$> eff)
      | None => None
      end
    else Some (s, []) in
  match launched with
  | Some (s1, eff) =>
      if (startTime (launchData s1) =? -1) && KeyRange_empty (keysToLaunchFrom s1)
      then Some (s1, eff) else None
  | None => None
  end.

(** The priorities whose counters the event [MovingData] reads with
    [priority_relocations[...]] (lines 2341-2365). *)
Definition movingDataPriorities (k : Knobs) : list Z :=
  [PRIORITY_RECOVER_MOVE k; PRIORITY_REBALANCE_UNDERUTILIZED_TEAM k;
   PRIORITY_REBALANCE_OVERUTILIZED_TEAM k; PRIORITY_REBALANCE_READ_UNDERUTIL_TEAM k;
   PRIORITY_REBALANCE_READ_OVERUTIL_TEAM k; PRIORITY_PERPETUAL_STORAGE_WIGGLE k;
   PRIORITY_TEAM_HEALTHY k; PRIORITY_TEAM_CONTAINS_UNDESIRED_SERVER k;
   PRIORITY_TEAM_REDUNDANT k; PRIORITY_MERGE_SHARD k; PRIORITY_POPULATE_REGION k;
   PRIORITY_TEAM_UNHEALTHY k; PRIORITY_TEAM_2_LEFT k; PRIORITY_TEAM_1_LEFT k;
   PRIORITY_TEAM_0_LEFT k; PRIORITY_SPLIT_SHARD k].

(** The [when] clauses of the [choose] (lines 2278-2372). *)
Definition loop_handle (k : Knobs) (newId : KeyRange -> UID) (s : LoopState)
    (msg : LoopMessage) : option (LoopState * list LoopEffect) :=
  match msg with
  | MInput rs now rid =>
      if RelocateShard_isRestore rs then
        if UID_isValid (rs_dataMoveId rs) then
          '(st, eff) ← launchQueuedWork_one k newId (self s) (RelocateData_of k rs now rid);
          Some (mkLoopState st (lastAsSource s) (serversToLaunchFrom s)
                  (keysToLaunchFrom s) (launchData s)
                  (launchQueuedWorkTimeout s) (rangesComplete s), fmap (M := list) LQueue eff)
        else None
      else if rs_cancelled rs then
        let '(st, eff) := enqueueCancelledDataMove (rs_dataMoveId rs) (rs_keys rs) (self s) in
        Some (mkLoopState st (lastAsSource s) (serversToLaunchFrom s)
                (keysToLaunchFrom s) (launchData s)
                (launchQueuedWorkTimeout s) (rangesComplete s), fmap (M := list) LQueue eff)
      else
        let wasEmpty := bool_decide (serversToLaunchFrom s = []) in
        '(st, servers, eff) ← queueRelocation k rs now rid (self s) (serversToLaunchFrom s);
        Some (mkLoopState st (lastAsSource s) servers
                (keysToLaunchFrom s) (launchData s)
                (if wasEmpty && negb (bool_decide (servers = [])) then true
                 else launchQueuedWorkTimeout s)
                (rangesComplete s), eff)
  | MLaunchQueuedWorkTimeout =>
      if launchQueuedWorkTimeout s then
        '(st, eff) ← launchQueuedWork_servers k newId (self s) (serversToLaunchFrom s);
        Some (mkLoopState st (lastAsSource s) []
                (keysToLaunchFrom s) (launchData s) false (rangesComplete s),
              fmap (M := list) LQueue eff)
      else None
  | MFetchSourceServersComplete results now =>
      '(st, las) ← completeSourceFetch results now (self s) (lastAsSource s);
      Some (mkLoopState st las (serversToLaunchFrom s)
              (keysToLaunchFrom s) results
              (launchQueuedWorkTimeout s) (rangesComplete s), [])
  | MDataTransferComplete done =>
      '(bm, d) ← complete k done (busymap (self s)) (destBusymap (self s));
      Some (mkLoopState (set_destBusymap d (set_busymap bm (self s))) (lastAsSource s)
              (foldr uidset_insert (serversToLaunchFrom s) (src done))
              (keysToLaunchFrom s) (launchData s)
              (if bool_decide (serversToLaunchFrom s = []) &&
                  negb (bool_decide (src done = []))
               then true else launchQueuedWorkTimeout s)
              (rangesComplete s), [])
  | MRelocationComplete done durationTooLong =>
      let st1 := set_activeRelocations (activeRelocations (self s) - 1) (self s) in
      st2 ← finishRelocation k (priority done) (healthPriority done) st1;
      let st3 := set_fetchKeysComplete (rdset_erase done (fetchKeysComplete st2)) st2 in
      Some (mkLoopState st3 (lastAsSource s) (serversToLaunchFrom s)
              (keysToLaunchFrom s) (launchData s)
              (launchQueuedWorkTimeout s) (rangesComplete s ++ [keys done]),
            [LQueue (ETrace SevVerbose "InFlightRelocationChange");
             LTagRangeComplete (keys done)] ++
            (if durationTooLong
             then [LQueue (ETrace SevWarnAlways "RelocationDurationTooLong")] else []))
  | MRangesComplete =>
      match rangesComplete s with
      | done :: rest =>
          Some (mkLoopState (self s) (lastAsSource s) (serversToLaunchFrom s)
                  done (launchData s) (launchQueuedWorkTimeout s) rest, [])
      | [] => None
      end
  | MRecordMetrics =>
      let highest := getHighestPriorityRelocation (self s) in
      let c := foldl (fun c p => (counter_at c p).2)
                 (priority_relocations (self s)) (movingDataPriorities k) in
      Some (mkLoopState (set_priority_relocations c (self s)) (lastAsSource s)
              (serversToLaunchFrom s) (keysToLaunchFrom s) (launchData s)
              (launchQueuedWorkTimeout s) (rangesComplete s),
            [LQueue EGetAverageShardBytes;
             LMovingData (activeRelocations (self s)) (queuedRelocations (self s))
               (unhealthyRelocations (self s)) highest])
  | MGetUnhealthyRelocationCount =>
      Some (s, [LReplyUnhealthyRelocations (unhealthyRelocations (self s))])
  end.

(** One turn of the loop. *)
Definition loop_turn (k : Knobs) (newId : KeyRange -> UID)
    (acc : LoopState * list LoopEffect) (msg : LoopMessage)
  : option (LoopState * list LoopEffect) :=
  let '(s, eff) := acc in
  '(s1, eff1) ← loop_launch k newId s;
  '(s2, eff2) ← loop_handle k newId s1 msg;
  Some (s2, eff ++ eff1 ++ eff2).

(** The loop over the messages it receives, from the state the actor
    starts in. *)
Definition loop_run (k : Knobs) (newId : KeyRange -> UID)
    (teamSize singleRegionTeamSize : Z) (msgs : list LoopMessage)
  : option (LoopState * list LoopEffect) :=
  foldM_opt (loop_turn k newId)
    (initialLoopState k teamSize singleRegionTeamSize, []) msgs.

(** ** Invariants of the counters *)

(** The counters are consistent: the sum of [priority_relocations] is the
    number of relocations queued or in flight, and
    [rawProcessingUnhealthy] is set exactly while [unhealthyRelocations]
    is positive. *)
Definition counters_ok (st : DDQueueData) : Prop :=
  counters_agree st /\ unhealthy_flag_ok st.

(** The variables of the loop are consistent: a launch is pending exactly
    while [serversToLaunchFrom] is not empty, and [launchData] and
    [keysToLaunchFrom] are not both set. *)
Definition loop_vars_ok (s : LoopState) : Prop :=
  launchQueuedWorkTimeout s = negb (bool_decide (serversToLaunchFrom s = [])) /\
  (startTime (launchData s) = -1 \/ KeyRange_empty (keysToLaunchFrom s) = true).

(** A run of the loop, scenario S1 of the specification: the rebalance
    [R1] of [[k1, k5)] is queued, gets its sources and is launched; the
    repair [R2] of the same range is queued, gets its sources and is
    launched in its place; the relocator of [R1], cancelled, reports its
    end. *)
Definition rs_S1_R1 : RelocateShard :=
  mkRelocateShard (mkKeyRange "k1" "k5") 120 false None (666666%N, 88888888%N)
    RR_REBALANCE_DISK DMR_REBALANCE_UNDERUTILIZED_TEAM.

Definition rs_S1_R2 : RelocateShard :=
  mkRelocateShard (mkKeyRange "k1" "k5") 700 false None (666666%N, 88888888%N)
    RR_OTHER DMR_TEAM_UNHEALTHY.

Definition rd_S1_R1 : RelocateData :=
  mkRelocateData (mkKeyRange "k1" "k5") 120 (-1) (-1) RR_REBALANCE_DISK 10 (1%N, 1%N)
    (666666%N, 88888888%N) 0 [serverA; serverB; serverC] [serverA] [] true true None.

Definition rd_S1_R2 : RelocateData :=
  mkRelocateData (mkKeyRange "k1" "k5") 700 (-1) 700 RR_OTHER 20 (2%N, 2%N)
    (666666%N, 88888888%N) 0 [serverA; serverB; serverC] [serverA] [] false true None.

Definition newId_S1 (r : KeyRange) : UID := (5%N, 5%N).

Definition messages_S1 : list LoopMessage :=
  [MInput rs_S1_R1 10 (1%N, 1%N);
   MFetchSourceServersComplete rd_S1_R1 11;
   MInput rs_S1_R2 20 (2%N, 2%N);
   MFetchSourceServersComplete rd_S1_R2 21;
   MDataTransferComplete (set_workFactor 3333 rd_S1_R1);
   MRelocationComplete (set_workFactor 3333 rd_S1_R1) false;
   MLaunchQueuedWorkTimeout;
   MRangesComplete;
   MRecordMetrics].

(** A queue in which [R1] of scenario S1 waits for its sources, and the
    reply that brings them. *)
Definition queue_fetching_R1 : DDQueueData :=
  mkDDQueueData 0 1 3 3 ∅ ∅
    (krm_insert (mkKeyRange "k1" "k5") (set_keys (mkKeyRange "k1" "k5") rd_R1)
       [(allKeys, RelocateData_default sample_knobs)])
    [set_keys (mkKeyRange "k1" "k5") rd_R1] [] ∅
    [(allKeys, RelocateData_default sample_knobs)] [(allKeys, false)]
    [(allKeys, DDDataMove_default)] false false {[ 140 := 1 ]} 0.

Definition results_R1 : RelocateData :=
  mkRelocateData (mkKeyRange "k1" "k5") 140 (-1) 140 RR_OTHER 3 (4%N, 0%N)
    (666666%N, 88888888%N) 0 [serverA; serverB] [serverA] [] false true None.

(** The queue once the reply has come: [R1] waits in the queues of its
    sources A and B. *)
Definition queue_queued_R1 : DDQueueData :=
  set_queue {[ serverA := [results_R1]; serverB := [results_R1] ]}
    (set_fetchingSourcesQueue [] queue_fetching_R1).

(** ** [validate()] (lines 664-806)

    With [EXPENSIVE_VALIDATION] set.  The function traces an error for
    each broken rule, creates the queues it looks up with [queue[...]], and
    fails when one of its two assertions does.  The events of a loop over a
    [std::map] come in the order of the keys; the embedding gives them in
    the order in which [map_to_list] lists the entries. *)

Definition validateError (problem : string) : Effect := ETrace SevError problem.

(** Lines 666-682, for one relocation of [fetchingSourcesQueue]. *)
Definition validate_fetching (st : DDQueueData) (it : RelocateData)
  : option (list Effect) :=
  range ← rangeContaining (queueMap st) (kr_begin (keys it));
  Some ((if negb (Z.of_nat (length (src it)) =? 0)
         then [validateError "DDQueueValidateError1"] else []) ++
        (if negb (workFactor it =? 0)
         then [validateError "DDQueueValidateError2"] else []) ++
        (if negb (rd_eq range.2 it) || negb (bool_decide (range.1 = keys it))
         then [validateError "DDQueueValidateError3"] else [])).

(** Lines 726-736, for one source of a relocation in flight. *)
Definition validate_inFlight_src (st : DDQueueData) (value : RelocateData)
    (acc : gmap UID RdSet * list Effect) (id : UID) : gmap UID RdSet * list Effect :=
  let '(q, eff) := acc in
  let '(s, q1) := queue_at q id in
  (q1,
   eff ++
   (if negb (bool_decide (is_Some (busymap st !! id)))
    then [validateError "DDQueueValidateError8"] else []) ++
   (if rdset_count value s then [validateError "DDQueueValidateError9"] else [])).

(** Lines 725-762, for one entry of [inFlight]. *)
Definition validate_inFlight (st : DDQueueData)
    (acc : gmap UID RdSet * list Effect) (it : KeyRange * RelocateData)
  : gmap UID RdSet * list Effect :=
  let '(q1, eff1) := foldl (validate_inFlight_src st it.2) acc (src it.2) in
  (q1,
   eff1 ++
   flat_map (fun id => if negb (bool_decide (is_Some (destBusymap st !! id)))
                       then [validateError "DDQueueValidateError10"] else [])
     (completeDests it.2) ++
   (if negb (startTime it.2 =? -1) && (Z.of_nat (length (src it.2)) =? 0)
    then [validateError "DDQueueValidateError11"] else []) ++
   (if liveActorAt (inFlightActors st) (kr_begin it.1) then
      if negb (bool_decide (keys it.2 = it.1))
      then [validateError "DDQueueValidateError12"] else []
    else if cancellable it.2
    then [validateError "DDQueueValidateError13"] else [])).

(** Lines 765-777 and 781-793, for one ledger: the buckets but the last
    are compared with the next one and with zero.  A ledger has its ten
    buckets, so that [ledger.size() - 1] is nine. *)
Definition validate_ledger (ascending negative : string) (b : Busyness) : list Effect :=
  flat_map (fun i : nat =>
              match ledger b !! i, ledger b !! S i with
              | Some x, Some y =>
                  (if x <? y then [validateError ascending] else []) ++
                  (if x <? 0 then [validateError negative] else [])
              | _, _ => []
              end)
    (seq 0 (length (ledger b) - 1)).

(** Lines 764-778 and 780-794. *)
Definition validate_busymap (ascending negative : string) (m : Busymap) : list Effect :=
  flat_map (fun e : UID * Busyness => validate_ledger ascending negative e.2)
    (map_to_list m).

(** Lines 796-798: the relocations of all the queues, in one set. *)
Definition queuedRelocationsMatch (q : gmap UID RdSet) : RdSet :=
  foldl (fun m e => foldl (fun c rd => rdset_insert rd c) m e.2) []
    (map_to_list q).

Definition validate (st : DDQueueData) : option (DDQueueData * list Effect) :=
  eff1 ← foldM_opt (fun eff it => e ← validate_fetching st it; Some (eff ++ e))
           [] (fetchingSourcesQueue st);
  let '(q, eff2) := foldl (validate_inFlight st) (queue st, eff1) (inFlight st) in
  let eff3 :=
    eff2 ++
    validate_busymap "DDQueueValidateError14" "DDQueueValidateError15" (busymap st) ++
    validate_busymap "DDQueueValidateError16" "DDQueueValidateError17"
      (destBusymap st) in
  if (queuedRelocations st
      =? Z.of_nat (length (queuedRelocationsMatch q))
         + Z.of_nat (length (fetchingSourcesQueue st))) &&
     (activeRelocations st + queuedRelocations st
      =? testActive (priority_relocations st))
  then Some (set_queue q st, eff3) else None.

(** ** [getWorstCpu] (lines 1717-1729)

    [cpuUsage] is a [double] that the function only compares.  A finite
    [double] is a whole number of units of [2^-1074], so the usages are
    integers in some unit, and [hundred] is [100.0] in that unit.
    [storageStats] maps a server to the [cpuUsage] of its entry. *)

Fixpoint getWorstCpu_loop (hundred : Z) (storageStats : gmap UID Z) (ids : list UID)
    (cpu : Z) : Z :=
  match ids with
  | [] => cpu
  | id :: rest =>
      match storageStats !! id with
      | Some cpuUsage => getWorstCpu_loop hundred storageStats rest (Z.max cpu cpuUsage)
      | None => Z.max cpu hundred
      end
  end.

Definition getWorstCpu (hundred : Z) (storageStats : gmap UID Z) (ids : list UID) : Z :=
  getWorstCpu_loop hundred storageStats ids 0.

(** ** The destinations of a relocation (lines 1460-1505 and 1562-1566)

    What the relocator computes from the teams it has chosen, the first
    time it reaches line 1460: its vectors are empty then. *)

(** What the relocator reads of [bestTeams[i]]: [first->getServerIDs()],
    [first->isHealthy()] and [second]. *)
Record BestTeam : Type := mkBestTeam {
  bt_serverIDs : list UID;
  bt_isHealthy : bool;
  bt_hasSource : bool
}.

Record Destinations : Type := mkDestinations {
  destIds : list UID;
  healthyIds : list UID;
  extraIds : list UID;
  (** the teams added to [healthyDestinations] *)
  healthyDestinations : list BestTeam;
  (** [ShardsAffectedByTeamFailure::Team(serverIds, i == 0)] *)
  destinationTeams : list (list UID * bool)
}.

Definition Destinations_empty : Destinations := mkDestinations [] [] [] [] [].

(** The loop of lines 1465-1493 from team [i] on.  [randomInt i] is the
    number [randomInt(0, serverIds.size())] draws for team [i]; a draw
    outside of the vector, which an empty team forces, is a failure. *)
Fixpoint chooseDestinations (allHealthy anyWithSource : bool) (randomInt : nat -> nat)
    (i : nat) (bestTeams : list BestTeam) (d : Destinations) : option Destinations :=
  match bestTeams with
  | [] => Some d
  | team :: rest =>
      let serverIds := bt_serverIDs team in
      let teams := destinationTeams d ++ [(serverIds, bool_decide (i = 0%nat))] in
      if allHealthy && anyWithSource && negb (bt_hasSource team) then
        let idx := randomInt i in
        id ← serverIds !! idx;
        chooseDestinations allHealthy anyWithSource randomInt (S i) rest
          (mkDestinations (destIds d ++ [id]) (healthyIds d ++ [id])
             (extraIds d ++ delete idx serverIds)
             (healthyDestinations d ++ [team]) teams)
      else
        chooseDestinations allHealthy anyWithSource randomInt (S i) rest
          (if bt_isHealthy team
           then mkDestinations (destIds d ++ serverIds) (healthyIds d ++ serverIds)
                  (extraIds d) (healthyDestinations d ++ [team]) teams
           else mkDestinations (destIds d ++ serverIds) (healthyIds d)
                  (extraIds d) (healthyDestinations d) teams)
  end.

(** Lines 1496-1499. *)
Definition totalIds (d : Destinations) : Z :=
  foldl (fun n destTeam => n + Z.of_nat (length destTeam.1)) 0 (destinationTeams d).

(** Lines 1500-1505. *)
Definition checkDestTeamSize (teamSize : Z) (d : Destinations) : list Effect :=
  if negb (totalIds d =? teamSize)
  then [ETrace SevWarn "IncorrectDestTeamSize"] else [].

(** Lines 1562-1566: when the first [moveKeys] is done and servers were
    left out of it, they join the destinations for a second [moveKeys],
    after [ASSERT(totalIds == destIds.size())]. *)
Definition addExtraIds (d : Destinations) : option Destinations :=
  match extraIds d with
  | [] => Some d
  | _ :: _ =>
      let d' := mkDestinations (destIds d ++ extraIds d) (healthyIds d ++ extraIds d) []
                  (healthyDestinations d) (destinationTeams d) in
      if totalIds d =? Z.of_nat (length (destIds d')) then Some d' else None
  end.

(** Scenario S5 of the specification: the team of the primary holds a
    source, the team of the remote region does not, and both are healthy. *)
Definition serverE : UID := (1%N, 5%N).
Definition serverF : UID := (1%N, 6%N).

Definition bestTeams_S5 : list BestTeam :=
  [mkBestTeam [serverA; serverB; serverC] true true;
   mkBestTeam [serverD; serverE; serverF] true false].

(** ** [ParallelTCInfo] (lines 198-378)

    A [ParallelTCInfo] holds references to teams.  The teams live in a
    heap, a reference is an address of the heap, and calling a member
    through a reference that points to no team is a failure.  The members
    that return a [double] or a future are left out. *)

(** [IDataDistributionTeam] is declared in
    fdbserver/DataDistribution.actor.h, which is not among the sources; the
    class has the members that [ParallelTCInfo] calls on its teams.  The
    ratio and the penalty are [double]s that are only passed on, so the
    type of the [double]s is left to the team. *)
Class IDataDistributionTeam (T : Type) : Type := {
  team_double : Type;
  team_size : T -> Z;
  team_getServerIDs : T -> list UID;
  team_addDataInFlightToTeam : Z -> T -> T;
  team_getDataInFlightToTeam : T -> Z;
  team_getLoadBytes : bool -> team_double -> T -> Z;
  team_getMinAvailableSpace : bool -> T -> Z;
  team_hasHealthyAvailableSpace : team_double -> T -> bool;
  team_isOptimal : T -> bool;
  team_isWrongConfiguration : T -> bool;
  team_setWrongConfiguration : bool -> T -> T;
  team_isHealthy : T -> bool;
  team_setHealthy : bool -> T -> T;
  team_getPriority : T -> Z;
  team_setPriority : Z -> T -> T;
  team_addServers : list UID -> T -> T;
  team_getTeamID : T -> string
}.

Definition INT64_MAX : Z := 9223372036854775807.

Section ParallelTCInfo.
Context {T : Type} `{IDataDistributionTeam T}.

(** The heap of the teams, and the vector [teams] of a [ParallelTCInfo]. *)
Definition ParallelTCInfo : Type := list nat.

(** [sum(func)] (lines 202-208). *)
Definition ptc_sum (func : T -> Z) (heap : gmap nat T) (teams : ParallelTCInfo)
  : option Z :=
  foldM_opt (fun result r => team ← heap !! r; Some (result + func team)) 0 teams.

(** [collect(func)] (lines 210-219). *)
Definition ptc_collect {A : Type} (func : T -> list A) (heap : gmap nat T)
    (teams : ParallelTCInfo) : option (list A) :=
  foldM_opt (fun result r => team ← heap !! r; Some (result ++ func team)) [] teams.

(** [any(func)] (lines 221-228): the loop returns at the first team for
    which [func] holds. *)
Fixpoint ptc_any (func : T -> bool) (heap : gmap nat T) (teams : ParallelTCInfo)
  : option bool :=
  match teams with
  | [] => Some false
  | r :: rest =>
      team ← heap !! r;
      if func team then Some true else ptc_any func heap rest
  end.

(** [all(func)] (lines 238-240). *)
Definition ptc_all (func : T -> bool) (heap : gmap nat T) (teams : ParallelTCInfo)
  : option bool :=
  negb <$> ptc_any (fun team => negb (func team)) heap teams.

(** A member called on every team in turn (lines 265-269, 333-337,
    343-347 and 357-361). *)
Definition ptc_forEach (f : T -> T) (heap : gmap nat T) (teams : ParallelTCInfo)
  : option (gmap nat T) :=
  foldM_opt (fun h r => team ← h !! r; Some (<[r := f team]> h)) heap teams.

Definition ptc_addTeam (team : nat) (teams : ParallelTCInfo) : ParallelTCInfo :=
  teams ++ [team].

Definition ptc_clear (teams : ParallelTCInfo) : ParallelTCInfo := [].

Definition ptc_size : gmap nat T -> ParallelTCInfo -> option Z := ptc_sum team_size.

Definition ptc_getServerIDs : gmap nat T -> ParallelTCInfo -> option (list UID) :=
  ptc_collect team_getServerIDs.

Definition ptc_addDataInFlightToTeam (delta : Z)
  : gmap nat T -> ParallelTCInfo -> option (gmap nat T) :=
  ptc_forEach (team_addDataInFlightToTeam delta).

Definition ptc_getDataInFlightToTeam : gmap nat T -> ParallelTCInfo -> option Z :=
  ptc_sum team_getDataInFlightToTeam.

Definition ptc_getLoadBytes (includeInFlight : bool) (inflightPenalty : team_double)
  : gmap nat T -> ParallelTCInfo -> option Z :=
  ptc_sum (team_getLoadBytes includeInFlight inflightPenalty).

Definition ptc_getMinAvailableSpace (includeInFlight : bool) (heap : gmap nat T)
    (teams : ParallelTCInfo) : option Z :=
  foldM_opt (fun result r =>
               team ← heap !! r;
               Some (Z.min result (team_getMinAvailableSpace includeInFlight team)))
    INT64_MAX teams.

Definition ptc_hasHealthyAvailableSpace (minRatio : team_double)
  : gmap nat T -> ParallelTCInfo -> option bool :=
  ptc_all (team_hasHealthyAvailableSpace minRatio).

Definition ptc_isOptimal : gmap nat T -> ParallelTCInfo -> option bool :=
  ptc_all team_isOptimal.

Definition ptc_isWrongConfiguration : gmap nat T -> ParallelTCInfo -> option bool :=
  ptc_any team_isWrongConfiguration.

Definition ptc_setWrongConfiguration (wrongConfiguration : bool)
  : gmap nat T -> ParallelTCInfo -> option (gmap nat T) :=
  ptc_forEach (team_setWrongConfiguration wrongConfiguration).

Definition ptc_isHealthy : gmap nat T -> ParallelTCInfo -> option bool :=
  ptc_all team_isHealthy.

Definition ptc_setHealthy (h : bool)
  : gmap nat T -> ParallelTCInfo -> option (gmap nat T) :=
  ptc_forEach (team_setHealthy h).

Definition ptc_getPriority (heap : gmap nat T) (teams : ParallelTCInfo) : option Z :=
  foldM_opt (fun priority r =>
               team ← heap !! r; Some (Z.max priority (team_getPriority team)))
    0 teams.

Definition ptc_setPriority (p : Z)
  : gmap nat T -> ParallelTCInfo -> option (gmap nat T) :=
  ptc_forEach (team_setPriority p).

(** [addServers] (lines 365-368): [ASSERT(!teams.empty())], then the
    servers go to the first team. *)
Definition ptc_addServers (servers : list UID) (heap : gmap nat T)
    (teams : ParallelTCInfo) : option (gmap nat T) :=
  match teams with
  | [] => None
  | r :: _ => team ← heap !! r; Some (<[r := team_addServers servers team]> heap)
  end.

(** [s.c_str()] read by a [%s]: the characters before the first zero. *)
Fixpoint c_str (s : string) : string :=
  match s with
  | EmptyString => EmptyString
  | String c rest =>
      if Ascii.eqb c Ascii.zero then EmptyString else String c (c_str rest)
  end.

(** [getTeamID] (lines 370-377): the identifier of the last team is
    appended as it is, that of every other team through
    [format("%s, ", id.c_str())]. *)
Fixpoint ptc_getTeamID_loop (heap : gmap nat T) (teams : ParallelTCInfo) (id : string)
  : option string :=
  match teams with
  | [] => Some id
  | r :: rest =>
      team ← heap !! r;
      ptc_getTeamID_loop heap rest
        (id ++ (match rest with
                | [] => team_getTeamID team
                | _ :: _ => c_str (team_getTeamID team) ++ ", "
                end))%string
  end.

Definition ptc_getTeamID (heap : gmap nat T) (teams : ParallelTCInfo) : option string :=
  ptc_getTeamID_loop heap teams "".

(** The teams the references of [teams] point to, when they all point
    to one. *)
Definition ptc_teams (heap : gmap nat T) (teams : ParallelTCInfo) : option (list T) :=
  mapM (fun r => heap !! r) teams.
End ParallelTCInfo.

(** A team for the examples: a record with a field for each answer; its
    ratios are whole numbers. *)
Record SampleTeam : Type := mkSampleTeam {
  st_serverIDs : list UID;
  st_dataInFlight : Z;
  st_loadBytes : Z;
  st_minAvailableSpace : Z;
  st_optimal : bool;
  st_wrongConfiguration : bool;
  st_healthy : bool;
  st_priority : Z;
  st_teamID : string
}.

#[global] Instance SampleTeam_team : IDataDistributionTeam SampleTeam := {
  team_double := Z;
  team_size t := Z.of_nat (length (st_serverIDs t));
  team_getServerIDs := st_serverIDs;
  team_addDataInFlightToTeam delta t :=
    mkSampleTeam (st_serverIDs t) (st_dataInFlight t + delta) (st_loadBytes t)
      (st_minAvailableSpace t) (st_optimal t) (st_wrongConfiguration t)
      (st_healthy t) (st_priority t) (st_teamID t);
  team_getDataInFlightToTeam := st_dataInFlight;
  team_getLoadBytes includeInFlight _ t :=
    if includeInFlight then st_loadBytes t + st_dataInFlight t else st_loadBytes t;
  team_getMinAvailableSpace _ := st_minAvailableSpace;
  team_hasHealthyAvailableSpace minRatio t := minRatio <=? st_minAvailableSpace t;
  team_isOptimal := st_optimal;
  team_isWrongConfiguration := st_wrongConfiguration;
  team_setWrongConfiguration w t :=
    mkSampleTeam (st_serverIDs t) (st_dataInFlight t) (st_loadBytes t)
      (st_minAvailableSpace t) (st_optimal t) w (st_healthy t) (st_priority t)
      (st_teamID t);
  team_isHealthy := st_healthy;
  team_setHealthy h t :=
    mkSampleTeam (st_serverIDs t) (st_dataInFlight t) (st_loadBytes t)
      (st_minAvailableSpace t) (st_optimal t) (st_wrongConfiguration t) h
      (st_priority t) (st_teamID t);
  team_getPriority := st_priority;
  team_setPriority p t :=
    mkSampleTeam (st_serverIDs t) (st_dataInFlight t) (st_loadBytes t)
      (st_minAvailableSpace t) (st_optimal t) (st_wrongConfiguration t)
      (st_healthy t) p (st_teamID t);
  team_addServers servers t :=
    mkSampleTeam (st_serverIDs t ++ servers) (st_dataInFlight t) (st_loadBytes t)
      (st_minAvailableSpace t) (st_optimal t) (st_wrongConfiguration t)
      (st_healthy t) (st_priority t) (st_teamID t);
  team_getTeamID := st_teamID
}.

(** Two teams in the heap, and the composite team that refers to both. *)
Definition sample_heap : gmap nat SampleTeam :=
  {[ 0%nat := mkSampleTeam [serverA; serverB; serverC] 100 5000 70 true false true 140
               "ab12";
     1%nat := mkSampleTeam [serverD; serverE; serverF] 0 3000 90 true false false (-1)
               "cd34" ]}.

Definition sample_parallel : list nat := [0%nat; 1%nat].

(** * Part II: properties of the embedding *)

(** ** Busyness: closed form of [addWork] *)

Lemma prio_ok_spec prio : prio_ok prio = true <-> 0 < prio < 1000.
Proof. unfold prio_ok. rewrite andb_true_iff, !Z.ltb_lt. tauto. Qed.

Lemma prio_bucket_range prio : 0 < prio < 1000 -> 0 <= prio ÷ 100 <= 9.
Proof.
  intros H. rewrite Z.quot_div_nonneg by lia. split.
  - apply Z.div_pos; lia.
  - assert (prio / 100 < 10) by (apply Z.div_lt_upper_bound; lia). lia.
Qed.

Lemma length_ledger_shift prio work l :
  length (ledger_shift prio work l) = length l.
Proof. unfold ledger_shift. by rewrite length_imap. Qed.

Lemma lookup_ledger_shift prio work l i :
  ledger_shift prio work l !! i =
  (fun x => if Z.of_nat i <=? prio ÷ 100 then x + work else x) <$> l !! i.
Proof. unfold ledger_shift. by rewrite list_lookup_imap. Qed.

(** Running the loop over the first [n] buckets adds [work] to exactly
    those buckets. *)
Lemma foldM_opt_app {A B : Type} (f : A -> B -> option A) a xs ys :
  foldM_opt f a (xs ++ ys) = a' ← foldM_opt f a xs; foldM_opt f a' ys.
Proof.
  revert a. induction xs as [|x xs IH]; intros a; simpl; [done|].
  destruct (f a x); simpl; [apply IH|done].
Qed.

Lemma addWork_loop_prefix work l (n : nat) :
  (n <= length l)%nat ->
  foldM_opt (ledger_add work) l (Z.of_nat <$> seq 0 n) =
  Some (imap (fun i x => if Z.of_nat i <? Z.of_nat n then x + work else x) l).
Proof.
  induction n as [|n IH]; intros Hn.
  - simpl. f_equal. apply list_eq. intros i. rewrite list_lookup_imap.
    destruct (l !! i) eqn:E; simpl; [|done].
    by zcmp.
  - rewrite seq_S, fmap_app, foldM_opt_app, IH by lia. simpl.
    unfold ledger_add, ledger_get.
    destruct (Z.leb_spec 0 (Z.of_nat n)); [|lia].
    rewrite Nat2Z.id, list_lookup_imap.
    destruct (lookup_lt_is_Some_2 l n) as [x Hx]; [lia|].
    rewrite Hx. simpl. rewrite Z.ltb_irrefl. f_equal.
    apply list_eq. intros i.
    destruct (decide (i = n)) as [->|Hne].
    + rewrite list_lookup_insert_eq by (rewrite length_imap; lia).
      rewrite list_lookup_imap, Hx. simpl.
      by zcmp.
    + rewrite list_lookup_insert_ne by done.
      rewrite !list_lookup_imap. destruct (l !! i); simpl; [|done].
      f_equal. by zcmp.
Qed.

Lemma addWork_closed b prio work :
  Busyness_wf b -> 0 < prio < 1000 ->
  addWork b prio work = Some (mkBusyness (ledger_shift prio work (ledger b))).
Proof.
  intros Hwf Hp. unfold addWork, addWork_indices.
  rewrite (proj2 (prio_ok_spec prio) Hp).
  pose proof (prio_bucket_range prio Hp) as Hr.
  rewrite addWork_loop_prefix by (rewrite Hwf; lia).
  simpl. do 2 f_equal. unfold ledger_shift.
  apply list_eq. intros i. rewrite !list_lookup_imap.
  destruct (ledger b !! i); simpl; [|done]. f_equal. by zcmp.
Qed.

Lemma canLaunch_closed b prio work :
  Busyness_wf b -> 0 < prio < 1000 ->
  exists x, ledger b !! Z.to_nat (prio ÷ 100) = Some x /\
            canLaunch b prio work = Some (x <=? WORK_FULL_UTILIZATION - work).
Proof.
  intros Hwf Hp. pose proof (prio_bucket_range prio Hp) as Hr.
  unfold canLaunch. rewrite (proj2 (prio_ok_spec prio) Hp).
  unfold ledger_get, canLaunch_index.
  destruct (0 <=? prio ÷ 100) eqn:E; [|apply Z.leb_gt in E; lia].
  destruct (lookup_lt_is_Some_2 (ledger b) (Z.to_nat (prio ÷ 100))) as [x Hx].
  { rewrite Hwf. lia. }
  exists x. by rewrite Hx.
Qed.

(** ** Busymaps *)

Lemma Busyness_new_wf : Busyness_wf Busyness_new.
Proof. reflexivity. Qed.

Lemma busy_of_wf (m : Busymap) id : Busymap_wf m -> Busyness_wf (busy_of m id).
Proof.
  intros Hwf. unfold busy_of. destruct (m !! id) eqn:E; simpl.
  - by eapply Hwf.
  - apply Busyness_new_wf.
Qed.

Lemma busymap_at_spec (m : Busymap) id :
  exists m1, busymap_at m id = (busy_of m id, m1) /\
             (forall id', busy_of m1 id' = busy_of m id') /\
             (Busymap_wf m -> Busymap_wf m1).
Proof.
  unfold busymap_at, busy_of. destruct (m !! id) eqn:E; simpl.
  - exists m. by rewrite ?E.
  - exists (<[id := Busyness_new]> m). split; [done|]. split.
    + intros id'. destruct (decide (id = id')) as [->|Hne].
      * by rewrite lookup_insert_eq, E.
      * by rewrite lookup_insert_ne.
    + intros Hwf id' b. destruct (decide (id = id')) as [->|Hne].
      * rewrite lookup_insert_eq. intros [= <-]. apply Busyness_new_wf.
      * rewrite lookup_insert_ne by done. apply Hwf.
Qed.

Lemma sumZ_cons x l : sumZ (x :: l) = x + sumZ l.
Proof. reflexivity. Qed.

(** The loop over the cancellable relocations takes their work off the
    copy, bucket by bucket. *)
Lemma bind_Some {A B : Type} (f : A -> option B) x : Some x ≫= f = f x.
Proof. reflexivity. Qed.

Lemma foldM_opt_cons {A B : Type} (f : A -> B -> option A) a x l :
  foldM_opt f a (x :: l) = a' ← f a x; foldM_opt f a' l.
Proof. reflexivity. Qed.

Lemma removeCancelled_fold id cs : forall b,
  Busyness_wf b ->
  Forall (fun c => 0 < priority c < 1000) cs ->
  exists b', foldM_opt (removeCancelled id) b cs = Some b' /\
    Busyness_wf b' /\
    forall i : nat, ledger b' !! i =
      (fun x => x - sumZ (cancelledWork id (Z.of_nat i) <$> cs)) <$> ledger b !! i.
Proof.
  induction cs as [|c cs IH]; intros b Hwf Hcs.
  - exists b. split; [done|]. split; [done|]. intros i.
    rewrite fmap_nil. unfold sumZ. simpl.
    destruct (ledger b !! i); simpl; [f_equal; lia|done].
  - apply Forall_cons in Hcs as [Hc Hcs]. rewrite foldM_opt_cons.
    assert (Hstep : exists b1, removeCancelled id b c = Some b1 /\ Busyness_wf b1 /\
      forall i : nat, ledger b1 !! i =
        (fun x => x - cancelledWork id (Z.of_nat i) c) <$> ledger b !! i).
    { unfold removeCancelled, cancelledWork.
      destruct (bool_decide (id ∈ src c)) eqn:Hin.
      - unfold removeWork. rewrite addWork_closed by done.
        eexists. split; [done|]. split.
        + unfold Busyness_wf. simpl. by rewrite length_ledger_shift.
        + intros i. simpl. rewrite lookup_ledger_shift.
          destruct (ledger b !! i); simpl; [|done]. f_equal. zcmp.
      - exists b. split; [done|]. split; [done|]. intros i. simpl.
        destruct (ledger b !! i); simpl; [f_equal; lia|done]. }
    destruct Hstep as (b1 & -> & Hwf1 & Hl1). rewrite bind_Some.
    destruct (IH b1 Hwf1 Hcs) as (b' & Hb' & Hwf' & Hl).
    exists b'. split; [done|]. split; [done|]. intros i.
    rewrite Hl, Hl1, fmap_cons, sumZ_cons.
    destruct (ledger b !! i); simpl; [f_equal; lia|done].
Qed.

(** One source server: the test of line 458 is [admitsSrc]. *)
Lemma canLaunch_after_cancel (m : Busymap) cs prio work id :
  Busymap_wf m -> 0 < prio < 1000 ->
  Forall (fun c => 0 < priority c < 1000) cs ->
  exists b', foldM_opt (removeCancelled id) (busy_of m id) cs = Some b' /\
             canLaunch b' prio work = Some (admitsSrc m cs prio work id).
Proof.
  intros Hwf Hp Hcs.
  destruct (removeCancelled_fold id cs (busy_of m id)) as (b' & Hb' & Hwf' & Hl);
    [by apply busy_of_wf|done|].
  exists b'. split; [done|].
  destruct (canLaunch_closed b' prio work Hwf' Hp) as (x & Hx & ->).
  f_equal. unfold admitsSrc, reducedLevel.
  pose proof (prio_bucket_range prio Hp) as Hr.
  rewrite Hl in Hx.
  destruct (ledger (busy_of m id) !! Z.to_nat (prio ÷ 100)) as [y|] eqn:Hy;
    simpl in Hx; [|done].
  injection Hx as <-. simpl. rewrite Z2Nat.id by lia.
  unfold WORK_FULL_UTILIZATION. zcmp.
Qed.

Lemma admittingServers_cons m cs prio work id srcs :
  admittingServers m cs prio work (id :: srcs) =
  (if admitsSrc m cs prio work id then 1 else 0) + admittingServers m cs prio work srcs.
Proof.
  unfold admittingServers. simpl List.filter.
  destruct (admitsSrc m cs prio work id); simpl length; lia.
Qed.

Lemma admittingServers_ext m m' cs prio work srcs :
  (forall id, busy_of m' id = busy_of m id) ->
  admittingServers m' cs prio work srcs = admittingServers m cs prio work srcs.
Proof.
  intros Hext. unfold admittingServers. do 2 f_equal.
  apply List.filter_ext. intros id.
  unfold admitsSrc, reducedLevel. by rewrite Hext.
Qed.

Lemma admittingServers_nonneg m cs prio work srcs :
  0 <= admittingServers m cs prio work srcs.
Proof. unfold admittingServers. lia. Qed.

(** The counting loop returns [true] exactly when enough servers admit. *)
Lemma canLaunchSrc_loop_spec prio work cs :
  0 < prio < 1000 ->
  Forall (fun c => 0 < priority c < 1000) cs ->
  forall srcs needed (m : Busymap),
    1 <= needed -> Busymap_wf m ->
    exists m', canLaunchSrc_loop prio work cs srcs needed m =
               Some (bool_decide (needed <= admittingServers m cs prio work srcs), m').
Proof.
  intros Hp Hcs. induction srcs as [|id srcs IH]; intros needed m Hn Hwf.
  - exists m. simpl. rewrite bool_decide_eq_false_2; [done|].
    unfold admittingServers. simpl. lia.
  - simpl. destruct (busymap_at_spec m id) as (m1 & -> & Hext & Hwf1).
    destruct (canLaunch_after_cancel m cs prio work id Hwf Hp Hcs) as (b' & -> & Hcl).
    simpl. rewrite Hcl. simpl. rewrite admittingServers_cons.
    pose proof (admittingServers_nonneg m cs prio work srcs) as Hnn.
    destruct (admitsSrc m cs prio work id) eqn:Hadm.
    + destruct (Z.eqb_spec (needed - 1) 0) as [H0|H0].
      * exists m1. rewrite bool_decide_eq_true_2 by lia. done.
      * destruct (IH (needed - 1) m1) as (m' & ->); [lia|by apply Hwf1|].
        exists m'. rewrite (admittingServers_ext m m1) by done.
        do 2 f_equal; apply bool_decide_ext; lia.
    + destruct (IH needed m1) as (m' & ->); [lia|by apply Hwf1|].
      exists m'. rewrite (admittingServers_ext m m1) by done.
      do 2 f_equal; apply bool_decide_ext; lia.
Qed.

Lemma getSrcWorkFactor_Some k rd single :
  RELOCATION_PARALLELISM_PER_SOURCE_SERVER k <> 0 -> single <> 0 ->
  exists work, getSrcWorkFactor k rd single = Some work.
Proof.
  intros HK Hs. unfold getSrcWorkFactor, int_div.
  destruct (Z.eqb_spec (RELOCATION_PARALLELISM_PER_SOURCE_SERVER k) 0); [done|].
  destruct (Z.eqb_spec single 0); [done|].
  repeat case_match; simpl; try discriminate; eauto.
Qed.

Lemma neededServers_pos k rd teamSize single :
  src rd <> [] -> single <= teamSize -> 1 <= neededServers k rd teamSize single.
Proof.
  intros Hsrc Hts. unfold neededServers.
  assert (1 <= Z.of_nat (length (src rd))).
  { destruct (src rd); [done|]. simpl length. lia. }
  destruct (USE_OLD_NEEDED_SERVERS k); lia.
Qed.


(** ** Ordered sets and the candidates of a launch *)

Lemma rdset_insert_elem x y s : y ∈ rdset_insert x s -> y = x \/ y ∈ s.
Proof.
  induction s as [|z s IH]; simpl.
  - intros H. apply list_elem_of_singleton in H. by left.
  - destruct (rd_gt x z).
    + intros H. apply elem_of_cons in H as [->|H]; [by left|by right].
    + destruct (rd_gt z x).
      * intros H. apply elem_of_cons in H as [->|H].
        -- right. apply list_elem_of_here.
        -- destruct (IH H) as [->|H']; [by left|].
           right. by apply list_elem_of_further.
      * intros H. by right.
Qed.

Lemma rdset_insert_all_elem l : forall combined y,
  y ∈ foldl (fun c rd => rdset_insert rd c) combined l -> y ∈ combined \/ y ∈ l.
Proof.
  induction l as [|x l IH]; intros combined y; simpl.
  - by left.
  - intros H. destruct (IH _ _ H) as [H'|H'].
    + destruct (rdset_insert_elem _ _ _ H') as [->|H''].
      * right. apply list_elem_of_here.
      * by left.
    + right. by apply list_elem_of_further.
Qed.

Lemma UID_gt_spec (a b : UID) :
  UID_gt a b = true <-> (b.1 < a.1)%N \/ (a.1 = b.1 /\ (b.2 < a.2)%N).
Proof.
  unfold UID_gt. rewrite orb_true_iff, andb_true_iff, !N.ltb_lt, N.eqb_eq. tauto.
Qed.

(** [operator>] is the lexicographic order on priority (larger first),
    [startTime] (smaller first) and [randomId] (larger first). *)
Lemma rd_gt_spec a b :
  rd_gt a b = true <->
  priority b < priority a \/
  (priority a = priority b /\
   (startTime a < startTime b \/
    (startTime a = startTime b /\ UID_gt (randomId a) (randomId b) = true))).
Proof.
  unfold rd_gt.
  destruct (Z.eqb_spec (priority a) (priority b)) as [Hp|Hp]; simpl.
  - destruct (Z.eqb_spec (startTime a) (startTime b)) as [Ht|Ht]; simpl.
    + split; [intros H; right; split; [done|]; right; done|].
      intros [H|(_ & [H|(_ & H)])]; try lia. done.
    + rewrite Z.ltb_lt. split; [intros H; right; split; [done|]; by left|].
      intros [H|(_ & [H|(H & _)])]; try lia.
  - rewrite Z.ltb_lt. split; [by left|]. intros [H|(H & _)]; [done|lia].
Qed.

Lemma rd_gt_trans a b c :
  rd_gt a b = true -> rd_gt b c = true -> rd_gt a c = true.
Proof.
  rewrite !rd_gt_spec, !UID_gt_spec. intros H1 H2.
  destruct H1 as [H1|(Hp1 & [H1|(Ht1 & H1)])];
    destruct H2 as [H2|(Hp2 & [H2|(Ht2 & H2)])]; try (left; lia);
    try (right; split; [lia|]; left; lia).
  right. split; [lia|]. right. split; [lia|].
  destruct H1 as [H1|(H1 & H1')]; destruct H2 as [H2|(H2 & H2')];
    try (left; lia). right. split; [congruence|lia].
Qed.

Lemma UID_gt_false_iff (a b : UID) :
  UID_gt a b = false <-> (a.1 < b.1)%N \/ (a.1 = b.1 /\ (a.2 <= b.2)%N).
Proof.
  rewrite <- not_true_iff_false, UID_gt_spec. lia.
Qed.

Lemma rd_gt_false_iff a b :
  rd_gt a b = false <->
  priority a < priority b \/
  (priority a = priority b /\
   (startTime b < startTime a \/
    (startTime a = startTime b /\ UID_gt (randomId a) (randomId b) = false))).
Proof.
  rewrite <- not_true_iff_false, rd_gt_spec.
  pose proof (Z.lt_trichotomy (priority a) (priority b)).
  pose proof (Z.lt_trichotomy (startTime a) (startTime b)).
  destruct (UID_gt (randomId a) (randomId b)); intuition (try lia; try congruence).
Qed.

Lemma rd_equiv_spec a b :
  rd_equiv a b = true <->
  priority a = priority b /\ startTime a = startTime b /\ randomId a = randomId b.
Proof.
  unfold rd_equiv. rewrite andb_true_iff, !negb_true_iff, !rd_gt_false_iff.
  rewrite !UID_gt_false_iff.
  destruct (randomId a) as [a1 a2], (randomId b) as [b1 b2]. simpl. split.
  - intros (H1 & H2). split; [lia|]. split; [lia|]. f_equal; lia.
  - intros (-> & -> & [= -> ->]). split; right; (split; [done|]); right;
      (split; [done|]); right; split; done || lia.
Qed.

Lemma rd_equiv_refl a : rd_equiv a a = true.
Proof. by apply rd_equiv_spec. Qed.

Lemma rd_equiv_sym a b : rd_equiv a b = rd_equiv b a.
Proof. unfold rd_equiv. apply andb_comm. Qed.

Lemma rd_equiv_gt_l a a' b : rd_equiv a a' = true -> rd_gt a b = rd_gt a' b.
Proof.
  intros (Hp & Ht & Hr)%rd_equiv_spec. unfold rd_gt. by rewrite Hp, Ht, Hr.
Qed.

Lemma rd_equiv_gt_r a b b' : rd_equiv b b' = true -> rd_gt a b = rd_gt a b'.
Proof.
  intros (Hp & Ht & Hr)%rd_equiv_spec. unfold rd_gt. by rewrite Hp, Ht, Hr.
Qed.

Lemma rd_equiv_equiv_l a a' b : rd_equiv a a' = true -> rd_equiv a b = rd_equiv a' b.
Proof.
  intros H. unfold rd_equiv.
  by rewrite (rd_equiv_gt_l a a' b), (rd_equiv_gt_r b a a').
Qed.

Lemma rd_gt_irrefl a : rd_gt a a = false.
Proof.
  apply rd_gt_false_iff. right. split; [done|]. right. split; [done|].
  apply UID_gt_false_iff. lia.
Qed.

Lemma rd_gt_asym a b : rd_gt a b = true -> rd_gt b a = false.
Proof.
  intros H. apply not_true_iff_false. intros H'.
  pose proof (rd_gt_trans _ _ _ H H') as Habs. by rewrite rd_gt_irrefl in Habs.
Qed.

Lemma rdset_count_insert_eq x y s :
  rdset_count y (rdset_insert x s) = rd_equiv y x || rdset_count y s.
Proof.
  unfold rdset_count. induction s as [|z s IH]; simpl.
  - done.
  - destruct (rd_gt x z) eqn:Exz; simpl; [done|].
    destruct (rd_gt z x) eqn:Ezx; simpl.
    + rewrite IH. destruct (rd_equiv y z), (rd_equiv y x); done.
    + assert (Heq : rd_equiv x z = true).
      { unfold rd_equiv. by rewrite Exz, Ezx. }
      rewrite (rd_equiv_sym y x), (rd_equiv_equiv_l x z y Heq), (rd_equiv_sym z y).
      by destruct (rd_equiv y z).
Qed.

(** The sets of relocations stay in the order of [operator>]: inserting
    into a set whose every element is [operator>] the elements after it
    gives such a set. *)
Lemma rdset_insert_sorted x s : rdset_sorted s -> rdset_sorted (rdset_insert x s).
Proof.
  unfold rdset_sorted. induction 1 as [|y s Hs IH Hy]; simpl.
  - repeat constructor.
  - destruct (rd_gt x y) eqn:Exy.
    + constructor; [by constructor|].
      constructor; [done|].
      eapply Forall_impl; [exact Hy|]. intros z Hz. simpl in Hz.
      by apply (rd_gt_trans x y z).
    + destruct (rd_gt y x) eqn:Eyx; [|by constructor].
      constructor; [done|].
      apply Forall_forall. intros z Hz.
      apply rdset_insert_elem in Hz as [->|Hz]; [done|].
      rewrite Forall_forall in Hy. by apply Hy.
Qed.

Lemma queue_at_lookup (q : gmap UID RdSet) id id' :
  default [] ((queue_at q id).2 !! id') = default [] (q !! id').
Proof.
  unfold queue_at. simpl. destruct (decide (id = id')) as [->|Hne].
  - by rewrite lookup_insert_eq.
  - by rewrite lookup_insert_ne.
Qed.

Lemma combineFromServers_elem teamSize servers : forall combined (q : gmap UID RdSet) y,
  y ∈ (foldl (combineFromServer teamSize) (combined, q) servers).1 ->
  y ∈ combined \/
  exists id, id ∈ servers /\ y ∈ take (Z.to_nat teamSize) (default [] (q !! id)).
Proof.
  induction servers as [|id servers IH]; intros combined q y; simpl.
  - by left.
  - intros H.
    apply IH in H as [H|(id' & Hid' & H)].
    + apply rdset_insert_all_elem in H as [H|H]; [by left|].
      right. exists id. split; [apply list_elem_of_here|done].
    + right. exists id'. split; [by apply list_elem_of_further|].
      change (<[id:=default [] (q !! id)]> q) with (queue_at q id).2 in H.
      by rewrite queue_at_lookup in H.
Qed.

Lemma rdset_count_insert_all l : forall (combined : RdSet) y,
  rdset_count y combined = true \/ y ∈ l ->
  rdset_count y (foldl (fun c rd => rdset_insert rd c) combined l) = true.
Proof.
  induction l as [|x l IH]; intros combined y; simpl.
  - intros [H|H]; [done|]. by apply elem_of_nil in H.
  - intros [H|H]; apply IH.
    + left. by rewrite rdset_count_insert_eq, H, orb_true_r.
    + apply elem_of_cons in H as [->|H]; [|by right].
      left. by rewrite rdset_count_insert_eq, rd_equiv_refl.
Qed.

Lemma combineFromServers_count teamSize servers : forall combined (q : gmap UID RdSet) y,
  rdset_count y combined = true \/
  (exists id, id ∈ servers /\ y ∈ take (Z.to_nat teamSize) (default [] (q !! id))) ->
  rdset_count y (foldl (combineFromServer teamSize) (combined, q) servers).1 = true.
Proof.
  induction servers as [|id servers IH]; intros combined q y; simpl.
  - intros [H|(id & Hid & _)]; [done|]. by apply elem_of_nil in Hid.
  - intros H. apply IH. destruct H as [H|(id' & Hid' & H)].
    + left. apply rdset_count_insert_all. by left.
    + apply elem_of_cons in Hid' as [->|Hid'].
      * left. apply rdset_count_insert_all. by right.
      * right. exists id'. split; [done|].
        change (<[id:=default [] (q !! id)]> q) with (queue_at q id).2.
        by rewrite queue_at_lookup.
Qed.

Lemma rdset_sorted_take_drop (s : RdSet) (n : nat) x y :
  rdset_sorted s -> x ∈ take n s -> y ∈ drop n s -> rd_gt x y = true.
Proof.
  unfold rdset_sorted. intros Hs. revert n.
  induction Hs as [|z s Hs IH Hz]; intros n Hx Hy.
  - rewrite take_nil in Hx. by apply elem_of_nil in Hx.
  - destruct n as [|n]; simpl in *; [by apply elem_of_nil in Hx|].
    apply elem_of_cons in Hx as [->|Hx]; [|by apply (IH n)].
    rewrite Forall_forall in Hz. apply Hz.
    apply list_elem_of_lookup in Hy as [i Hi]. rewrite lookup_drop in Hi.
    apply list_elem_of_lookup. by exists (n + i)%nat.
Qed.

(** ** Searching a list *)

Lemma find_none_iff {A : Type} (f : A -> bool) (l : list A) :
  List.find f l = None <-> forall x, x ∈ l -> f x = false.
Proof.
  split.
  - intros H x Hx. apply list_elem_of_In in Hx. by eapply List.find_none.
  - intros H. destruct (List.find f l) as [x|] eqn:E; [|done].
    apply List.find_some in E as [Hin Hf].
    apply list_elem_of_In in Hin. rewrite (H x Hin) in Hf. done.
Qed.

(** ** The launch loop *)

Lemma overlappingInFlight_iff k st rd :
  overlappingInFlight k st rd = true <->
  exists e, e ∈ inFlight st /\ KeyRange_intersects (fst e) (keys rd) = true /\
            blocksLaunch k st rd e = true.
Proof.
  unfold overlappingInFlight, intersectingRanges. rewrite existsb_exists. split.
  - intros (e & Hin & Hb). apply filter_In in Hin as [Hin Hi].
    exists e. by rewrite list_elem_of_In.
  - intros (e & Hin & Hi & Hb). exists e. split; [|done].
    apply filter_In. by rewrite <- list_elem_of_In.
Qed.

Lemma blocksLaunch_iff k st rd e :
  blocksLaunch k st rd e = true <->
  rdset_count (snd e) (fetchKeysComplete st) = true /\
  liveActorAt (inFlightActors st) (kr_begin (fst e)) = true /\
  KeyRange_contains (keys rd) (fst e) = false /\
  priority rd <= priority (snd e) /\
  healthPriority rd < PRIORITY_TEAM_UNHEALTHY k.
Proof.
  unfold blocksLaunch.
  rewrite !andb_true_iff, negb_true_iff, Z.leb_le, Z.ltb_lt. tauto.
Qed.

Lemma startRelocation_frame k prio hp st :
  queue (startRelocation k prio hp st) = queue st /\
  queuedRelocations (startRelocation k prio hp st) = queuedRelocations st /\
  activeRelocations (startRelocation k prio hp st) = activeRelocations st /\
  inFlightActors (startRelocation k prio hp st) = inFlightActors st.
Proof.
  unfold startRelocation.
  by destruct (countsAsUnhealthy k hp), (hp =? PRIORITY_PERPETUAL_STORAGE_WIGGLE k).
Qed.

Lemma finishRelocation_frame k prio hp st st' :
  finishRelocation k prio hp st = Some st' ->
  queue st' = queue st /\
  queuedRelocations st' = queuedRelocations st /\
  activeRelocations st' = activeRelocations st /\
  inFlightActors st' = inFlightActors st.
Proof.
  unfold finishRelocation. intros H.
  apply option.bind_Some in H as (st1 & H1 & H).
  assert (Hst1 : queue st1 = queue st /\ queuedRelocations st1 = queuedRelocations st /\
                 activeRelocations st1 = activeRelocations st /\
                 inFlightActors st1 = inFlightActors st).
  { destruct (countsAsUnhealthy k hp); [|by injection H1 as <-].
    destruct (0 <=? unhealthyRelocations st - 1); [|done].
    injection H1 as <-. by destruct (unhealthyRelocations st - 1 =? 0). }
  destruct Hst1 as (<- & <- & <- & <-).
  unfold counter_at in H. simpl in H. injection H as <-.
  clear H1. by destruct (default 0 _ =? 0).
Qed.

Lemma launchRange_frame k rd newId st eff r st' eff' :
  launchRange k rd newId (st, eff) r = Some (st', eff') ->
  queue st' = queue st /\
  queuedRelocations st' = queuedRelocations st /\
  activeRelocations st' = activeRelocations st + 1 /\
  exists rrs,
    eff' = eff ++ [ETrace SevVerbose "InFlightRelocationChange"; ESpawnRelocator rrs].
Proof.
  unfold launchRange. intros H.
  apply option.bind_Some in H as (e & _ & H).
  apply option.bind_Some in H as (rrs2 & _ & H).
  apply option.bind_Some in H as ([rrs3 bm] & _ & H).
  injection H as <- <-.
  match goal with
  | |- context [startRelocation ?k0 ?p ?h ?s] =>
      destruct (startRelocation_frame k0 p h s) as (Hq & Hn & Ha & _)
  end.
  cbn [queue queuedRelocations activeRelocations set_inFlightActors].
  rewrite Hq, Hn, Ha. simpl.
  split; [done|]. split; [done|]. split; [done|]. by eexists.
Qed.

Lemma launchRange_fold_frame k rd newId ranges : forall st eff st' eff',
  foldM_opt (launchRange k rd newId) (st, eff) ranges = Some (st', eff') ->
  queue st' = queue st /\
  queuedRelocations st' = queuedRelocations st /\
  activeRelocations st' = activeRelocations st + Z.of_nat (length ranges) /\
  exists launched, eff' = eff ++ launched.
Proof.
  induction ranges as [|r ranges IH]; intros st eff st' eff' H.
  - injection H as <- <-. simpl. split; [done|]. split; [done|]. split; [lia|].
    exists []. by rewrite app_nil_r.
  - rewrite foldM_opt_cons in H.
    apply option.bind_Some in H as ([st1 eff1] & H1 & H).
    apply launchRange_frame in H1 as (Hq & Hn & Ha & rrs & ->).
    apply IH in H as (-> & -> & -> & launched & ->).
    split; [done|]. split; [done|]. split; [rewrite Ha; simpl length; lia|].
    eexists. by rewrite <- app_assoc.
Qed.

(** What the admission check of lines 1064-1079 decides for a relocation
    that is not a restore. *)
Lemma launchAdmitted_decision k newId st eff rd :
  isRestore rd = false ->
  match canLaunchSrc k rd (teamSize st) (singleRegionTeamSize st) (busymap st)
          (cancellableRelocations st rd) with
  | None => launchAdmitted k newId st eff rd = None
  | Some (false, bm) => launchAdmitted k newId st eff rd = Some (set_busymap bm st, eff)
  | Some (true, bm) =>
      forall st' eff',
        launchAdmitted k newId st eff rd = Some (st', eff') ->
        queuedRelocations st' = queuedRelocations st - 1 /\
        foldM_opt (queue_erase_assert rd) (queue st) (src rd) = Some (queue st') /\
        activeRelocations st'
        = activeRelocations st
          + Z.of_nat (length (getRangesAffectedByInsertion (inFlightActors st)
                                (keys rd))) /\
        exists launched,
          eff' = eff ++ ETrace SevVerbose "QueuedRelocationsChanged" :: launched
  end.
Proof.
  intros Hr. unfold launchAdmitted. rewrite Hr.
  destruct (canLaunchSrc _ _ _ _ _ _) as [[[|] bm]|]; [|done|done].
  intros st' eff' H. cbn [mbind option_bind negb] in H.
  apply option.bind_Some in H as ([st1 eff1] & H1 & H).
  apply option.bind_Some in H1 as (st0 & Hfin & H1).
  apply option.bind_Some in H1 as (q & Hq & H1). injection H1 as <- <-.
  apply finishRelocation_frame in Hfin as (Hfq & Hfn & Hfa & Hfi).
  simpl in Hfq, Hfn, Hfa, Hfi. rewrite Hfq in Hq.
  apply launchRange_fold_frame in H as (Hq' & Hn' & Ha' & launched & ->).
  simpl in Hq', Hn', Ha'. rewrite Hq', Hn', Ha', Hfn, Hfa, Hfi.
  split; [done|]. split; [done|]. split; [done|].
  destruct (SHARD_ENCODE_LOCATION_METADATA k); eexists;
    rewrite <- !app_assoc; simpl; reflexivity.
Qed.

(** ** The scan of [queueRelocation] *)

Lemma finishRelocation_Some k prio hp st :
  (countsAsUnhealthy k hp = true -> 1 <= unhealthyRelocations st) ->
  exists st', finishRelocation k prio hp st = Some st'.
Proof.
  intros H. unfold finishRelocation.
  destruct (countsAsUnhealthy k hp).
  - destruct (Z.leb_spec 0 (unhealthyRelocations st - 1)); [|lia].
    rewrite bind_Some. repeat case_match; eauto.
  - rewrite bind_Some. repeat case_match; eauto.
Qed.

Lemma activeEntry_found st rrs :
  activeEntry st rrs ->
  foundActiveFetching st rrs || (foundActiveRelocation st rrs).1 = true.
Proof.
  unfold activeEntry, foundActiveRelocation, foundActiveFetching.
  intros [H|(first & others & Hsrc & H)].
  - by rewrite H.
  - rewrite Hsrc. destruct (rdset_count rrs (fetchingSourcesQueue st)); [done|].
    simpl. done.
Qed.

Lemma foundActiveRelocation_unhealthy st rrs :
  unhealthyRelocations (foundActiveRelocation st rrs).2 = unhealthyRelocations st.
Proof.
  unfold foundActiveRelocation. repeat case_match; simpl; try done.
  all: by simplify_eq.
Qed.

(** One turn of the scan on an active entry. *)
Lemma queueRelocation_visit_active k hh hb rd st servers eff rrs :
  activeEntry st rrs ->
  (countsAsUnhealthy k (healthPriority rrs) = true -> 1 <= unhealthyRelocations st) ->
  exists st' servers' eff',
    queueRelocation_visit k hh hb (rd, st, servers, eff) rrs
    = Some (inheritFrom hh hb rd rrs, st', servers', eff').
Proof.
  intros Hact Hun. apply activeEntry_found in Hact.
  pose proof (foundActiveRelocation_unhealthy st rrs) as Hu.
  unfold queueRelocation_visit.
  destruct (foundActiveRelocation st rrs) as [relocating st1]. simpl in Hact, Hu.
  rewrite Hact.
  match goal with
  | |- context [finishRelocation k ?p ?h ?s] =>
      destruct (finishRelocation_Some k p h s) as [st4 Hst4]
  end.
  { intros Hc. specialize (Hun Hc).
    repeat case_match; destruct st1; simpl in *; lia. }
  rewrite Hst4. rewrite bind_Some. eauto.
Qed.


(** ** The choice of the shard to move *)

Lemma pickShard_spec inp : forall fuel p0,
  let p := pickShard inp fuel p0 in
  (tries p0 <= tries p <= tries p0 + fuel)%nat /\
  metricsBytes p0 <= metricsBytes p /\
  (forall i, (tries p0 <= i < tries p)%nat -> sampleBytes inp i <= metricsBytes p) /\
  ((moveShard p = moveShard p0 /\ metricsBytes p = metricsBytes p0) \/
   (exists i, (tries p0 <= i < tries p)%nat /\
      moveShard p = randomChoice inp i /\ metricsBytes p = sampleBytes inp i)) /\
  ((tries p < tries p0 + fuel)%nat ->
     averageShardBytes inp < metricsBytes p /\
     moveShard p = randomChoice inp (tries p - 1) /\
     metricsBytes p = sampleBytes inp (tries p - 1)) /\
  (forall i, (tries p0 <= i)%nat -> (S i < tries p)%nat ->
     sampleBytes inp i <= Z.max (metricsBytes p0) (averageShardBytes inp)).
Proof.
  induction fuel as [|fuel IH]; intros p0; cbn zeta.
  - simpl. split; [lia|]. split; [lia|]. split; [intros; lia|].
    split; [by left|]. split; intros; lia.
  - simpl pickShard. fold (sampleBytes inp (tries p0)).
    destruct (Z.ltb_spec (metricsBytes p0) (sampleBytes inp (tries p0))) as [Hlt|Hge].
    + destruct (Z.ltb_spec (averageShardBytes inp) (sampleBytes inp (tries p0)))
        as [Havg|Havg].
      * simpl. replace (tries p0 - 0)%nat with (tries p0) by lia.
        split; [lia|]. split; [lia|]. split.
        { intros i Hi. replace i with (tries p0) by lia. lia. }
        split.
        { right. exists (tries p0). split; [lia|done]. }
        split; [done|]. intros; lia.
      * specialize (IH (mkPickState (randomChoice inp (tries p0))
                          (sampleBytes inp (tries p0)) (S (tries p0)))).
        cbn zeta in IH. simpl tries in IH. simpl metricsBytes in IH.
        simpl moveShard in IH.
        destruct IH as (Ht & Hb & Hall & Hsel & Hstop & Hbefore).
        split; [lia|]. split; [lia|]. split.
        { intros i Hi. destruct (decide (i = tries p0)) as [->|Hne]; [lia|].
          apply Hall. lia. }
        split.
        { right. destruct Hsel as [[Hs Hm]|(i & Hi & Hs & Hm)].
          - exists (tries p0). split; [lia|done].
          - exists i. split; [lia|done]. }
        split; [intros H; apply Hstop; lia|].
        intros i Hi HS. destruct (decide (i = tries p0)) as [->|Hne]; [lia|].
        specialize (Hbefore i). lia.
    + specialize (IH (mkPickState (moveShard p0) (metricsBytes p0) (S (tries p0)))).
      cbn zeta in IH. simpl tries in IH. simpl metricsBytes in IH.
      simpl moveShard in IH.
      destruct IH as (Ht & Hb & Hall & Hsel & Hstop & Hbefore).
      split; [lia|]. split; [lia|]. split.
      { intros i Hi. destruct (decide (i = tries p0)) as [->|Hne]; [lia|].
        apply Hall. lia. }
      split.
      { destruct Hsel as [[Hs Hm]|(i & Hi & Hs & Hm)].
        - by left.
        - right. exists i. split; [lia|done]. }
      split; [intros H; apply Hstop; lia|].
      intros i Hi HS. destruct (decide (i = tries p0)) as [->|Hne]; [lia|].
      specialize (Hbefore i). lia.
Qed.

Lemma existsb_bool_decide_elem (x : KeyRange) (l : list KeyRange) :
  existsb (fun y => bool_decide (x = y)) l = true <-> x ∈ l.
Proof.
  rewrite existsb_exists. split.
  - intros (y & Hin & Hy). apply bool_decide_eq_true in Hy as ->.
    by apply list_elem_of_In.
  - intros Hin. exists x. split; [by apply list_elem_of_In|].
    by apply bool_decide_eq_true.
Qed.

(** ** The source ledgers under the events of the scheduler *)

Lemma sumZ_app l1 l2 : sumZ (l1 ++ l2) = sumZ l1 + sumZ l2.
Proof.
  induction l1 as [|x l1 IH]; [done|].
  rewrite <- app_comm_cons, !sumZ_cons, IH. lia.
Qed.

Lemma sumZ_insert {A : Type} (f : A -> Z) (l : list A) (i : nat) (x y : A) :
  l !! i = Some x ->
  sumZ (f <$> <[i := y]> l) = sumZ (f <$> l) - f x + f y.
Proof.
  revert i. induction l as [|z l IH]; intros i Hi; [done|].
  destruct i as [|i]; simpl in Hi.
  - injection Hi as ->. change (<[0%nat := y]> (x :: l)) with (y :: l).
    rewrite !fmap_cons, !sumZ_cons. lia.
  - change (<[S i := y]> (z :: l)) with (z :: <[i := y]> l).
    rewrite !fmap_cons, !sumZ_cons, (IH i Hi). lia.
Qed.

Lemma sumZ_nonneg l : Forall (fun x => 0 <= x) l -> 0 <= sumZ l.
Proof.
  induction 1 as [|x l Hx _ IH]; [done|]. rewrite sumZ_cons. lia.
Qed.

Lemma sumZ_le {A : Type} (f g : A -> Z) (l : list A) :
  Forall (fun x => f x <= g x) l -> sumZ (f <$> l) <= sumZ (g <$> l).
Proof.
  induction 1 as [|x l Hx _ IH]; [done|].
  rewrite !fmap_cons, !sumZ_cons. lia.
Qed.

Lemma occurrences_nonneg id l : 0 <= occurrences id l.
Proof. unfold occurrences. lia. Qed.

Lemma occurrences_cons id x l :
  occurrences id (x :: l) = (if bool_decide (x = id) then 1 else 0) + occurrences id l.
Proof.
  unfold occurrences. simpl List.filter.
  destruct (bool_decide (x = id)); simpl length; lia.
Qed.

Lemma busy_of_insert (m : Busymap) id b id' :
  busy_of (<[id := b]> m) id' = if bool_decide (id = id') then b else busy_of m id'.
Proof.
  unfold busy_of. destruct (decide (id = id')) as [->|Hne].
  - by rewrite lookup_insert_eq, bool_decide_eq_true_2.
  - by rewrite lookup_insert_ne, bool_decide_eq_false_2.
Qed.

Lemma Busymap_wf_insert (m : Busymap) id b :
  Busymap_wf m -> Busyness_wf b -> Busymap_wf (<[id := b]> m).
Proof. intros Hm Hb. by apply map_Forall_insert_2. Qed.

(** [busymap[id].addWork(prio, work)] on a well-formed map. *)
Lemma busymap_addWork_spec (prio work : Z) (m : Busymap) (id : UID) (m' : Busymap) :
  Busymap_wf m -> busymap_addWork prio work m id = Some m' ->
  0 < prio < 1000 /\ Busymap_wf m' /\
  forall id' (i : nat),
    ledger (busy_of m' id') !! i =
    (fun x => x + (if bool_decide (id = id') then 1 else 0) *
                  (if Z.of_nat i <=? prio ÷ 100 then work else 0))
      <$> ledger (busy_of m id') !! i.
Proof.
  intros Hwf H. unfold busymap_addWork in H.
  destruct (busymap_at_spec m id) as (m1 & Hat & Hext & Hwf1).
  rewrite Hat in H.
  assert (Hp : 0 < prio < 1000).
  { unfold addWork in H. destruct (prio_ok prio) eqn:E; [|done].
    by apply prio_ok_spec. }
  rewrite addWork_closed in H by (by apply busy_of_wf || done).
  rewrite bind_Some in H. injection H as <-.
  split; [done|]. split.
  - apply Busymap_wf_insert; [by apply Hwf1|].
    unfold Busyness_wf. simpl. rewrite length_ledger_shift.
    by apply busy_of_wf.
  - intros id' i. rewrite busy_of_insert.
    destruct (bool_decide (id = id')) eqn:E.
    + apply bool_decide_eq_true in E as <-. simpl.
      rewrite lookup_ledger_shift.
      destruct (ledger (busy_of m id) !! i); simpl; [|done]. f_equal. zcmp.
    + rewrite Hext.
      destruct (ledger (busy_of m id') !! i); simpl; [|done]. f_equal. lia.
Qed.

(** The loop of [launch] and of [complete] over the sources. *)
Lemma busymap_addWork_fold (prio work : Z) (srcs : list UID) : forall (m m' : Busymap),
  Busymap_wf m ->
  foldM_opt (busymap_addWork prio work) m srcs = Some m' ->
  Busymap_wf m' /\
  forall id (i : nat),
    ledger (busy_of m' id) !! i =
    (fun x => x + occurrences id srcs *
                  (if Z.of_nat i <=? prio ÷ 100 then work else 0))
      <$> ledger (busy_of m id) !! i.
Proof.
  induction srcs as [|x srcs IH]; intros m m' Hwf H.
  - injection H as <-. split; [done|]. intros id i.
    destruct (ledger (busy_of m id) !! i); simpl; [|done].
    f_equal. unfold occurrences. simpl. lia.
  - rewrite foldM_opt_cons in H.
    destruct (busymap_addWork prio work m x) as [m1|] eqn:E1; [|done].
    rewrite bind_Some in H.
    destruct (busymap_addWork_spec _ _ _ _ _ Hwf E1) as (_ & Hwf1 & H1).
    destruct (IH _ _ Hwf1 H) as (Hwf' & H').
    split; [done|]. intros id i. rewrite H', H1, occurrences_cons.
    destruct (ledger (busy_of m id) !! i); simpl; [|done]. f_equal.
    destruct (bool_decide (x = id)); lia.
Qed.

Lemma getSrcWorkFactor_nonneg k rd single work :
  0 < RELOCATION_PARALLELISM_PER_SOURCE_SERVER k -> 0 < single ->
  getSrcWorkFactor k rd single = Some work -> 0 <= work.
Proof.
  intros HK Hs H. unfold getSrcWorkFactor, int_div, WORK_FULL_UTILIZATION in H.
  assert (Hq : forall a b, 0 <= a -> 0 < b -> 0 <= a ÷ b).
  { intros a b Ha Hb. rewrite Z.quot_div_nonneg by lia. apply Z.div_pos; lia. }
  repeat case_match; simpl in *; simplify_eq; repeat apply Hq; lia.
Qed.

Lemma srcWorkAt_set_completeDests id i v rd :
  srcWorkAt id i (set_completeDests v rd) = srcWorkAt id i rd.
Proof. reflexivity. Qed.

Lemma Forall_insert_2 {A : Type} (P : A -> Prop) (l : list A) i y :
  Forall P l -> P y -> Forall P (<[i := y]> l).
Proof.
  intros Hl Hy. apply Forall_forall. intros z Hz.
  apply list_elem_of_lookup in Hz as [j Hj].
  destruct (decide (i = j)) as [->|Hne].
  - destruct (decide (j < length l)%nat).
    + rewrite list_lookup_insert_eq in Hj by done. by injection Hj as <-.
    + rewrite list_insert_ge in Hj by lia.
      eapply Forall_lookup_1; eauto.
  - rewrite list_lookup_insert_ne in Hj by done.
    eapply Forall_lookup_1; eauto.
Qed.

(** Replacing a relocator by one with the same outstanding work. *)
Lemma outstanding_replace s i r r' bm d tc id j :
  sc_relocators s !! i = Some r ->
  relocatorWorkAt id j r' + sumZ (srcWorkAt id j <$> tc)
  = relocatorWorkAt id j r + sumZ (srcWorkAt id j <$> sc_transferComplete s) ->
  outstandingAt (mkSched bm d (<[i := r']> (sc_relocators s)) tc) id j
  = outstandingAt s id j.
Proof.
  intros Hi Heq. unfold outstandingAt. simpl.
  rewrite (sumZ_insert _ _ _ _ _ Hi). lia.
Qed.

(** Every event keeps the account of [busymap]. *)
Lemma sched_step_accounts k single s ev s' :
  0 < RELOCATION_PARALLELISM_PER_SOURCE_SERVER k -> 0 < single ->
  busymap_accounts s -> sched_step k single s ev = Some s' ->
  busymap_accounts s'.
Proof.
  intros HK Hs (Hwf & Hacc & Hrel & Htc) Hstep.
  destruct ev as [rd|i bestTeams|i|i|i|]; simpl in Hstep.
  - (* EvLaunch *)
    unfold launch in Hstep.
    destruct (getSrcWorkFactor k rd single) as [work|] eqn:Ework; [|done].
    rewrite bind_Some in Hstep.
    destruct (foldM_opt _ _ _) as [bm|] eqn:Efold; [|done].
    simpl in Hstep. injection Hstep as <-.
    destruct (busymap_addWork_fold _ _ _ _ _ Hwf Efold) as (Hwf' & Hl).
    pose proof (getSrcWorkFactor_nonneg _ _ _ _ HK Hs Ework) as Hnn.
    split; [done|]. split; [|split; [|done]].
    + intros id j Hj. simpl. rewrite Hl, (Hacc id j Hj). simpl. f_equal.
      unfold outstandingAt. simpl. rewrite fmap_app, sumZ_app.
      change (sumZ (relocatorWorkAt id (Z.of_nat j) <$>
                [mkRelocator (set_workFactor work rd) false SelectingTeams]))
        with (occurrences id (src rd) *
              (if Z.of_nat j <=? priority rd ÷ 100 then work else 0) + 0).
      lia.
    + simpl. apply Forall_app. split; [done|]. by apply Forall_singleton.
  - (* EvLaunchDest *)
    destruct (sc_relocators s !! i) as [r|] eqn:Ei; [|done]. simpl in Hstep.
    destruct (r_phase r); try done.
    destruct (canLaunchDest _ _ _ _) as [[ok d1]|]; [|done]. simpl in Hstep.
    destruct ok; [|done].
    unfold launchDest in Hstep.
    destruct (completeDests (r_rd r)) eqn:Ecd; [|done].
    destruct (getDestWorkFactor k) as [dw|]; [|done]. simpl in Hstep.
    destruct (foldM_opt _ _ _) as [d2|]; [|done]. simpl in Hstep.
    injection Hstep as <-.
    split; [done|]. split; [|split; [|done]].
    + intros id j Hj. simpl. rewrite (Hacc id j Hj). f_equal. symmetry.
      apply outstanding_replace with (r := r); [done|]. done.
    + simpl. apply Forall_insert_2; [done|]. simpl.
      by eapply (Forall_lookup_1 _ _ _ _ Hrel Ei).
  - (* EvSignalTransferComplete *)
    destruct (sc_relocators s !! i) as [r|] eqn:Ei; [|done]. simpl in Hstep.
    destruct (r_phase r); try done.
    destruct (r_signalled r) eqn:Esig; [done|].
    injection Hstep as <-.
    pose proof (Forall_lookup_1 _ _ _ _ Hrel Ei) as Hr. simpl in Hr.
    split; [done|]. split; [|split].
    + intros id j Hj. simpl. rewrite (Hacc id j Hj). f_equal. symmetry.
      apply outstanding_replace with (r := r); [done|].
      rewrite fmap_app, sumZ_app. unfold relocatorWorkAt. simpl. rewrite Esig.
      lia.
    + simpl. by apply Forall_insert_2.
    + simpl. apply Forall_app. split; [done|]. by apply Forall_singleton.
  - (* EvMoveToRemovedServer *)
    destruct (sc_relocators s !! i) as [r|] eqn:Ei; [|done]. simpl in Hstep.
    destruct (r_phase r); try done.
    destruct (completeDest _ _ _) as [d|]; [|done]. simpl in Hstep.
    injection Hstep as <-.
    split; [done|]. split; [|split; [|done]].
    + intros id j Hj. simpl. rewrite (Hacc id j Hj). f_equal. symmetry.
      apply outstanding_replace with (r := r); [done|]. done.
    + simpl. apply Forall_insert_2; [done|]. simpl.
      by eapply (Forall_lookup_1 _ _ _ _ Hrel Ei).
  - (* EvEnd *)
    destruct (sc_relocators s !! i) as [r|] eqn:Ei; [|done]. simpl in Hstep.
    pose proof (Forall_lookup_1 _ _ _ _ Hrel Ei) as Hr. simpl in Hr.
    assert (Hgoal : busymap_accounts
              (mkSched (sc_busymap s) (sc_destBusymap s)
                 (<[i := mkRelocator (r_rd r) true Ended]> (sc_relocators s))
                 (if r_signalled r then sc_transferComplete s
                  else sc_transferComplete s ++ [r_rd r]))).
    { split; [done|]. split; [|split].
      - intros id j Hj. simpl. rewrite (Hacc id j Hj). f_equal. symmetry.
        apply outstanding_replace with (r := r); [done|].
        unfold relocatorWorkAt. simpl. destruct (r_signalled r); [done|].
        rewrite fmap_app, sumZ_app. simpl. lia.
      - simpl. by apply Forall_insert_2.
      - simpl. destruct (r_signalled r); [done|].
        apply Forall_app. split; [done|]. by apply Forall_singleton. }
    destruct (r_phase r); try done; injection Hstep as <-; exact Hgoal.
  - (* EvReceiveTransferComplete *)
    destruct (sc_transferComplete s) as [|fin rest] eqn:Etc; [done|].
    unfold complete in Hstep.
    destruct (0 <? workFactor fin); [|done].
    destruct (foldM_opt _ _ _) as [bm|] eqn:Efold; [|done].
    rewrite bind_Some in Hstep.
    destruct (completeDest _ _ _) as [d|]; [|done]. simpl in Hstep.
    injection Hstep as <-.
    change (busymap_removeWork (priority fin) (workFactor fin))
      with (busymap_addWork (priority fin) (- workFactor fin)) in Efold.
    destruct (busymap_addWork_fold _ _ _ _ _ Hwf Efold) as (Hwf' & Hl).
    apply Forall_cons in Htc as [Hd Hrest].
    split; [done|]. split; [|split; done].
    intros id j Hj. simpl. rewrite Hl, (Hacc id j Hj). simpl. f_equal.
    unfold outstandingAt. simpl. rewrite Etc, fmap_cons, sumZ_cons.
    unfold srcWorkAt at 1.
    destruct (Z.of_nat j <=? priority fin ÷ 100); lia.
Qed.

Lemma sched_run_accounts k single evs : forall s s',
  0 < RELOCATION_PARALLELISM_PER_SOURCE_SERVER k -> 0 < single ->
  busymap_accounts s -> sched_run k single s evs = Some s' ->
  busymap_accounts s'.
Proof.
  induction evs as [|ev evs IH]; intros s s' HK Hs Hacc Hrun.
  - by injection Hrun as <-.
  - unfold sched_run in Hrun. rewrite foldM_opt_cons in Hrun.
    destruct (sched_step k single s ev) as [s1|] eqn:E; [|done].
    rewrite bind_Some in Hrun.
    apply (IH s1 s' HK Hs); [|done].
    by apply (sched_step_accounts k single s ev s1).
Qed.

Lemma busymap_accounts_init : busymap_accounts Sched_init.
Proof.
  split; [apply map_Forall_empty|]. split; [|split; constructor].
  intros id i Hi. unfold busy_of, outstandingAt. simpl.
  rewrite lookup_empty. simpl.
  do 10 (destruct i as [|i]; [reflexivity|]). lia.
Qed.

Lemma srcWorkAt_nonneg id i rd : 0 <= workFactor rd -> 0 <= srcWorkAt id i rd.
Proof.
  intros H. unfold srcWorkAt. pose proof (occurrences_nonneg id (src rd)).
  destruct (i <=? priority rd ÷ 100); nia.
Qed.

Lemma srcWorkAt_mono id i rd :
  0 <= workFactor rd -> srcWorkAt id (i + 1) rd <= srcWorkAt id i rd.
Proof.
  intros H. unfold srcWorkAt. pose proof (occurrences_nonneg id (src rd)).
  destruct (Z.leb_spec (i + 1) (priority rd ÷ 100));
    destruct (Z.leb_spec i (priority rd ÷ 100)); nia.
Qed.

Lemma outstandingAt_nonneg s id i :
  Forall (fun r => 0 <= workFactor (r_rd r)) (sc_relocators s) ->
  Forall (fun rd => 0 <= workFactor rd) (sc_transferComplete s) ->
  0 <= outstandingAt s id i.
Proof.
  intros Hr Ht. unfold outstandingAt.
  assert (0 <= sumZ (relocatorWorkAt id i <$> sc_relocators s)).
  { apply sumZ_nonneg, Forall_fmap. eapply Forall_impl; [exact Hr|].
    intros r Hwr. simpl. unfold relocatorWorkAt.
    destruct (r_signalled r); [lia|]. by apply srcWorkAt_nonneg. }
  assert (0 <= sumZ (srcWorkAt id i <$> sc_transferComplete s)).
  { apply sumZ_nonneg, Forall_fmap. eapply Forall_impl; [exact Ht|].
    intros rd Hwr. simpl. by apply srcWorkAt_nonneg. }
  lia.
Qed.

Lemma outstandingAt_mono s id i :
  Forall (fun r => 0 <= workFactor (r_rd r)) (sc_relocators s) ->
  Forall (fun rd => 0 <= workFactor rd) (sc_transferComplete s) ->
  outstandingAt s id (i + 1) <= outstandingAt s id i.
Proof.
  intros Hr Ht. unfold outstandingAt.
  assert (sumZ (relocatorWorkAt id (i + 1) <$> sc_relocators s)
          <= sumZ (relocatorWorkAt id i <$> sc_relocators s)).
  { apply sumZ_le. eapply Forall_impl; [exact Hr|].
    intros r Hwr. simpl. unfold relocatorWorkAt.
    destruct (r_signalled r); [lia|]. by apply srcWorkAt_mono. }
  assert (sumZ (srcWorkAt id (i + 1) <$> sc_transferComplete s)
          <= sumZ (srcWorkAt id i <$> sc_transferComplete s)).
  { apply sumZ_le. eapply Forall_impl; [exact Ht|].
    intros rd Hwr. simpl. by apply srcWorkAt_mono. }
  lia.
Qed.

Lemma ledger_nonincreasing_intro l :
  (forall i x y, l !! i = Some x -> l !! S i = Some y -> y <= x) ->
  ledger_nonincreasing l = true.
Proof.
  induction l as [|x l IH]; intros H; [done|].
  destruct l as [|y l]; [done|].
  change (ledger_nonincreasing (x :: y :: l))
    with ((y <=? x) && ledger_nonincreasing (y :: l)).
  apply andb_true_iff. split.
  - apply Z.leb_le. by apply (H 0%nat).
  - apply IH. intros i a b Ha Hb. by apply (H (S i)).
Qed.

Lemma forallb_nonneg_intro (l : list Z) :
  (forall i x, l !! i = Some x -> 0 <= x) -> forallb (fun x => 0 <=? x) l = true.
Proof.
  intros H. apply forallb_forall. intros x Hx.
  apply list_elem_of_In, list_elem_of_lookup in Hx as [i Hi].
  apply Z.leb_le. by apply (H i).
Qed.

(** The account implies what [validate()] checks of [busymap]. *)
Lemma busymap_accounts_ok s id :
  busymap_accounts s -> ledger_ok (busy_of (sc_busymap s) id) = true.
Proof.
  intros (Hwf & Hacc & Hr & Ht).
  pose proof (busy_of_wf _ id Hwf) as Hlen. unfold Busyness_wf in Hlen.
  unfold ledger_ok. apply andb_true_iff. split.
  - apply ledger_nonincreasing_intro. intros i x y Hx Hy.
    assert (S i < 10)%nat by (rewrite <- Hlen; by eapply lookup_lt_Some).
    rewrite Hacc in Hx by lia. rewrite Hacc in Hy by lia.
    injection Hx as <-. injection Hy as <-.
    replace (Z.of_nat (S i)) with (Z.of_nat i + 1) by lia.
    by apply outstandingAt_mono.
  - apply forallb_nonneg_intro. intros i x Hx.
    assert (i < 10)%nat by (rewrite <- Hlen; by eapply lookup_lt_Some).
    rewrite Hacc in Hx by lia. injection Hx as <-.
    by apply outstandingAt_nonneg.
Qed.

(** Whatever the events, the ledgers of [busymap] are non-increasing and
    non-negative: the source side of the invariant of [validate()] holds. *)
Lemma busymap_ledgers_ok_in_reachable_states k single evs s :
  0 < RELOCATION_PARALLELISM_PER_SOURCE_SERVER k -> 0 < single ->
  sched_run k single Sched_init evs = Some s ->
  Busymap_ok (sc_busymap s).
Proof.
  intros HK Hs Hrun id b Hb.
  replace b with (busy_of (sc_busymap s) id) by (unfold busy_of; by rewrite Hb).
  apply busymap_accounts_ok.
  apply (sched_run_accounts k single evs Sched_init s HK Hs); [|done].
  apply busymap_accounts_init.
Qed.

(** * Part III: the claims *)

(** ** Busyness *)

(** C8.  For a ledger of ten buckets and a priority [p] with
    [0 < p < 1000], [addWork(p, w)] followed by [removeWork(p, w)] succeeds
    and gives back the ledger it started from, whatever the work [w]. *)
Theorem addWork_removeWork_restores_ledger (b : Busyness) (p w : Z) :
  Busyness_wf b -> 0 < p < 1000 ->
  (b' ← addWork b p w; removeWork b' p w) = Some b.
Proof.
  intros Hwf Hp. rewrite addWork_closed by done. rewrite bind_Some.
  unfold removeWork. rewrite addWork_closed; [|unfold Busyness_wf; simpl|done].
  2: { by rewrite length_ledger_shift. }
  destruct b as [l]. simpl. do 2 f_equal.
  apply list_eq. intros i. rewrite !lookup_ledger_shift.
  destruct (l !! i); simpl; [|done]. f_equal. zcmp.
Qed.

Lemma addWork_removeWork_restores_ledger_witness :
  (b' ← addWork (busy_upto7 6000) 709 5000; removeWork b' 709 5000)
  = Some (busy_upto7 6000).
Proof.
  apply (addWork_removeWork_restores_ledger (busy_upto7 6000) 709 5000).
  - reflexivity.
  - lia.
Defined.

(** C10, as stated, fails for [addWork]: at priority 100 the loop also
    writes bucket 0, which is not bucket [100 / 100]. *)
Lemma addWork_touches_lower_buckets :
  ~ (forall p i, 0 < p < 1000 -> i ∈ addWork_indices p -> i = p ÷ 100).
Proof.
  intros H. specialize (H 100 0).
  assert (0 = 100 ÷ 100) as Habs; [|discriminate Habs].
  apply H; [lia|]. vm_compute. apply list_elem_of_here.
Qed.

(** C10, amended.  Under [0 < priority < 1000] and on a ledger of ten
    buckets, [canLaunch] reads bucket [priority / 100], [addWork] and
    [removeWork] touch the buckets [0 .. priority / 100], every such index
    lies in [[0, 9]] and so inside the ledger, and the three functions run
    to completion without an out-of-range access. *)
Theorem ledger_accesses_in_bounds (b : Busyness) (p w : Z) :
  Busyness_wf b -> 0 < p < 1000 ->
  (canLaunch_index p = p ÷ 100 /\
   0 <= canLaunch_index p <= 9 /\
   canLaunch_index p < Z.of_nat (length (ledger b)) /\
   is_Some (canLaunch b p w)) /\
  ((forall i, i ∈ addWork_indices p ->
      0 <= i <= p ÷ 100 /\ i <= 9 /\ i < Z.of_nat (length (ledger b))) /\
   is_Some (addWork b p w)) /\
  ((forall i, i ∈ removeWork_indices p ->
      0 <= i <= p ÷ 100 /\ i <= 9 /\ i < Z.of_nat (length (ledger b))) /\
   is_Some (removeWork b p w)).
Proof.
  intros Hwf Hp. pose proof (prio_bucket_range p Hp) as Hr.
  assert (Hidx : forall i, i ∈ addWork_indices p ->
            0 <= i <= p ÷ 100 /\ i <= 9 /\ i < Z.of_nat (length (ledger b))).
  { intros i Hi. unfold addWork_indices in Hi.
    apply list_elem_of_fmap in Hi as (n & -> & Hn).
    apply list_elem_of_In, in_seq in Hn. rewrite Hwf. lia. }
  repeat split; try (by apply Hidx); unfold canLaunch_index; try lia.
  - rewrite Hwf. lia.
  - destruct (canLaunch_closed b p w Hwf Hp) as (x & _ & ->). eauto.
  - rewrite addWork_closed by done. eauto.
  - unfold removeWork. rewrite addWork_closed by done. eauto.
Qed.

Lemma ledger_accesses_in_bounds_witness :
  is_Some (canLaunch (busy_upto7 6000) 709 5000) /\
  is_Some (addWork (busy_upto7 6000) 709 5000) /\
  is_Some (removeWork (busy_upto7 6000) 709 5000).
Proof.
  destruct (ledger_accesses_in_bounds (busy_upto7 6000) 709 5000)
    as ((_ & _ & _ & H1) & (_ & H2) & (_ & H3)).
  - reflexivity.
  - lia.
  - exact (conj H1 (conj H2 H3)).
Defined.

(** ** Admission on the source servers *)

(** C1.  On a relocation with sources and no work factor yet, and under
    the other conditions the function asserts ([teamSize] at least
    [singleRegionTeamSize], priorities in [(0, 1000)], ledgers of ten
    buckets, non-zero divisors), [canLaunchSrc] returns, and it returns
    [true] exactly when the number of source servers that can admit the
    work factor of the relocation at its priority, once the work of the
    cancellable relocations sourced at the server is taken off its ledger,
    reaches [min(|src|, teamSize - singleRegionTeamSize + 1)], or
    [max(1, |src| - teamSize + 1)] under [USE_OLD_NEEDED_SERVERS]. *)
Theorem canLaunchSrc_iff_enough_servers_admit
    (k : Knobs) (rd : RelocateData) (teamSize singleRegionTeamSize : Z)
    (busymap : Busymap) (cancellableRelocations : list RelocateData) :
  src rd <> [] ->
  workFactor rd = 0 ->
  singleRegionTeamSize <= teamSize ->
  0 < priority rd < 1000 ->
  Forall (fun c => 0 < priority c < 1000) cancellableRelocations ->
  Busymap_wf busymap ->
  RELOCATION_PARALLELISM_PER_SOURCE_SERVER k <> 0 ->
  singleRegionTeamSize <> 0 ->
  let needed :=
    if USE_OLD_NEEDED_SERVERS k
    then Z.max 1 (Z.of_nat (length (src rd)) - teamSize + 1)
    else Z.min (Z.of_nat (length (src rd))) (teamSize - singleRegionTeamSize + 1) in
  exists work busymap',
    getSrcWorkFactor k rd singleRegionTeamSize = Some work /\
    canLaunchSrc k rd teamSize singleRegionTeamSize busymap cancellableRelocations
    = Some (bool_decide
              (needed <= admittingServers busymap cancellableRelocations
                           (priority rd) work (src rd)),
            busymap').
Proof.
  intros Hsrc Hwf0 Hts Hp Hcs Hbm HK Hs needed.
  destruct (getSrcWorkFactor_Some k rd singleRegionTeamSize HK Hs) as [work Hwork].
  pose proof (neededServers_pos k rd teamSize singleRegionTeamSize Hsrc Hts) as Hn.
  destruct (canLaunchSrc_loop_spec (priority rd) work cancellableRelocations Hp Hcs
              (src rd) (neededServers k rd teamSize singleRegionTeamSize) busymap Hn Hbm)
    as [m' Hloop].
  exists work, m'. split; [done|].
  unfold canLaunchSrc. rewrite Hwf0, Hwork.
  assert (Hlen : (Z.of_nat (length (src rd)) =? 0) = false).
  { destruct (src rd); [done|]. simpl length. apply Z.eqb_neq. lia. }
  rewrite Hlen. rewrite (proj2 (Z.leb_le _ _) Hts). simpl.
  rewrite Hloop. do 2 f_equal.
Qed.

Lemma canLaunchSrc_iff_enough_servers_admit_witness :
  exists work busymap',
    getSrcWorkFactor sample_knobs rd_S3 3 = Some work /\
    canLaunchSrc sample_knobs rd_S3 3 3 busymap_S3 []
    = Some (bool_decide
              (Z.min (Z.of_nat (length (src rd_S3))) (3 - 3 + 1)
               <= admittingServers busymap_S3 [] (priority rd_S3) work (src rd_S3)),
            busymap').
Proof.
  apply (canLaunchSrc_iff_enough_servers_admit sample_knobs rd_S3 3 3 busymap_S3 []).
  - discriminate.
  - reflexivity.
  - lia.
  - simpl. lia.
  - apply Forall_nil_2.
  - apply (bool_decide_unpack (Busymap_wf busymap_S3)). vm_compute. exact I.
  - simpl. lia.
  - lia.
Defined.

(** Scenario S3 of the specification.  One server is needed; A is too busy
    for a work factor of 5000, B is not, and the relocation is admitted.
    With all three ledgers at 6000 it is not. *)
Example canLaunchSrc_S3_admitted :
  fst <$> canLaunchSrc sample_knobs rd_S3 3 3 busymap_S3 [] = Some true.
Proof. reflexivity. Qed.

Example canLaunchSrc_S3_rejected :
  fst <$> canLaunchSrc sample_knobs rd_S3 3 3
            (<[serverB := busy_upto7 6000]>
               (<[serverC := busy_upto7 6000]> busymap_S3)) []
  = Some false.
Proof. reflexivity. Qed.

(** The work of a relocation that the launch would cancel does not count:
    server A alone is too busy, and is not once the cancellable relocation
    sourced at A is given. *)
Example canLaunchSrc_counts_cancellable_work_out :
  fst <$> canLaunchSrc sample_knobs rd_fromA 3 3 busymap_S3 [] = Some false /\
  fst <$> canLaunchSrc sample_knobs rd_fromA 3 3 busymap_S3 [rd_cancellable]
  = Some true.
Proof. split; reflexivity. Qed.

(** A failed assertion: [teamSize] below [singleRegionTeamSize]. *)
Example canLaunchSrc_asserts_team_sizes :
  canLaunchSrc sample_knobs rd_S3 2 3 busymap_S3 [] = None.
Proof. reflexivity. Qed.

(** ** Equality of relocations *)

(** C6, as stated, fails: [operator==] does not look at [dataMoveId],
    [completeDests] or [cancellable], so two relocations that differ in
    nothing else are equal. *)
Lemma rd_eq_ignores_three_fields :
  ~ (forall a b, rd_eq a b = true ->
       dataMoveId a = dataMoveId b /\ completeDests a = completeDests b /\
       cancellable a = cancellable b).
Proof.
  intros H.
  destruct (H rd_S3 (set_cancellable false
                       (set_completeDests [serverD]
                          (set_dataMoveId moveD rd_S3)))) as (Habs & _).
  - reflexivity.
  - discriminate Habs.
Qed.

(** C6, amended.  Two relocations are [operator==]-equal exactly when
    they agree on [priority], [boundaryPriority], [healthPriority],
    [reason], [keys], [startTime], [workFactor], [src], [completeSources],
    [wantsNewServers] and [randomId]; the other members are not compared. *)
Theorem rd_eq_compares_eleven_fields (a b : RelocateData) :
  rd_eq a b = true <->
  priority a = priority b /\ boundaryPriority a = boundaryPriority b /\
  healthPriority a = healthPriority b /\ reason a = reason b /\
  keys a = keys b /\ startTime a = startTime b /\
  workFactor a = workFactor b /\ src a = src b /\
  completeSources a = completeSources b /\
  wantsNewServers a = wantsNewServers b /\ randomId a = randomId b.
Proof.
  unfold rd_eq. rewrite !andb_true_iff, !Z.eqb_eq, !bool_decide_eq_true. tauto.
Qed.

(** ** Cancelled data moves *)

(** C5, as stated, fails: when the overlapping entry holds the very
    identifier that is being cancelled, no entry holds a different valid
    identifier, and yet the call records nothing and traces the error. *)
Lemma enqueueCancelledDataMove_same_id_conflicts :
  (forall e, e ∈ intersectingRanges (dataMoves queue_with_moveD) (mkKeyRange "k1" "k5") ->
     DDDataMove_isValid (snd e) = true -> dm_id (snd e) = moveD) /\
  enqueueCancelledDataMove moveD (mkKeyRange "k1" "k5") queue_with_moveD
  = (queue_with_moveD, [ETrace SevError "DDEnqueueCancelledDataMoveConflict"]).
Proof.
  split; [|reflexivity].
  intros e He. change (intersectingRanges (dataMoves queue_with_moveD) (mkKeyRange "k1" "k5"))
    with [(mkKeyRange "k1" "k5", mkDDDataMove moveD None)] in He.
  apply list_elem_of_singleton in He as ->. done.
Qed.

(** C5, amended.  If some entry of [dataMoves] overlapping [range] holds a
    valid identifier, whether or not it differs from [dataMoveId], the call
    traces a [SevError] event and changes nothing: [dataMoves] is as before
    and no [cleanUpDataMove] is started.  Otherwise the call starts
    [cleanUpDataMove] for the identifier and the range and inserts the
    [DDDataMove] holding it over [range]. *)
Theorem enqueueCancelledDataMove_conflict_or_insert
    (dataMoveId : UID) (range : KeyRange) (st : DDQueueData) :
  ((exists e, e ∈ intersectingRanges (dataMoves st) range /\
              DDDataMove_isValid (snd e) = true) ->
   enqueueCancelledDataMove dataMoveId range st
   = (st, [ETrace SevError "DDEnqueueCancelledDataMoveConflict"])) /\
  ((forall e, e ∈ intersectingRanges (dataMoves st) range ->
              DDDataMove_isValid (snd e) = false) ->
   enqueueCancelledDataMove dataMoveId range st
   = (set_dataMoves
        (krm_insert range (mkDDDataMove dataMoveId (Some (dataMoveId, range)))
           (dataMoves st)) st,
      [ECleanUpDataMove dataMoveId range;
       ETrace SevInfo "DDEnqueuedCancelledDataMove"])).
Proof.
  unfold enqueueCancelledDataMove. split.
  - intros (e & He & Hv).
    destruct (List.find _ _) eqn:E; [done|].
    apply find_none_iff with (x := e) in E; [congruence|done].
  - intros H. apply find_none_iff in H. by rewrite H.
Qed.

Lemma enqueueCancelledDataMove_conflict_or_insert_witness :
  enqueueCancelledDataMove moveD (mkKeyRange "k1" "k5") queue_with_moveD
  = (queue_with_moveD, [ETrace SevError "DDEnqueueCancelledDataMoveConflict"]) /\
  enqueueCancelledDataMove moveD (mkKeyRange "k1" "k5") (DDQueueData_new sample_knobs 3 3)
  = (set_dataMoves
       (krm_insert (mkKeyRange "k1" "k5")
          (mkDDDataMove moveD (Some (moveD, mkKeyRange "k1" "k5")))
          (dataMoves (DDQueueData_new sample_knobs 3 3)))
       (DDQueueData_new sample_knobs 3 3),
     [ECleanUpDataMove moveD (mkKeyRange "k1" "k5");
      ETrace SevInfo "DDEnqueuedCancelledDataMove"]).
Proof.
  split.
  - apply (proj1 (enqueueCancelledDataMove_conflict_or_insert moveD
                    (mkKeyRange "k1" "k5") queue_with_moveD)).
    exists (mkKeyRange "k1" "k5", mkDDDataMove moveD None). split.
    + vm_compute. apply list_elem_of_here.
    + reflexivity.
  - apply (proj2 (enqueueCancelledDataMove_conflict_or_insert moveD
                    (mkKeyRange "k1" "k5") (DDQueueData_new sample_knobs 3 3))).
    intros e He. vm_compute in He.
    apply list_elem_of_singleton in He as ->. reflexivity.
Defined.

(** ** The candidates of [launchQueuedWork(serversToLaunchFrom)] *)

(** C9.  The overload of [launchQueuedWork] that takes the set of source
    servers runs the launch loop on a candidate set built from the first
    [teamSize] entries of the queue of each listed server.  Every member
    of the candidate set comes from such a prefix; a relocation that is
    not among the first [teamSize] entries of the queue of any listed
    server is not a candidate of that pass; every relocation among the
    first [teamSize] entries of the queue of a listed server is a
    candidate, or an element the same for the order is, the candidates
    being a set; and in a queue in the order of [operator>] the first
    [teamSize] entries rank above all the others: by priority, the larger
    first, then by [startTime], the smaller first, then by [randomId], the
    larger first. *)
Theorem launchQueuedWork_servers_candidates
    (k : Knobs) (newId : KeyRange -> UID) (st : DDQueueData)
    (serversToLaunchFrom : list UID) :
  let heads id := take (Z.to_nat (teamSize st)) (default [] (queue st !! id)) in
  let tails id := drop (Z.to_nat (teamSize st)) (default [] (queue st !! id)) in
  let combined := (combineFromServers (teamSize st) (queue st) serversToLaunchFrom).1 in
  let q := (combineFromServers (teamSize st) (queue st) serversToLaunchFrom).2 in
  launchQueuedWork_servers k newId st serversToLaunchFrom
  = launchQueuedWork k newId (set_queue q st) combined /\
  (forall rd, rd ∈ combined -> exists id, id ∈ serversToLaunchFrom /\ rd ∈ heads id) /\
  (forall rd, (forall id, id ∈ serversToLaunchFrom -> rd ∉ heads id) -> rd ∉ combined) /\
  (forall id rd, id ∈ serversToLaunchFrom -> rd ∈ heads id ->
     rdset_count rd combined = true) /\
  (forall id rd rd', rdset_sorted (default [] (queue st !! id)) ->
     rd ∈ heads id -> rd' ∈ tails id ->
     priority rd' < priority rd \/
     (priority rd = priority rd' /\
      (startTime rd < startTime rd' \/
       (startTime rd = startTime rd' /\
        UID_gt (randomId rd) (randomId rd') = true)))).
Proof.
  intros heads tails combined q.
  assert (Hsub : forall rd, rd ∈ combined ->
            exists id, id ∈ serversToLaunchFrom /\ rd ∈ heads id).
  { intros rd Hrd. unfold combined, combineFromServers in Hrd.
    apply combineFromServers_elem in Hrd as [Hrd|Hrd]; [|done].
    by apply not_elem_of_nil in Hrd. }
  split; [|split; [done|split; [|split]]].
  - unfold launchQueuedWork_servers, combined, q.
    by destruct (combineFromServers _ _ _).
  - intros rd Hnot Hrd. destruct (Hsub rd Hrd) as (id & Hid & Hin).
    by apply (Hnot id).
  - intros id rd Hid Hrd. unfold combined, combineFromServers.
    apply combineFromServers_count. right. by exists id.
  - intros id rd rd' Hs Hrd Hrd'. apply rd_gt_spec.
    by apply (rdset_sorted_take_drop (default [] (queue st !! id))
                (Z.to_nat (teamSize st))).
Qed.

Lemma launchQueuedWork_servers_candidates_witness :
  (rd_third ∉ (combineFromServers 2 queue_of_A [serverA]).1) /\
  rdset_count rd_second (combineFromServers 2 queue_of_A [serverA]).1 = true /\
  (priority rd_third < priority rd_second \/
   (priority rd_second = priority rd_third /\
    (startTime rd_second < startTime rd_third \/
     (startTime rd_second = startTime rd_third /\
      UID_gt (randomId rd_second) (randomId rd_third) = true)))).
Proof.
  split; [|split].
  - apply (proj1 (proj2 (proj2 (launchQueuedWork_servers_candidates sample_knobs
                                  (fun _ => moveD)
                                  (set_queue queue_of_A (DDQueueData_new sample_knobs 2 2))
                                  [serverA]))) rd_third).
    intros id Hid. apply list_elem_of_singleton in Hid as ->.
    vm_compute. intros H.
    apply elem_of_cons in H as [H|H]; [discriminate H|].
    apply list_elem_of_singleton in H. discriminate H.
  - apply (proj1 (proj2 (proj2 (proj2 (launchQueuedWork_servers_candidates sample_knobs
                                  (fun _ => moveD)
                                  (set_queue queue_of_A (DDQueueData_new sample_knobs 2 2))
                                  [serverA])))) serverA rd_second).
    + apply list_elem_of_here.
    + vm_compute. apply list_elem_of_further, list_elem_of_here.
  - apply (proj2 (proj2 (proj2 (proj2 (launchQueuedWork_servers_candidates sample_knobs
                                  (fun _ => moveD)
                                  (set_queue queue_of_A (DDQueueData_new sample_knobs 2 2))
                                  [serverA])))) serverA rd_second rd_third).
    + vm_compute. repeat (constructor; try reflexivity).
    + vm_compute. apply list_elem_of_further, list_elem_of_here.
    + vm_compute. apply list_elem_of_here.
Defined.

(** With [teamSize = 2], the third relocation queued on server A is not a
    candidate, the first two are. *)
Example launchQueuedWork_servers_candidates_example :
  (combineFromServers 2 queue_of_A [serverA]).1 = [rd_first; rd_second].
Proof. reflexivity. Qed.

(** ** Relocations kept waiting by an in-flight entry *)

(** C2.  In a turn of the loop of [launchQueuedWork] on a candidate [rd]
    that is not a restore: when some entry of [inFlight] overlapping
    [rd.keys] is in [fetchKeysComplete], has a live actor at the start of
    its range, is not contained in [rd.keys] and has a priority at least
    [rd.priority], and [rd.healthPriority < PRIORITY_TEAM_UNHEALTHY], the
    turn changes nothing, neither the queue nor the effects, and the loop
    goes on with the other candidates from the same state.  When there is
    no such entry the turn is the admission check and what follows it:
    [canLaunchSrc] is asked about [rd], the sizes of the teams, [busymap]
    and the cancellable relocations in flight inside [rd.keys]; the turn
    fails when [canLaunchSrc] does; when it refuses, the turn leaves [rd]
    queued, changes nothing but the ledgers [canLaunchSrc] has created in
    [busymap], and the loop goes on; when it admits and the turn returns,
    [rd] has left the queue: [queuedRelocations] is one less, [rd] is
    erased from the queue of each of its sources, one relocation is active
    for each range the insertion of [rd.keys] affects, and the effects are
    the former ones, the trace of the change of the queue and those of the
    launch. *)
Theorem launchOne_skips_blocked_candidate
    (k : Knobs) (newId : KeyRange -> UID) (st : DDQueueData) (eff : list Effect)
    (rd : RelocateData) (others : list RelocateData) :
  let blocked :=
    exists e, e ∈ inFlight st /\
      KeyRange_intersects (fst e) (keys rd) = true /\
      rdset_count (snd e) (fetchKeysComplete st) = true /\
      liveActorAt (inFlightActors st) (kr_begin (fst e)) = true /\
      KeyRange_contains (keys rd) (fst e) = false /\
      priority rd <= priority (snd e) /\
      healthPriority rd < PRIORITY_TEAM_UNHEALTHY k in
  let admission :=
    canLaunchSrc k rd (teamSize st) (singleRegionTeamSize st) (busymap st)
      (cancellableRelocations st rd) in
  (blocked -> isRestore rd = false ->
     launchOne k newId (st, eff) rd = Some (st, eff) /\
     foldM_opt (launchOne k newId) (st, eff) (rd :: others)
     = foldM_opt (launchOne k newId) (st, eff) others) /\
  (~ blocked ->
     launchOne k newId (st, eff) rd = launchAdmitted k newId st eff rd) /\
  (~ blocked -> isRestore rd = false -> admission = None ->
     launchOne k newId (st, eff) rd = None) /\
  (~ blocked -> isRestore rd = false ->
     forall bm, admission = Some (false, bm) ->
       launchOne k newId (st, eff) rd = Some (set_busymap bm st, eff) /\
       foldM_opt (launchOne k newId) (st, eff) (rd :: others)
       = foldM_opt (launchOne k newId) (set_busymap bm st, eff) others) /\
  (~ blocked -> isRestore rd = false ->
     forall bm st' eff', admission = Some (true, bm) ->
       launchOne k newId (st, eff) rd = Some (st', eff') ->
       queuedRelocations st' = queuedRelocations st - 1 /\
       foldM_opt (queue_erase_assert rd) (queue st) (src rd) = Some (queue st') /\
       activeRelocations st'
       = activeRelocations st
         + Z.of_nat (length (getRangesAffectedByInsertion (inFlightActors st)
                               (keys rd))) /\
       exists launched,
         eff' = eff ++ ETrace SevVerbose "QueuedRelocationsChanged" :: launched).
Proof.
  intros blocked admission.
  assert (Hiff : overlappingInFlight k st rd = true <-> blocked).
  { rewrite overlappingInFlight_iff. unfold blocked.
    split; intros (e & Hin & Hi & Hb); exists e.
    - apply blocksLaunch_iff in Hb. tauto.
    - split; [done|]. split; [done|]. apply blocksLaunch_iff. tauto. }
  assert (Hnot : ~ blocked ->
            launchOne k newId (st, eff) rd = launchAdmitted k newId st eff rd).
  { intros Hnb. unfold launchOne.
    destruct (overlappingInFlight k st rd) eqn:E; [|done].
    exfalso. apply Hnb. by apply Hiff. }
  split; [|split; [done|split; [|split]]].
  - intros Hb Hr. apply Hiff in Hb.
    assert (H1 : launchOne k newId (st, eff) rd = Some (st, eff)).
    { unfold launchOne. by rewrite Hb, Hr. }
    split; [done|]. by rewrite foldM_opt_cons, H1, bind_Some.
  - intros Hnb Hr Hadm. rewrite (Hnot Hnb).
    pose proof (launchAdmitted_decision k newId st eff rd Hr) as H.
    fold admission in H. by rewrite Hadm in H.
  - intros Hnb Hr bm Hadm.
    assert (H1 : launchOne k newId (st, eff) rd = Some (set_busymap bm st, eff)).
    { rewrite (Hnot Hnb).
      pose proof (launchAdmitted_decision k newId st eff rd Hr) as H.
      fold admission in H. by rewrite Hadm in H. }
    split; [done|]. by rewrite foldM_opt_cons, H1, bind_Some.
  - intros Hnb Hr bm st' eff' Hadm Hrun. rewrite (Hnot Hnb) in Hrun.
    pose proof (launchAdmitted_decision k newId st eff rd Hr) as H.
    fold admission in H. rewrite Hadm in H. by apply H.
Qed.

Lemma launchOne_skips_blocked_candidate_witness :
  launchOne sample_knobs (fun _ => moveD) (queue_with_inflight, []) rd_waiting
  = Some (queue_with_inflight, []) /\
  exists st' eff',
    launchOne sample_knobs newId_S1 (queue_queued_R1, []) results_R1
    = Some (st', eff') /\
    queuedRelocations st' = queuedRelocations queue_queued_R1 - 1 /\
    foldM_opt (queue_erase_assert results_R1) (queue queue_queued_R1)
      (src results_R1) = Some (queue st') /\
    activeRelocations st'
    = activeRelocations queue_queued_R1
      + Z.of_nat (length (getRangesAffectedByInsertion
                            (inFlightActors queue_queued_R1) (keys results_R1))) /\
    exists launched,
      eff' = [] ++ ETrace SevVerbose "QueuedRelocationsChanged" :: launched.
Proof.
  split.
  - apply (proj1 (launchOne_skips_blocked_candidate sample_knobs (fun _ => moveD)
                    queue_with_inflight [] rd_waiting [])).
    + exists (mkKeyRange "k1" "k9", rd_inflight).
      split; [apply list_elem_of_further, list_elem_of_here|].
      repeat split; try reflexivity; vm_compute; congruence.
    + reflexivity.
  - eexists. eexists. split; [vm_compute; reflexivity|].
    eapply (proj2 (proj2 (proj2 (proj2
              (launchOne_skips_blocked_candidate sample_knobs newId_S1
                 queue_queued_R1 [] results_R1 []))))).
    + intros (e & _ & _ & Hc & _). vm_compute in Hc. discriminate Hc.
    + reflexivity.
    + vm_compute. reflexivity.
    + vm_compute. reflexivity.
Defined.

(** ** What a new relocation inherits from the queued ones *)

(** C3.  In the scan of [queueRelocation(rs)] over the entries of
    [queueMap] intersecting the keys of the new relocation, when the scan
    reaches an entry [rrs] that is active (found in [fetchingSourcesQueue],
    or in the queue of its first source), the turn succeeds and leaves in
    [rd]: [wantsNewServers] or-ed with that of [rrs], the smaller of the two
    [startTime]s, [healthPriority] (and [boundaryPriority]) raised to the
    maximum of its value and that of [rrs] unless the priority of [rs] is
    itself a health (boundary) priority, and as [priority] the maximum of
    its value and the new [boundaryPriority] and [healthPriority]. *)
Theorem queueRelocation_scan_inherits
    (k : Knobs) (rs : RelocateShard) (now : Z) (rid : UID) (st : DDQueueData)
    (servers : list UID) (before after : list RelocateData) (rrs : RelocateData)
    (rd0 : RelocateData) (st0 : DDQueueData) (servers0 : list UID)
    (eff0 : list Effect) :
  let visit := queueRelocation_visit k (isHealthPriority k (rs_priority rs))
                 (isBoundaryPriority k (rs_priority rs)) in
  let start := (RelocateData_of k rs now rid, st, servers, []) in
  snd <$> intersectingRanges (queueMap st) (rs_keys rs) = before ++ rrs :: after ->
  foldM_opt visit start before = Some (rd0, st0, servers0, eff0) ->
  activeEntry st0 rrs ->
  (countsAsUnhealthy k (healthPriority rrs) = true -> 1 <= unhealthyRelocations st0) ->
  exists rd1 st1 servers1 eff1,
    foldM_opt visit start (before ++ [rrs]) = Some (rd1, st1, servers1, eff1) /\
    queueRelocation_scan k rs now rid st servers
    = foldM_opt visit (rd1, st1, servers1, eff1) after /\
    wantsNewServers rd1 = wantsNewServers rd0 || wantsNewServers rrs /\
    startTime rd1 = Z.min (startTime rd0) (startTime rrs) /\
    healthPriority rd1
    = (if isHealthPriority k (rs_priority rs) then healthPriority rd0
       else Z.max (healthPriority rd0) (healthPriority rrs)) /\
    boundaryPriority rd1
    = (if isBoundaryPriority k (rs_priority rs) then boundaryPriority rd0
       else Z.max (boundaryPriority rd0) (boundaryPriority rrs)) /\
    priority rd1
    = Z.max (priority rd0) (Z.max (boundaryPriority rd1) (healthPriority rd1)).
Proof.
  intros visit start Hlist Hbefore Hact Hun.
  destruct (queueRelocation_visit_active k (isHealthPriority k (rs_priority rs))
              (isBoundaryPriority k (rs_priority rs)) rd0 st0 servers0 eff0 rrs Hact Hun)
    as (st1 & servers1 & eff1 & Hvisit).
  exists (inheritFrom (isHealthPriority k (rs_priority rs))
            (isBoundaryPriority k (rs_priority rs)) rd0 rrs), st1, servers1, eff1.
  assert (Hstep : foldM_opt visit start (before ++ [rrs])
                  = Some (inheritFrom (isHealthPriority k (rs_priority rs))
                            (isBoundaryPriority k (rs_priority rs)) rd0 rrs,
                          st1, servers1, eff1)).
  { rewrite foldM_opt_app, Hbefore, bind_Some, foldM_opt_cons.
    unfold visit. rewrite Hvisit. done. }
  split; [done|]. split.
  - unfold queueRelocation_scan.
    change (priority (RelocateData_of k rs now rid)) with (rs_priority rs).
    change (keys (RelocateData_of k rs now rid)) with (rs_keys rs).
    rewrite Hlist.
    replace (before ++ rrs :: after) with ((before ++ [rrs]) ++ after)
      by (by rewrite <- app_assoc).
    fold visit. fold start. rewrite foldM_opt_app, Hstep. done.
  - unfold inheritFrom.
    destruct (isHealthPriority k (rs_priority rs));
      destruct (isBoundaryPriority k (rs_priority rs)); simpl; done.
Qed.

Lemma queueRelocation_scan_inherits_witness :
  exists rd1 st1 servers1 eff1,
    queueRelocation_scan sample_knobs rs_R2 20 (5%N, 0%N) queue_S2 []
    = Some (rd1, st1, servers1, eff1) /\
    wantsNewServers rd1 = true /\ startTime rd1 = 3 /\
    healthPriority rd1 = 140 /\ boundaryPriority rd1 = 950 /\ priority rd1 = 950.
Proof.
  destruct (queueRelocation_scan_inherits sample_knobs rs_R2 20 (5%N, 0%N) queue_S2 []
              [] [] rd_R1 (RelocateData_of sample_knobs rs_R2 20 (5%N, 0%N))
              queue_S2 [] [])
    as (rd1 & st1 & servers1 & eff1 & _ & Hscan & Hw & Ht & Hh & Hb & Hp).
  - reflexivity.
  - reflexivity.
  - left. reflexivity.
  - simpl. discriminate.
  - exists rd1, st1, servers1, eff1.
    split; [exact Hscan|].
    rewrite Hp, Hb, Hh, Ht, Hw. repeat split; reflexivity.
Defined.

(** ** Disk rebalancing *)

(** C7, as stated, fails twice.  On [input_shard_gone] the teams are not
    too similar and the shard is not empty, and yet nothing is sent: the
    shard has left the source team.  On [input_early_stop] the first shard
    drawn, of 2000 bytes, is kept and sent although the next draw would
    have given a shard of 9000 bytes: the sampling stops at the first shard
    above the average. *)
Lemma rebalanceTeams_not_largest_nor_always_sent :
  (let p := pickShard input_shard_gone
              (Z.to_nat (REBALANCE_MAX_RETRIES sample_knobs)) pickStart in
   ~ (sourceBytes input_shard_gone - destBytes input_shard_gone
      <= 3 * Z.max (MIN_SHARD_BYTES sample_knobs) (metricsBytes p)) /\
   metricsBytes p <> 0 /\
   rebalanceTeams sample_knobs input_shard_gone DMR_REBALANCE_OVERUTILIZED_TEAM
   = (false, [EGetAverageShardBytes; EGetShardMetrics shard1])) /\
  (rebalanceTeams sample_knobs input_early_stop DMR_REBALANCE_OVERUTILIZED_TEAM
   = (true, [EGetAverageShardBytes; EGetShardMetrics shard1;
             EOutput (RelocateShard_new sample_knobs shard1
                        DMR_REBALANCE_OVERUTILIZED_TEAM RR_REBALANCE_DISK)]) /\
   shardBytes input_early_stop 0 (randomChoice input_early_stop 0)
   < shardBytes input_early_stop 1 (randomChoice input_early_stop 1)).
Proof.
  split; [|split; [reflexivity|vm_compute; reflexivity]].
  cbn zeta. split; [|split; [|reflexivity]].
  - vm_compute. intros H. apply H. reflexivity.
  - vm_compute. discriminate.
Qed.

(** C7, amended.  Outside a sped-up simulation, [rebalanceTeams] requests
    the average shard size and, when the source team has shards, draws
    shards of the team at random, at most [REBALANCE_MAX_RETRIES] of them,
    keeping the largest seen so far and stopping at the first one larger
    than the average; the shard kept is the largest of those drawn, none
    when all are empty.  If
    [sourceBytes - destBytes <= 3 * max(MIN_SHARD_BYTES, shardBytes)] or
    [shardBytes == 0] it sends nothing and returns [false]; otherwise it
    sends a [RelocateShard] for the shard kept, with reason
    [REBALANCE_DISK], and returns [true], provided the shard is still one of
    the source team; when it is not, it sends nothing and returns [false].
    In a sped-up simulation, and when the source team has no shard, it
    returns [false] at once. *)
Theorem rebalanceTeams_decision
    (k : Knobs) (inp : RebalanceInput) (moveReason : DataMovementReason) :
  let maxTries := Z.to_nat (REBALANCE_MAX_RETRIES k) in
  let p := pickShard inp maxTries pickStart in
  let tooSimilar :=
    sourceBytes inp - destBytes inp <= 3 * Z.max (MIN_SHARD_BYTES k) (metricsBytes p) in
  let requests := EGetAverageShardBytes :: metricsRequests inp (tries p) in
  let out := EOutput (RelocateShard_new k (moveShard p) moveReason RR_REBALANCE_DISK) in
  ((tries p <= maxTries)%nat /\
   (forall i, (i < tries p)%nat -> shardBytes inp i (randomChoice inp i) <= metricsBytes p) /\
   ((moveShard p = mkKeyRange "" "" /\ metricsBytes p = 0) \/
    (exists i, (i < tries p)%nat /\ moveShard p = randomChoice inp i /\
       metricsBytes p = shardBytes inp i (randomChoice inp i))) /\
   ((tries p < maxTries)%nat ->
      averageShardBytes inp < metricsBytes p /\
      moveShard p = randomChoice inp (tries p - 1)) /\
   (forall i, (S i < tries p)%nat ->
      shardBytes inp i (randomChoice inp i) <= Z.max 0 (averageShardBytes inp))) /\
  (speedUpSimulation inp = true -> rebalanceTeams k inp moveReason = (false, [])) /\
  (speedUpSimulation inp = false -> shardsBefore inp = [] ->
     rebalanceTeams k inp moveReason = (false, [EGetAverageShardBytes])) /\
  (speedUpSimulation inp = false -> shardsBefore inp <> [] ->
     (tooSimilar \/ metricsBytes p = 0 ->
        rebalanceTeams k inp moveReason = (false, requests)) /\
     (~ tooSimilar -> metricsBytes p <> 0 -> moveShard p ∈ shardsAfter inp ->
        rebalanceTeams k inp moveReason = (true, requests ++ [out])) /\
     (~ tooSimilar -> metricsBytes p <> 0 -> moveShard p ∉ shardsAfter inp ->
        rebalanceTeams k inp moveReason = (false, requests))).
Proof.
  intros maxTries p tooSimilar requests out.
  split; [|split; [|split]].
  - destruct (pickShard_spec inp maxTries pickStart)
      as (Ht & _ & Hall & Hsel & Hstop & Hbefore).
    fold p in Ht, Hall, Hsel, Hstop, Hbefore. simpl in Ht, Hsel, Hstop, Hbefore.
    split; [lia|]. split; [intros i Hi; apply Hall; simpl; lia|].
    split; [|split].
    + destruct Hsel as [H|(i & Hi & H)]; [by left|].
      right. exists i. split; [lia|done].
    + intros Hlt. destruct (Hstop Hlt) as (H1 & H2 & _). done.
    + intros i Hi. apply Hbefore; [lia|done].
  - intros Hs. unfold rebalanceTeams. by rewrite Hs.
  - intros Hs He. unfold rebalanceTeams. by rewrite Hs, He.
  - intros Hs Hne. unfold rebalanceTeams. rewrite Hs.
    destruct (shardsBefore inp) as [|sh shs] eqn:Esh; [done|].
    fold maxTries. fold p. fold requests. fold out.
    split; [|split].
    + intros [Hsim|Hz].
      * destruct (Z.leb_spec (sourceBytes inp - destBytes inp)
                    (3 * Z.max (MIN_SHARD_BYTES k) (metricsBytes p))); [done|].
        unfold tooSimilar in Hsim. lia.
      * rewrite Hz. simpl. by rewrite orb_true_r.
    + intros Hsim Hz Hin.
      destruct (Z.leb_spec (sourceBytes inp - destBytes inp)
                  (3 * Z.max (MIN_SHARD_BYTES k) (metricsBytes p))); [done|].
      destruct (Z.eqb_spec (metricsBytes p) 0); [done|]. simpl.
      by rewrite (proj2 (existsb_bool_decide_elem _ _) Hin).
    + intros Hsim Hz Hin.
      destruct (Z.leb_spec (sourceBytes inp - destBytes inp)
                  (3 * Z.max (MIN_SHARD_BYTES k) (metricsBytes p))); [done|].
      destruct (Z.eqb_spec (metricsBytes p) 0); [done|]. simpl.
      destruct (existsb _ _) eqn:E; [|done].
      by apply existsb_bool_decide_elem in E.
Qed.

Lemma rebalanceTeams_decision_witness :
  rebalanceTeams sample_knobs input_shard_gone DMR_REBALANCE_OVERUTILIZED_TEAM
  = (false, EGetAverageShardBytes ::
            metricsRequests input_shard_gone
              (tries (pickShard input_shard_gone
                        (Z.to_nat (REBALANCE_MAX_RETRIES sample_knobs)) pickStart))).
Proof.
  destruct (rebalanceTeams_decision sample_knobs input_shard_gone
              DMR_REBALANCE_OVERUTILIZED_TEAM) as (_ & _ & _ & H).
  destruct H as (_ & _ & H).
  - reflexivity.
  - discriminate.
  - apply H.
    + vm_compute. intros Hle. apply Hle. reflexivity.
    + vm_compute. discriminate.
    + apply not_elem_of_nil.
Defined.

(** ** The ledgers under the events of the scheduler *)

(** C4 fails on [destBusymap].  After a relocation has signalled the end of
    its transfer, the main loop takes its work off the destination servers
    ([complete]); when [moveKeys] then fails with [move_to_removed_server],
    the relocator takes the same work off a second time ([completeDest]).
    On [events_to_removed] the ledger of server D ends at [-1000] in the
    buckets [0 .. 7]: negative, and below the buckets above. *)
Theorem destBusymap_negative_after_move_to_removed_server :
  exists s,
    sched_run sample_knobs 3 Sched_init events_to_removed = Some s /\
    ledger (busy_of (sc_destBusymap s) serverD)
    = [-1000; -1000; -1000; -1000; -1000; -1000; -1000; -1000; 0; 0] /\
    ledger_ok (busy_of (sc_destBusymap s) serverD) = false /\
    ledger_ok (busy_of (sc_busymap s) serverA) = true.
Proof.
  eexists. split; [vm_compute; reflexivity|].
  split; [reflexivity|]. split; reflexivity.
Qed.

(** * Part IV: further properties *)

(** ** The source ledgers under the events of the scheduler *)


(** The ledgers of [busymap] under the events of the scheduler.  With a
    positive [RELOCATION_PARALLELISM_PER_SOURCE_SERVER] and a positive
    [singleRegionTeamSize], whatever the events the scheduler runs from a
    queue with nothing launched, every ledger of [busymap] is
    non-increasing and non-negative. *)
Theorem busymap_ok_under_scheduler_events
    (k : Knobs) (singleRegionTeamSize : Z) (evs : list SchedEvent) (s : Sched) :
  0 < RELOCATION_PARALLELISM_PER_SOURCE_SERVER k -> 0 < singleRegionTeamSize ->
  sched_run k singleRegionTeamSize Sched_init evs = Some s ->
  Busymap_ok (sc_busymap s) /\
  forall id, ledger_ok (busy_of (sc_busymap s) id) = true.
Proof.
  intros HK Hs Hrun. split.
  - by apply (busymap_ledgers_ok_in_reachable_states k singleRegionTeamSize evs).
  - intros id. apply busymap_accounts_ok.
    apply (sched_run_accounts k singleRegionTeamSize evs Sched_init s HK Hs); [|done].
    apply busymap_accounts_init.
Qed.

Lemma busymap_ok_under_scheduler_events_witness :
  exists s, sched_run sample_knobs 3 Sched_init events_to_removed = Some s /\
            Busymap_ok (sc_busymap s).
Proof.
  eexists. split; [vm_compute; reflexivity|].
  apply (busymap_ok_under_scheduler_events sample_knobs 3 events_to_removed).
  - simpl. lia.
  - lia.
  - vm_compute. reflexivity.
Defined.

(** Two insertions into the empty set, in the order of [operator>]. *)
Lemma rdset_insert_sorted_witness :
  rdset_sorted (rdset_insert rd_second (rdset_insert rd_first [])).
Proof.
  apply (rdset_insert_sorted rd_second (rdset_insert rd_first [])).
  apply (rdset_insert_sorted rd_first []).
  constructor.
Defined.

(** ** Admission on the destination servers *)

Lemma Busyness_eq_lookup (b b' : Busyness) :
  (forall i : nat, ledger b !! i = ledger b' !! i) -> b = b'.
Proof.
  destruct b as [l], b' as [l']. simpl. intros H. f_equal. by apply list_eq.
Qed.

Lemma forallb_pointwise {A : Type} (f g : A -> bool) (l : list A) :
  (forall x, f x = g x) -> forallb f l = forallb g l.
Proof. intros H. induction l as [|x l IH]; simpl; [done|]. by rewrite H, IH. Qed.

Lemma canLaunch_level (m : Busymap) id prio work :
  Busymap_wf m -> 0 < prio < 1000 ->
  canLaunch (busy_of m id) prio work
  = Some (levelAt m id prio <=? WORK_FULL_UTILIZATION - work).
Proof.
  intros Hwf Hp.
  destruct (canLaunch_closed (busy_of m id) prio work) as (x & Hx & ->);
    [by apply busy_of_wf|done|].
  unfold levelAt. by rewrite Hx.
Qed.

Lemma levelAt_ext (m m' : Busymap) id prio :
  busy_of m' id = busy_of m id -> levelAt m' id prio = levelAt m id prio.
Proof. unfold levelAt. by intros ->. Qed.

Lemma canLaunchDest_loop_spec prio work : forall ids (m : Busymap),
  Busymap_wf m -> 0 < prio < 1000 ->
  exists m', canLaunchDest_loop prio work ids m
             = Some (forallb (fun id => levelAt m id prio
                                        <=? WORK_FULL_UTILIZATION - work) ids, m') /\
             (forall id, busy_of m' id = busy_of m id) /\ Busymap_wf m'.
Proof.
  induction ids as [|id ids IH]; intros m Hwf Hp; simpl.
  - by exists m.
  - destruct (busymap_at_spec m id) as (m1 & Hat & Hext & Hwf1).
    rewrite Hat, canLaunch_level, bind_Some by done.
    destruct (levelAt m id prio <=? WORK_FULL_UTILIZATION - work); simpl.
    + destruct (IH m1 (Hwf1 Hwf) Hp) as (m' & -> & Hext' & Hwf').
      exists m'. split; [|split; [|done]].
      * do 2 f_equal. apply forallb_pointwise. intros x.
        by rewrite (levelAt_ext m m1) by apply Hext.
      * intros x. by rewrite Hext'.
    + exists m1. auto.
Qed.

(** [canLaunchDest].  On well-formed ledgers and at a priority in
    (0, 1000) the function returns; it leaves every ledger as it was; and
    it returns true exactly when [RELOCATION_PARALLELISM_PER_DEST_SERVER]
    is not positive or, for every server of every candidate team, the
    bucket of the band of the priority is at most
    [WORK_FULL_UTILIZATION] minus the destination work factor. *)
Theorem canLaunchDest_iff_every_server_admits
    (k : Knobs) (candidateTeams : CandidateTeams) (prio : Z) (busymapDest : Busymap) :
  Busymap_wf busymapDest -> 0 < prio < 1000 ->
  exists ok m',
    canLaunchDest k candidateTeams prio busymapDest = Some (ok, m') /\
    (forall id, busy_of m' id = busy_of busymapDest id) /\
    (ok = true <->
     RELOCATION_PARALLELISM_PER_DEST_SERVER k <= 0 \/
     forall id, id ∈ teamServers candidateTeams ->
       levelAt busymapDest id prio
       <= WORK_FULL_UTILIZATION
          - WORK_FULL_UTILIZATION ÷ RELOCATION_PARALLELISM_PER_DEST_SERVER k).
Proof.
  intros Hwf Hp. unfold canLaunchDest.
  destruct (Z.leb_spec (RELOCATION_PARALLELISM_PER_DEST_SERVER k) 0) as [HK|HK].
  - exists true, busymapDest. split; [done|]. split; [done|]. split; auto.
  - unfold getDestWorkFactor, int_div.
    destruct (Z.eqb_spec (RELOCATION_PARALLELISM_PER_DEST_SERVER k) 0); [lia|].
    rewrite bind_Some.
    destruct (canLaunchDest_loop_spec prio
                (WORK_FULL_UTILIZATION ÷ RELOCATION_PARALLELISM_PER_DEST_SERVER k)
                (teamServers candidateTeams) busymapDest Hwf Hp)
      as (m' & -> & Hext & _).
    eexists _, m'. split; [done|]. split; [done|].
    rewrite forallb_forall. split.
    + intros H. right. intros id Hid. apply Z.leb_le, H. by apply list_elem_of_In.
    + intros [H|H]; [lia|]. intros id Hid. apply Z.leb_le, H. by apply list_elem_of_In.
Qed.

Lemma canLaunchDest_iff_every_server_admits_witness :
  exists ok m',
    canLaunchDest sample_knobs teams_CD 709 busymap_S3 = Some (ok, m') /\
    (forall id, busy_of m' id = busy_of busymap_S3 id) /\
    (ok = true <->
     RELOCATION_PARALLELISM_PER_DEST_SERVER sample_knobs <= 0 \/
     forall id, id ∈ teamServers teams_CD ->
       levelAt busymap_S3 id 709
       <= WORK_FULL_UTILIZATION
          - WORK_FULL_UTILIZATION ÷ RELOCATION_PARALLELISM_PER_DEST_SERVER sample_knobs).
Proof.
  apply (canLaunchDest_iff_every_server_admits sample_knobs teams_CD 709 busymap_S3).
  - apply (bool_decide_unpack (Busymap_wf busymap_S3)). vm_compute. exact I.
  - lia.
Defined.

(** ** Work added to the ledgers and taken off again *)

Lemma busymap_addWork_Some (prio work : Z) (m : Busymap) (id : UID) :
  Busymap_wf m -> 0 < prio < 1000 ->
  exists m', busymap_addWork prio work m id = Some m'.
Proof.
  intros Hwf Hp. unfold busymap_addWork.
  destruct (busymap_at_spec m id) as (m1 & -> & _ & _).
  rewrite addWork_closed by (by apply busy_of_wf || done). by eexists.
Qed.

Lemma busymap_addWork_fold_Some (prio work : Z) (ids : list UID) : forall m : Busymap,
  Busymap_wf m -> (ids <> [] -> 0 < prio < 1000) ->
  exists m', foldM_opt (busymap_addWork prio work) m ids = Some m'.
Proof.
  induction ids as [|id ids IH]; intros m Hwf Hp; [by eexists|].
  rewrite foldM_opt_cons.
  destruct (busymap_addWork_Some prio work m id Hwf) as (m1 & E); [by apply Hp|].
  rewrite E, bind_Some.
  destruct (busymap_addWork_spec _ _ _ _ _ Hwf E) as (_ & Hwf1 & _).
  apply IH; [done|]. intros _. by apply Hp.
Qed.

Lemma busymap_addWork_fold_prio (prio work : Z) (ids : list UID) (m m' : Busymap) :
  Busymap_wf m -> foldM_opt (busymap_addWork prio work) m ids = Some m' ->
  ids <> [] -> 0 < prio < 1000.
Proof.
  intros Hwf H Hne. destruct ids as [|id ids]; [done|].
  rewrite foldM_opt_cons in H.
  destruct (busymap_addWork prio work m id) as [m1|] eqn:E; [|done].
  by destruct (busymap_addWork_spec _ _ _ _ _ Hwf E) as (? & _).
Qed.

(** The work added over a list of servers and removed over the same list
    leaves every ledger as it was. *)
Lemma busymap_add_then_remove (prio work : Z) (ids : list UID) (m m' : Busymap) :
  Busymap_wf m ->
  foldM_opt (busymap_addWork prio work) m ids = Some m' ->
  exists m'', foldM_opt (busymap_removeWork prio work) m' ids = Some m'' /\
              Busymap_wf m'' /\ forall id, busy_of m'' id = busy_of m id.
Proof.
  intros Hwf Hadd.
  destruct (busymap_addWork_fold _ _ _ _ _ Hwf Hadd) as (Hwf' & Hl').
  change (busymap_removeWork prio work) with (busymap_addWork prio (- work)).
  destruct (busymap_addWork_fold_Some prio (- work) ids m' Hwf') as (m'' & Hrem).
  { by apply (busymap_addWork_fold_prio prio work ids m m'). }
  destruct (busymap_addWork_fold _ _ _ _ _ Hwf' Hrem) as (Hwf'' & Hl'').
  exists m''. split; [done|]. split; [done|]. intros id.
  apply Busyness_eq_lookup. intros i. rewrite Hl'', Hl'.
  destruct (ledger (busy_of m id) !! i); simpl; [|done]. f_equal.
  destruct (Z.of_nat i <=? prio ÷ 100); lia.
Qed.

(** [launch] followed by [complete].  When [launch] has returned a
    relocation whose work factor is positive, as [complete] asserts, and
    the relocation has no destination recorded, [complete] returns, leaves
    [destBusymap] as it is, and brings every ledger of [busymap] back to
    what it was before [launch]. *)
Theorem launch_then_complete_restores_busymap
    (k : Knobs) (relocation launched : RelocateData) (singleRegionTeamSize : Z)
    (busymap busymap' destBusymap : Busymap) :
  Busymap_wf busymap ->
  completeDests relocation = [] ->
  RELOCATION_PARALLELISM_PER_DEST_SERVER k <> 0 ->
  launch k relocation busymap singleRegionTeamSize = Some (launched, busymap') ->
  0 < workFactor launched ->
  exists busymap'',
    complete k launched busymap' destBusymap = Some (busymap'', destBusymap) /\
    forall id, busy_of busymap'' id = busy_of busymap id.
Proof.
  intros Hwf Hnil HK Hl Hpos. unfold launch in Hl.
  destruct (getSrcWorkFactor k relocation singleRegionTeamSize) as [work|]; [|done].
  rewrite bind_Some in Hl.
  destruct (foldM_opt _ busymap (src relocation)) as [m|] eqn:Hadd; [|done].
  rewrite bind_Some in Hl. injection Hl as <- <-.
  destruct (busymap_add_then_remove _ _ _ _ _ Hwf Hadd) as (m'' & Hrem & _ & Hext).
  exists m''. split; [|done]. unfold complete.
  destruct (Z.ltb_spec 0 (workFactor (set_workFactor work relocation))); [|lia].
  simpl in *. rewrite Hrem, bind_Some.
  unfold completeDest, getDestWorkFactor, int_div.
  destruct (Z.eqb_spec (RELOCATION_PARALLELISM_PER_DEST_SERVER k) 0); [done|].
  simpl. by rewrite Hnil.
Qed.

Lemma launch_then_complete_restores_busymap_witness :
  exists busymap'',
    complete sample_knobs (set_workFactor 5000 rd_S3)
      (<[serverC := busy_upto7 5000]>
         (<[serverA := busy_upto7 11000]> (<[serverB := busy_upto7 9000]> ∅))) ∅
    = Some (busymap'', ∅) /\
    forall id, busy_of busymap'' id = busy_of busymap_S3 id.
Proof.
  apply (launch_then_complete_restores_busymap sample_knobs rd_S3
           (set_workFactor 5000 rd_S3) 3 busymap_S3).
  - apply (bool_decide_unpack (Busymap_wf busymap_S3)). vm_compute. exact I.
  - reflexivity.
  - simpl. lia.
  - vm_compute. reflexivity.
  - simpl. lia.
Defined.

(** [launchDest] followed by [completeDest].  [launchDest] records the
    servers of the candidate teams, in their order, in [completeDests];
    [completeDest] on the relocation it returns brings every ledger of
    [destBusymap] back to what it was before [launchDest]. *)
Theorem launchDest_then_completeDest_restores_destBusymap
    (k : Knobs) (relocation launched : RelocateData) (candidateTeams : CandidateTeams)
    (destBusymap destBusymap' : Busymap) :
  Busymap_wf destBusymap ->
  launchDest k relocation candidateTeams destBusymap = Some (launched, destBusymap') ->
  completeDests launched = teamServers candidateTeams /\
  exists destBusymap'',
    completeDest k launched destBusymap' = Some destBusymap'' /\
    forall id, busy_of destBusymap'' id = busy_of destBusymap id.
Proof.
  intros Hwf Hl. unfold launchDest in Hl.
  destruct (completeDests relocation); [|done].
  destruct (getDestWorkFactor k) as [work|] eqn:Hw; [|done].
  rewrite bind_Some in Hl.
  destruct (foldM_opt _ destBusymap (teamServers candidateTeams)) as [m|] eqn:Hadd;
    [|done].
  rewrite bind_Some in Hl. injection Hl as <- <-.
  split; [done|].
  destruct (busymap_add_then_remove _ _ _ _ _ Hwf Hadd) as (m'' & Hrem & _ & Hext).
  exists m''. split; [|done]. unfold completeDest. rewrite Hw, bind_Some. exact Hrem.
Qed.

Lemma launchDest_then_completeDest_restores_destBusymap_witness :
  completeDests (set_completeDests [serverC; serverD] rd_S3) = teamServers teams_CD /\
  exists destBusymap'',
    completeDest sample_knobs (set_completeDests [serverC; serverD] rd_S3)
      (<[serverD := busy_upto7 1000]>
         (<[serverC := busy_upto7 1000]> busymap_S3)) = Some destBusymap'' /\
    forall id, busy_of destBusymap'' id = busy_of busymap_S3 id.
Proof.
  apply (launchDest_then_completeDest_restores_destBusymap sample_knobs rd_S3
           (set_completeDests [serverC; serverD] rd_S3) teams_CD busymap_S3).
  - apply (bool_decide_unpack (Busymap_wf busymap_S3)). vm_compute. exact I.
  - vm_compute. reflexivity.
Defined.

(** ** The bands of a ledger *)

(** Work added at a priority counts against a launch at another priority
    exactly when the band of the launch is at or below the band of the
    work: after [addWork(p, w)], [canLaunch(q, w2)] answers what
    [canLaunch(q, w2 + w)] answered before when [q / 100 <= p / 100], and
    what [canLaunch(q, w2)] answered before otherwise. *)
Theorem addWork_counts_at_and_below_its_band
    (b b' : Busyness) (p w q w2 : Z) :
  Busyness_wf b -> addWork b p w = Some b' -> 0 < q < 1000 ->
  canLaunch b' q w2 = canLaunch b q (if q ÷ 100 <=? p ÷ 100 then w2 + w else w2).
Proof.
  intros Hwf Hadd Hq.
  assert (Hp : 0 < p < 1000).
  { unfold addWork in Hadd. destruct (prio_ok p) eqn:E; [|done]. by apply prio_ok_spec. }
  rewrite addWork_closed in Hadd by done. injection Hadd as <-.
  assert (Hwf' : Busyness_wf (mkBusyness (ledger_shift p w (ledger b)))).
  { unfold Busyness_wf. simpl. by rewrite length_ledger_shift. }
  destruct (canLaunch_closed b q (if q ÷ 100 <=? p ÷ 100 then w2 + w else w2) Hwf Hq)
    as (x & Hx & ->).
  destruct (canLaunch_closed _ q w2 Hwf' Hq) as (x' & Hx' & ->).
  simpl in Hx'. rewrite lookup_ledger_shift, Hx in Hx'. simpl in Hx'.
  injection Hx' as <-.
  pose proof (prio_bucket_range q Hq).
  rewrite Z2Nat.id by lia. f_equal.
  destruct (q ÷ 100 <=? p ÷ 100); unfold WORK_FULL_UTILIZATION; zcmp.
Qed.

Lemma addWork_counts_at_and_below_its_band_witness :
  canLaunch (busy_upto7 9000) 950 5000
  = canLaunch (busy_upto7 4000) 950
      (if 950 ÷ 100 <=? 709 ÷ 100 then 5000 + 5000 else 5000).
Proof.
  apply (addWork_counts_at_and_below_its_band (busy_upto7 4000) (busy_upto7 9000)
           709 5000 950 5000).
  - reflexivity.
  - reflexivity.
  - lia.
Defined.

(** ** The number of relocations a destination server takes *)

Lemma occurrences_notin id (l : list UID) : id ∉ l -> occurrences id l = 0.
Proof.
  induction l as [|y l IH]; intros Hid; [done|].
  apply not_elem_of_cons in Hid as [Hne Hid].
  rewrite occurrences_cons, bool_decide_eq_false_2 by done. rewrite IH by done. lia.
Qed.

Lemma occurrences_NoDup id (l : list UID) :
  NoDup l -> id ∈ l -> occurrences id l = 1.
Proof.
  induction 1 as [|x l Hx Hl IH]; intros Hid; [by apply elem_of_nil in Hid|].
  rewrite occurrences_cons. destruct (decide (x = id)) as [Heq|Hne].
  - subst x. rewrite bool_decide_eq_true_2 by done.
    rewrite occurrences_notin by done. lia.
  - rewrite bool_decide_eq_false_2 by done.
    apply elem_of_cons in Hid as [Heq|Hid]; [congruence|].
    rewrite IH by done. lia.
Qed.

Lemma quot_parallelism (K n : Z) :
  1 <= K <= 100 -> 0 <= n ->
  (n * (10000 ÷ K) <= 10000 - 10000 ÷ K <-> n < K).
Proof.
  intros HK Hn. rewrite Z.quot_div_nonneg by lia.
  pose proof (Z.div_mod 10000 K ltac:(lia)) as Hdm.
  pose proof (Z.mod_pos_bound 10000 K ltac:(lia)) as Hr.
  assert (100 <= 10000 / K).
  { apply Z.div_le_lower_bound; lia. }
  split; intros H'; nia.
Qed.

Lemma launchDest_all_level (k : Knobs) (candidateTeams : CandidateTeams) (prio : Z) :
  RELOCATION_PARALLELISM_PER_DEST_SERVER k <> 0 ->
  NoDup (teamServers candidateTeams) -> 0 < prio < 1000 ->
  forall (rds : list RelocateData) (d0 : Busymap) (n0 : Z),
    Forall (fun rd => completeDests rd = [] /\ 0 < priority rd < 1000 /\
                      prio ÷ 100 <= priority rd ÷ 100) rds ->
    Busymap_wf d0 ->
    (forall id, id ∈ teamServers candidateTeams ->
       levelAt d0 id prio
       = n0 * (WORK_FULL_UTILIZATION ÷ RELOCATION_PARALLELISM_PER_DEST_SERVER k)) ->
    exists d, launchDest_all k candidateTeams d0 rds = Some d /\ Busymap_wf d /\
      forall id, id ∈ teamServers candidateTeams ->
        levelAt d id prio
        = (n0 + Z.of_nat (length rds))
          * (WORK_FULL_UTILIZATION ÷ RELOCATION_PARALLELISM_PER_DEST_SERVER k).
Proof.
  intros HK Hnd Hp. unfold launchDest_all.
  induction rds as [|rd rds IH]; intros d0 n0 Hrds Hwf Hlev.
  - exists d0. split; [done|]. split; [done|]. intros id Hid.
    rewrite Hlev by done. simpl. f_equal. lia.
  - apply Forall_cons in Hrds as [(Hnil & Hprd & Hband) Hrds].
    rewrite foldM_opt_cons.
    set (w := WORK_FULL_UTILIZATION ÷ RELOCATION_PARALLELISM_PER_DEST_SERVER k) in *.
    destruct (busymap_addWork_fold_Some (priority rd) w (teamServers candidateTeams)
                d0 Hwf) as (d1 & Hadd); [done|].
    assert (El : launchDest k rd candidateTeams d0
                 = Some (set_completeDests (teamServers candidateTeams) rd, d1)).
    { unfold launchDest. rewrite Hnil. unfold getDestWorkFactor, int_div.
      destruct (Z.eqb_spec (RELOCATION_PARALLELISM_PER_DEST_SERVER k) 0); [done|].
      rewrite bind_Some. fold w. by rewrite Hadd. }
    rewrite El. simpl.
    destruct (busymap_addWork_fold _ _ _ _ _ Hwf Hadd) as (Hwf1 & Hl1).
    destruct (IH d1 (n0 + 1) Hrds Hwf1) as (d & Hd & Hwfd & Hlevd).
    + intros id Hid. unfold levelAt. rewrite Hl1.
      specialize (Hlev id Hid). unfold levelAt in Hlev.
      pose proof (prio_bucket_range prio Hp).
      destruct (canLaunch_closed (busy_of d0 id) prio 0) as (x & Hx & _);
        [by apply busy_of_wf|done|].
      rewrite Hx in Hlev |- *. simpl in *. subst x.
      rewrite occurrences_NoDup by done. rewrite Z2Nat.id by lia.
      destruct (Z.leb_spec (prio ÷ 100) (priority rd ÷ 100)); lia.
    + exists d. split; [done|]. split; [done|]. intros id Hid.
      rewrite Hlevd by done. f_equal. simpl length. lia.
Qed.

(** [RELOCATION_PARALLELISM_PER_DEST_SERVER] is the number of relocations
    a destination server takes at a time.  With the knob between 1 and
    100, after [launchDest] has been called from empty ledgers for the
    relocations of a list, each towards the same candidate teams and each
    of a band at or above that of [prio], [canLaunchDest] for these teams
    at [prio] returns true exactly when the list has fewer relocations than
    the knob says. *)
Theorem canLaunchDest_after_launches
    (k : Knobs) (candidateTeams : CandidateTeams) (prio : Z) (rds : list RelocateData) :
  1 <= RELOCATION_PARALLELISM_PER_DEST_SERVER k <= 100 ->
  NoDup (teamServers candidateTeams) -> teamServers candidateTeams <> [] ->
  0 < prio < 1000 ->
  Forall (fun rd => completeDests rd = [] /\ 0 < priority rd < 1000 /\
                    prio ÷ 100 <= priority rd ÷ 100) rds ->
  exists d d',
    launchDest_all k candidateTeams ∅ rds = Some d /\
    canLaunchDest k candidateTeams prio d
    = Some (bool_decide (Z.of_nat (length rds)
                         < RELOCATION_PARALLELISM_PER_DEST_SERVER k), d').
Proof.
  intros HK Hnd Hne Hp Hrds.
  destruct (launchDest_all_level k candidateTeams prio ltac:(lia) Hnd Hp rds ∅ 0 Hrds)
    as (d & Hd & Hwf & Hlev).
  { apply map_Forall_empty. }
  { intros id _. unfold levelAt, busy_of. rewrite lookup_empty. simpl.
    pose proof (prio_bucket_range prio Hp).
    destruct (Z.to_nat (prio ÷ 100)) as [|[|[|[|[|[|[|[|[|[|?]]]]]]]]]] eqn:E;
      simpl; try lia. }
  exists d. unfold canLaunchDest.
  destruct (Z.leb_spec (RELOCATION_PARALLELISM_PER_DEST_SERVER k) 0); [lia|].
  unfold getDestWorkFactor, int_div.
  destruct (Z.eqb_spec (RELOCATION_PARALLELISM_PER_DEST_SERVER k) 0); [lia|].
  rewrite bind_Some.
  destruct (canLaunchDest_loop_spec prio
              (WORK_FULL_UTILIZATION ÷ RELOCATION_PARALLELISM_PER_DEST_SERVER k)
              (teamServers candidateTeams) d Hwf Hp) as (d' & -> & _).
  exists d'. split; [done|]. do 2 f_equal.
  assert (Hall : forall id, id ∈ teamServers candidateTeams ->
            (levelAt d id prio <=? WORK_FULL_UTILIZATION
               - WORK_FULL_UTILIZATION ÷ RELOCATION_PARALLELISM_PER_DEST_SERVER k)
            = bool_decide (Z.of_nat (length rds)
                           < RELOCATION_PARALLELISM_PER_DEST_SERVER k)).
  { intros id Hid. rewrite Hlev by done. unfold WORK_FULL_UTILIZATION.
    pose proof (quot_parallelism (RELOCATION_PARALLELISM_PER_DEST_SERVER k)
                  (Z.of_nat (length rds)) HK ltac:(lia)) as Hq.
    rewrite Z.add_0_l.
    destruct (Z.leb_spec (Z.of_nat (length rds)
                          * (10000 ÷ RELOCATION_PARALLELISM_PER_DEST_SERVER k))
                (10000 - 10000 ÷ RELOCATION_PARALLELISM_PER_DEST_SERVER k));
      [rewrite bool_decide_eq_true_2; [done|tauto]
      |rewrite bool_decide_eq_false_2; [done|]; intros Hlt; apply Hq in Hlt; lia]. }
  destruct (teamServers candidateTeams) as [|id0 ids]; [done|].
  clear Hnd Hne Hlev.
  destruct (bool_decide (Z.of_nat (length rds)
                         < RELOCATION_PARALLELISM_PER_DEST_SERVER k)) eqn:E.
  - apply forallb_forall. intros id Hid. apply Hall. by apply list_elem_of_In.
  - simpl. rewrite Hall by (apply elem_of_cons; by left). done.
Qed.

Lemma canLaunchDest_after_launches_witness :
  exists d d',
    launchDest_all sample_knobs teams_CD ∅ rds_three = Some d /\
    canLaunchDest sample_knobs teams_CD 709 d
    = Some (bool_decide (Z.of_nat (length rds_three)
                         < RELOCATION_PARALLELISM_PER_DEST_SERVER sample_knobs), d').
Proof.
  apply (canLaunchDest_after_launches sample_knobs teams_CD 709 rds_three).
  - simpl. lia.
  - apply (bool_decide_unpack (NoDup (teamServers teams_CD))). vm_compute. exact I.
  - discriminate.
  - lia.
  - repeat constructor; simpl; lia.
Defined.

(** ** The order of the sets of relocations *)

(** [operator>] is an order fit for a [std::set]: no relocation is above
    itself, the relation is transitive, and two relocations of which
    neither is above the other, the same element for the set, are those
    with the same [priority], [startTime] and [randomId], whatever their
    other members. *)
Theorem rd_gt_strict_weak_order :
  (forall a, rd_gt a a = false) /\
  (forall a b c, rd_gt a b = true -> rd_gt b c = true -> rd_gt a c = true) /\
  (forall a b, rd_gt a b = false /\ rd_gt b a = false <->
               priority a = priority b /\ startTime a = startTime b /\
               randomId a = randomId b).
Proof.
  split; [apply rd_gt_irrefl|]. split; [apply rd_gt_trans|].
  intros a b. rewrite <- rd_equiv_spec. unfold rd_equiv.
  rewrite andb_true_iff, !negb_true_iff. done.
Qed.

(** ** Insertion into a set of relocations, look-up and removal *)

(** [insert] and [count].  After [s.insert(x)] the set holds an element
    that is [x] for the order, and the look-up of any other relocation
    answers as before: [count(y)] is true exactly when [y] is [x] for the
    order or [count(y)] was true. *)
Theorem rdset_count_after_insert (x y : RelocateData) (s : RdSet) :
  rdset_count x (rdset_insert x s) = true /\
  rdset_count y (rdset_insert x s) = rd_equiv y x || rdset_count y s.
Proof.
  split; [|apply rdset_count_insert_eq].
  by rewrite rdset_count_insert_eq, rd_equiv_refl.
Qed.

Lemma rdset_sorted_inv x s :
  rdset_sorted (x :: s) -> rdset_sorted s /\ forall y, y ∈ s -> rd_gt x y = true.
Proof.
  intros H. apply StronglySorted_inv in H as [Hs Hall]. split; [done|].
  intros y Hy. rewrite Forall_forall in Hall. by apply Hall.
Qed.

Lemma rdset_count_false x (s : RdSet) :
  rdset_count x s = false <-> forall y, y ∈ s -> rd_equiv x y = false.
Proof.
  unfold rdset_count. induction s as [|z s IH]; simpl.
  - split; [|done]. intros _ y Hy. by apply elem_of_nil in Hy.
  - rewrite orb_false_iff, IH. split.
    + intros [Hz Hs] y [->|Hy]%elem_of_cons; auto.
    + intros H. split; [apply H; by left|]. intros y Hy. apply H. by right.
Qed.

Lemma rdset_erase_notin x (s : RdSet) :
  rdset_count x s = false -> rdset_erase x s = s.
Proof.
  rewrite rdset_count_false. unfold rdset_erase.
  induction s as [|z s IH]; intros H; simpl; [done|].
  rewrite (H z) by (by left). simpl. f_equal. apply IH.
  intros y Hy. apply H. by right.
Qed.

(** [insert] and [erase] on a set in the order of [operator>].  When the
    set holds an element that is [x] for the order, [s.insert(x)] leaves
    the set as it is, the element it holds included; when it holds none,
    [s.erase(x)] after [s.insert(x)] gives the set back. *)
Theorem rdset_insert_present_or_erased (x : RelocateData) (s : RdSet) :
  rdset_sorted s ->
  (rdset_count x s = true -> rdset_insert x s = s) /\
  (rdset_count x s = false -> rdset_erase x (rdset_insert x s) = s).
Proof.
  intros Hs. split.
  - induction s as [|z s IH]; simpl; [done|].
    apply rdset_sorted_inv in Hs as [Hs Hz]. unfold rdset_count. simpl.
    intros [Hxz|Hx]%orb_true_iff.
    + unfold rd_equiv in Hxz. apply andb_true_iff in Hxz as [H1 H2].
      apply negb_true_iff in H1, H2. by rewrite H1, H2.
    + apply existsb_exists in Hx as (w & Hw%list_elem_of_In & Hxw).
      assert (Hzx : rd_gt z x = true).
      { rewrite (rd_equiv_gt_r z x w Hxw). by apply Hz. }
      rewrite (rd_gt_asym _ _ Hzx), Hzx. f_equal. apply IH; [done|].
      apply existsb_exists. exists w. split; [by apply list_elem_of_In|done].
  - clear Hs. induction s as [|z s IH]; simpl; intros Hx.
    + unfold rdset_erase. simpl. by rewrite rd_equiv_refl.
    + unfold rdset_count in Hx. simpl in Hx.
      apply orb_false_iff in Hx as [Hxz Hx].
      destruct (rd_gt x z) eqn:Exz.
      * unfold rdset_erase. simpl. rewrite rd_equiv_refl, Hxz. simpl. f_equal.
        by apply rdset_erase_notin.
      * destruct (rd_gt z x) eqn:Ezx.
        -- unfold rdset_erase in *. simpl. rewrite Hxz. simpl. f_equal. by apply IH.
        -- unfold rd_equiv in Hxz. by rewrite Exz, Ezx in Hxz.
Qed.

Lemma rdset_insert_present_or_erased_witness :
  (rdset_count rd_second [rd_first; rd_third] = true ->
   rdset_insert rd_second [rd_first; rd_third] = [rd_first; rd_third]) /\
  (rdset_count rd_second [rd_first; rd_third] = false ->
   rdset_erase rd_second (rdset_insert rd_second [rd_first; rd_third])
   = [rd_first; rd_third]).
Proof.
  apply (rdset_insert_present_or_erased rd_second [rd_first; rd_third]).
  repeat constructor.
Defined.

(** ** The counters of the queue *)

Lemma testActive_empty : testActive ∅ = 0.
Proof. unfold testActive. by rewrite map_fold_empty. Qed.

Lemma testActive_insert_None (c : gmap Z Z) p n :
  c !! p = None -> testActive (<[p := n]> c) = testActive c + n.
Proof.
  intros H. unfold testActive.
  rewrite map_fold_insert_L; [done| |done]. intros. lia.
Qed.

Lemma testActive_insert (c : gmap Z Z) p n :
  testActive (<[p := n]> c) = testActive c - default 0 (c !! p) + n.
Proof.
  destruct (c !! p) as [x|] eqn:E; simpl.
  - rewrite <- (insert_delete_eq c p n).
    rewrite testActive_insert_None by apply lookup_delete_eq.
    assert (testActive c = testActive (delete p c) + x); [|lia].
    unfold testActive. rewrite (map_fold_delete_L _ _ p x c); [done| |done].
    intros. lia.
  - rewrite testActive_insert_None by done. lia.
Qed.

Lemma counter_at_testActive (c : gmap Z Z) p :
  testActive (counter_at c p).2 = testActive c /\
  (counter_at c p).2 !! p = Some (counter_at c p).1 /\
  (counter_at c p).1 = default 0 (c !! p) /\
  forall q, default 0 ((counter_at c p).2 !! q) = default 0 (c !! q).
Proof.
  unfold counter_at. simpl. split; [|split; [|split]].
  - rewrite testActive_insert. lia.
  - apply lookup_insert_eq.
  - done.
  - intros q. destruct (decide (p = q)) as [->|Hne].
    + by rewrite lookup_insert_eq.
    + by rewrite lookup_insert_ne.
Qed.

Lemma startRelocation_fields k prio hp st :
  let st' := startRelocation k prio hp st in
  activeRelocations st' = activeRelocations st /\
  queuedRelocations st' = queuedRelocations st /\
  testActive (priority_relocations st') = testActive (priority_relocations st) + 1 /\
  unhealthyRelocations st'
  = unhealthyRelocations st + (if countsAsUnhealthy k hp then 1 else 0) /\
  rawProcessingUnhealthy st'
  = (if countsAsUnhealthy k hp then true else rawProcessingUnhealthy st) /\
  (forall q, default 0 (priority_relocations st' !! q)
             = default 0 (priority_relocations st !! q)
               + (if bool_decide (q = prio) then 1 else 0)).
Proof.
  unfold startRelocation.
  destruct (countsAsUnhealthy k hp), (hp =? PRIORITY_PERPETUAL_STORAGE_WIGGLE k);
    simpl; (repeat split; try lia);
    try (rewrite !testActive_insert, lookup_insert_eq; simpl; lia);
    intros q; rewrite insert_insert_eq;
    (destruct (decide (q = prio)) as [->|Hne];
     [rewrite lookup_insert_eq, bool_decide_eq_true_2 by done; simpl; lia
     |rewrite lookup_insert_ne, bool_decide_eq_false_2 by done; lia]).
Qed.

Lemma finishRelocation_fields k prio hp st st' :
  finishRelocation k prio hp st = Some st' ->
  activeRelocations st' = activeRelocations st /\
  queuedRelocations st' = queuedRelocations st /\
  testActive (priority_relocations st') = testActive (priority_relocations st) - 1 /\
  unhealthyRelocations st'
  = unhealthyRelocations st - (if countsAsUnhealthy k hp then 1 else 0) /\
  0 <= unhealthyRelocations st' - (if countsAsUnhealthy k hp then 0 else unhealthyRelocations st') /\
  rawProcessingUnhealthy st'
  = (if countsAsUnhealthy k hp && (unhealthyRelocations st' =? 0) then false
     else rawProcessingUnhealthy st) /\
  (forall q, default 0 (priority_relocations st' !! q)
             = default 0 (priority_relocations st !! q)
               - (if bool_decide (q = prio) then 1 else 0)).
Proof.
  unfold finishRelocation. intros H.
  assert (Hc : forall (c : gmap Z Z) w,
            testActive (<[w := default 0 (<[prio := default 0 (c !! prio) - 1]>
                                             (<[prio := default 0 (c !! prio)]> c) !! w)]>
                          (<[prio := default 0 (c !! prio) - 1]>
                             (<[prio := default 0 (c !! prio)]> c)))
            = testActive c - 1).
  { intros c w. rewrite !testActive_insert, lookup_insert_eq. simpl.
    destruct (_ !! w); simpl; lia. }
  assert (Hq : forall (c : gmap Z Z) w q,
            default 0 (<[w := default 0 (<[prio := default 0 (c !! prio) - 1]>
                                            (<[prio := default 0 (c !! prio)]> c) !! w)]>
                         (<[prio := default 0 (c !! prio) - 1]>
                            (<[prio := default 0 (c !! prio)]> c)) !! q)
            = default 0 (c !! q) - (if bool_decide (q = prio) then 1 else 0)).
  { intros c w q. rewrite insert_insert_eq.
    destruct (decide (w = q)) as [->|Hw].
    - rewrite lookup_insert_eq.
      destruct (decide (q = prio)) as [->|Hne].
      + rewrite lookup_insert_eq, bool_decide_eq_true_2 by done. simpl. lia.
      + rewrite lookup_insert_ne, bool_decide_eq_false_2 by done. simpl. lia.
    - rewrite lookup_insert_ne by done.
      destruct (decide (q = prio)) as [->|Hne].
      + rewrite lookup_insert_eq, bool_decide_eq_true_2 by done. simpl. lia.
      + rewrite lookup_insert_ne, bool_decide_eq_false_2 by done. simpl. lia. }
  destruct (countsAsUnhealthy k hp); simpl in H.
  - destruct (Z.leb_spec 0 (unhealthyRelocations st - 1)); [|done].
    simpl in H. unfold counter_at in H. simpl in H.
    destruct (Z.eqb_spec (unhealthyRelocations st - 1) 0) as [E0|E0];
      simpl in H;
      match type of H with
      | Some (if ?b then _ else _) = _ => destruct b
      end; injection H as <-; simpl;
      (repeat split; try lia; try apply Hc; try apply Hq;
       try (destruct (Z.eqb_spec (unhealthyRelocations st - 1) 0); done || lia)).
  - unfold counter_at in H. simpl in H.
    match type of H with
    | Some (if ?b then _ else _) = _ => destruct b
    end; injection H as <-; simpl;
      (repeat split; try lia; try apply Hc; try apply Hq).
Qed.

(** [startRelocation] followed by [finishRelocation] for the same
    priorities.  On a queue whose [rawProcessingUnhealthy] is set exactly
    while [unhealthyRelocations] is positive, the second call returns, and
    [unhealthyRelocations], [rawProcessingUnhealthy] and the counter of
    every priority are what they were before the first call. *)
Theorem startRelocation_then_finishRelocation
    (k : Knobs) (prio hp : Z) (st : DDQueueData) :
  unhealthy_flag_ok st ->
  exists st',
    finishRelocation k prio hp (startRelocation k prio hp st) = Some st' /\
    unhealthyRelocations st' = unhealthyRelocations st /\
    rawProcessingUnhealthy st' = rawProcessingUnhealthy st /\
    activeRelocations st' = activeRelocations st /\
    queuedRelocations st' = queuedRelocations st /\
    forall q, default 0 (priority_relocations st' !! q)
              = default 0 (priority_relocations st !! q).
Proof.
  intros [Hu Hflag].
  pose proof (startRelocation_fields k prio hp st) as (Ha & Hqd & _ & Hu1 & Hf1 & Hc1).
  destruct (finishRelocation_Some k prio hp (startRelocation k prio hp st))
    as (st' & Hfin).
  { intros Hc. rewrite Hu1, Hc. lia. }
  exists st'. split; [done|].
  destruct (finishRelocation_fields _ _ _ _ _ Hfin) as (Ha' & Hqd' & _ & Hu' & _ & Hf' & Hc').
  split; [rewrite Hu', Hu1; destruct (countsAsUnhealthy k hp); lia|].
  split.
  { rewrite Hf', Hf1, Hu', Hu1, Hflag.
    destruct (countsAsUnhealthy k hp); simpl; [|done].
    destruct (Z.eqb_spec (unhealthyRelocations st + 1 - 1) 0);
      destruct (Z.ltb_spec 0 (unhealthyRelocations st)); done || lia. }
  split; [congruence|]. split; [congruence|].
  intros q. rewrite Hc', Hc1. destruct (bool_decide (q = prio)); lia.
Qed.

Lemma startRelocation_then_finishRelocation_witness :
  exists st',
    finishRelocation sample_knobs 709 709 (startRelocation sample_knobs 709 709 queue_counting)
    = Some st' /\
    unhealthyRelocations st' = unhealthyRelocations queue_counting /\
    rawProcessingUnhealthy st' = rawProcessingUnhealthy queue_counting /\
    activeRelocations st' = activeRelocations queue_counting /\
    queuedRelocations st' = queuedRelocations queue_counting /\
    forall q, default 0 (priority_relocations st' !! q)
              = default 0 (priority_relocations queue_counting !! q).
Proof.
  apply (startRelocation_then_finishRelocation sample_knobs 709 709 queue_counting).
  split; [simpl; lia|reflexivity].
Defined.

(** [getHighestPriorityRelocation] returns the highest priority whose
    counter is positive, and zero when no counter is positive or every
    such priority is negative: the result is at least zero, at least every
    priority with a positive counter, and is zero or a priority with a
    positive counter. *)
Theorem getHighestPriorityRelocation_spec (st : DDQueueData) :
  let highest := getHighestPriorityRelocation st in
  0 <= highest /\
  (forall priority count,
     priority_relocations st !! priority = Some count -> 0 < count ->
     priority <= highest) /\
  (highest = 0 \/
   exists count, priority_relocations st !! highest = Some count /\ 0 < count).
Proof.
  unfold getHighestPriorityRelocation.
  generalize (priority_relocations st). intros c.
  apply (map_fold_weak_ind
           (fun r (m : gmap Z Z) =>
              0 <= r /\
              (forall p n, m !! p = Some n -> 0 < n -> p <= r) /\
              (r = 0 \/ exists n, m !! r = Some n /\ 0 < n))).
  - split; [lia|]. split; [|by left]. intros p n Hp. by rewrite lookup_empty in Hp.
  - intros p n m r Hnone (Hr & Hub & Hmax).
    destruct (Z.ltb_spec 0 n) as [Hn|Hn].
    + split; [lia|]. split.
      * intros q nq Hq Hpos. destruct (decide (p = q)) as [->|Hne]; [lia|].
        rewrite lookup_insert_ne in Hq by done. specialize (Hub q nq Hq Hpos). lia.
      * destruct (Z.max_spec r p) as [[Hlt ->]|[Hle ->]].
        -- right. exists n. by rewrite lookup_insert_eq.
        -- destruct Hmax as [->|(n' & Hn' & Hpos)]; [by left|].
           right. exists n'. split; [|done].
           rewrite lookup_insert_ne; [done|]. intros ->. congruence.
    + split; [done|]. split.
      * intros q nq Hq Hpos. destruct (decide (p = q)) as [->|Hne].
        -- rewrite lookup_insert_eq in Hq. injection Hq as ->. lia.
        -- rewrite lookup_insert_ne in Hq by done. by apply (Hub q nq).
      * destruct Hmax as [->|(n' & Hn' & Hpos)]; [by left|].
        right. exists n'. split; [|done].
        rewrite lookup_insert_ne; [done|]. intros ->. congruence.
Qed.

(** ** The counters under the functions of the queue *)

Lemma foldM_opt_invariant {A B : Type} (P : A -> Prop) (f : A -> B -> option A) l :
  (forall a x a', P a -> f a x = Some a' -> P a') ->
  forall a a', P a -> foldM_opt f a l = Some a' -> P a'.
Proof.
  intros Hf. induction l as [|x l IH]; intros a a' Ha H.
  - by injection H as <-.
  - rewrite foldM_opt_cons in H.
    apply option.bind_Some in H as (a1 & H1 & H). eauto.
Qed.

(** The invariant only looks at the counters. *)
Lemma counters_ok_frame st st' :
  activeRelocations st' = activeRelocations st ->
  queuedRelocations st' = queuedRelocations st ->
  priority_relocations st' = priority_relocations st ->
  unhealthyRelocations st' = unhealthyRelocations st ->
  rawProcessingUnhealthy st' = rawProcessingUnhealthy st ->
  counters_ok st -> counters_ok st'.
Proof.
  unfold counters_ok, counters_agree, unhealthy_flag_ok.
  by intros -> -> -> -> ->.
Qed.

Lemma counters_ok_start k prio hp st st0 :
  activeRelocations st0 + queuedRelocations st0
  = activeRelocations st + queuedRelocations st + 1 ->
  priority_relocations st0 = priority_relocations st ->
  unhealthyRelocations st0 = unhealthyRelocations st ->
  rawProcessingUnhealthy st0 = rawProcessingUnhealthy st ->
  counters_ok st -> counters_ok (startRelocation k prio hp st0).
Proof.
  intros Hsum Hc Hu Hf [Hagree [Hpos Hflag]].
  pose proof (startRelocation_fields k prio hp st0) as (Ha & Hq & Ht & Hu' & Hf' & _).
  unfold counters_ok, counters_agree, unhealthy_flag_ok in *.
  rewrite Ha, Hq, Ht, Hu', Hf', Hc, Hu, Hf. split; [lia|].
  destruct (countsAsUnhealthy k hp).
  - split; [lia|]. symmetry. apply Z.ltb_lt. lia.
  - rewrite Z.add_0_r. done.
Qed.

Lemma counters_ok_finish k prio hp st st0 st' :
  activeRelocations st0 + queuedRelocations st0
  = activeRelocations st + queuedRelocations st - 1 ->
  priority_relocations st0 = priority_relocations st ->
  unhealthyRelocations st0 = unhealthyRelocations st ->
  rawProcessingUnhealthy st0 = rawProcessingUnhealthy st ->
  counters_ok st -> finishRelocation k prio hp st0 = Some st' -> counters_ok st'.
Proof.
  intros Hsum Hc Hu Hf [Hagree [Hpos Hflag]] Hfin.
  destruct (finishRelocation_fields _ _ _ _ _ Hfin)
    as (Ha & Hq & Ht & Hu' & Hpos' & Hf' & _).
  unfold counters_ok, counters_agree, unhealthy_flag_ok in *.
  rewrite Ha, Hq, Ht, Hf', Hc, Hf. split; [lia|].
  destruct (countsAsUnhealthy k hp); simpl.
  - split; [lia|].
    destruct (Z.eqb_spec (unhealthyRelocations st') 0) as [E|E].
    + rewrite E. done.
    + rewrite Hflag. symmetry.
      destruct (Z.ltb_spec 0 (unhealthyRelocations st));
        destruct (Z.ltb_spec 0 (unhealthyRelocations st')); done || lia.
  - rewrite Hu', Z.sub_0_r, Hu. done.
Qed.

Lemma launchRange_counters k rd newId acc r acc' :
  counters_ok acc.1 -> launchRange k rd newId acc r = Some acc' -> counters_ok acc'.1.
Proof.
  destruct acc as [st eff]. simpl. intros Hok H. unfold launchRange in H.
  apply option.bind_Some in H as (e & _ & H).
  apply option.bind_Some in H as (rrs2 & _ & H).
  apply option.bind_Some in H as ([rrs3 bm] & _ & H).
  injection H as <-. simpl.
  eapply counters_ok_frame;
    [| | | | |eapply (counters_ok_start k _ _ st); [| | | |exact Hok]];
    try reflexivity.
  simpl. lia.
Qed.

Lemma launchAdmitted_counters k newId st eff rd acc' :
  counters_ok st -> launchAdmitted k newId st eff rd = Some acc' -> counters_ok acc'.1.
Proof.
  intros Hok H. unfold launchAdmitted in H.
  apply option.bind_Some in H as ([admitted bm] & _ & H).
  destruct admitted; simpl in H.
  - apply option.bind_Some in H as ([st1 eff1] & H1 & H).
    assert (Hok1 : counters_ok st1).
    { destruct (isRestore rd).
      - injection H1 as <- <-. by eapply counters_ok_frame; [..|exact Hok].
      - apply option.bind_Some in H1 as (st' & Hfin & H1).
        apply option.bind_Some in H1 as (q & _ & H1). injection H1 as <- <-.
        eapply counters_ok_frame;
          [| | | | |eapply (counters_ok_finish k _ _ st); [| | | |exact Hok|exact Hfin]];
          try reflexivity.
        simpl. lia. }
    eapply (foldM_opt_invariant (fun a => counters_ok a.1)); [|  |exact H].
    + intros a x a'. apply launchRange_counters.
    + simpl. by eapply counters_ok_frame; [..|exact Hok1].
  - injection H as <-. simpl. by eapply counters_ok_frame; [..|exact Hok].
Qed.

Lemma launchQueuedWork_counters k newId st combined acc' :
  counters_ok st -> launchQueuedWork k newId st combined = Some acc' ->
  counters_ok acc'.1.
Proof.
  intros Hok H. unfold launchQueuedWork in H.
  eapply (foldM_opt_invariant (fun a => counters_ok a.1)); [| |exact H]; [|done].
  intros [st1 eff1] rd a' Hok1 H1. unfold launchOne in H1.
  destruct (overlappingInFlight k st1 rd).
  - destruct (isRestore rd); [done|]. by injection H1 as <-.
  - by eapply launchAdmitted_counters.
Qed.

Lemma queueRelocation_visit_counters k hh hb acc rrs acc' :
  counters_ok acc.1.1.2 -> queueRelocation_visit k hh hb acc rrs = Some acc' ->
  counters_ok acc'.1.1.2.
Proof.
  destruct acc as [[[rd st] servers] eff]. simpl. intros Hok H.
  unfold queueRelocation_visit in H.
  destruct (foundActiveRelocation st rrs) as [relocating st1] eqn:E1.
  assert (Hok1 : counters_ok st1).
  { unfold foundActiveRelocation in E1.
    destruct (src rrs); [by injection E1 as <- <-|].
    destruct (negb (foundActiveFetching st rrs)); [|by injection E1 as <- <-].
    simpl in E1. injection E1 as <- <-. by eapply counters_ok_frame; [..|exact Hok]. }
  set (rd1 := if foundActiveFetching st rrs || relocating
              then inheritFrom hh hb rd rrs else rd) in *.
  set (st2 := if KeyRange_contains (keys rd1) (keys rrs) then _ else st1) in *.
  assert (Hok2 : counters_ok st2).
  { subst st2. destruct (KeyRange_contains (keys rd1) (keys rrs)); [|done].
    destruct (foundActiveFetching st rrs);
      [by eapply counters_ok_frame; [..|exact Hok1]|].
    destruct relocating; [|done]. by eapply counters_ok_frame; [..|exact Hok1]. }
  destruct (foundActiveFetching st rrs || relocating).
  - apply option.bind_Some in H as (st4 & Hfin & H). injection H as <-. simpl.
    eapply (counters_ok_finish k _ _ st2); [| | | |exact Hok2|exact Hfin];
      try reflexivity.
    simpl. lia.
  - by injection H as <-.
Qed.

Lemma queueRelocation_scan_counters k rs now rid st servers acc' :
  counters_ok st -> queueRelocation_scan k rs now rid st servers = Some acc' ->
  counters_ok acc'.1.1.2.
Proof.
  intros Hok H. unfold queueRelocation_scan in H.
  eapply (foldM_opt_invariant (fun a => counters_ok a.1.1.2)); [| |exact H]; [|done].
  intros a x a'. apply queueRelocation_visit_counters.
Qed.

Lemma requeue_servers_counters k rrs newData : forall srcs found st eff,
  counters_ok st ->
  counters_ok (requeue_servers k rrs newData srcs found st eff).1.
Proof.
  induction srcs as [|id srcs IH]; intros found st eff Hok; simpl; [done|].
  destruct (rdset_count rrs (default [] (queue st !! id))).
  - destruct found; apply IH.
    + by eapply counters_ok_frame; [..|exact Hok].
    + eapply counters_ok_frame;
        [| | | | |eapply (counters_ok_start k _ _ st); [| | | |exact Hok]];
        try reflexivity.
      simpl. lia.
  - simpl. by eapply counters_ok_frame; [..|exact Hok].
Qed.

Lemma requeue_visit_counters k rd acc sr acc' :
  counters_ok acc.1 -> requeue_visit k rd acc sr = Some acc' -> counters_ok acc'.1.
Proof.
  destruct acc as [st eff]. simpl. intros Hok H. unfold requeue_visit in H.
  apply option.bind_Some in H as (e & _ & H).
  destruct (match src e.2 with
            | [] => _
            | _ :: _ => (false, fetchingSourcesQueue st)
            end) as [refetch fetching].
  destruct refetch.
  - injection H as <-. simpl.
    eapply counters_ok_frame;
      [| | | | |eapply (counters_ok_start k _ _ st); [| | | |exact Hok]];
      try reflexivity.
    simpl. lia.
  - destruct (negb (Z.of_nat (length (src e.2)) =? 0) || (startTime e.2 =? -1));
      [|done].
    destruct (requeue_servers k e.2 (set_keys sr e.2) (src e.2) false
                (set_fetchingSourcesQueue fetching st) eff) as [st1 eff1] eqn:E.
    injection H as <-. simpl.
    assert (Hok1 : counters_ok st1).
    { change st1 with (st1, eff1).1. rewrite <- E. apply requeue_servers_counters.
      by eapply counters_ok_frame; [..|exact Hok]. }
    by eapply counters_ok_frame; [..|exact Hok1].
Qed.

Lemma queueRelocation_counters k rs now rid st servers st' servers' eff' :
  counters_ok st ->
  queueRelocation k rs now rid st servers = Some (st', servers', eff') ->
  counters_ok st'.
Proof.
  intros Hok H. unfold queueRelocation in H.
  apply option.bind_Some in H as ([[[rd st1] servers1] eff1] & Hscan & H).
  apply option.bind_Some in H as ([st3 eff3] & Hfold & H). injection H as <- <- <-.
  pose proof (queueRelocation_scan_counters _ _ _ _ _ _ _ Hok Hscan) as Hok1.
  simpl in Hok1.
  change (counters_ok (st3, eff3).1).
  eapply (foldM_opt_invariant (fun a => counters_ok a.1)); [| |exact Hfold].
  - intros a x a'. apply requeue_visit_counters.
  - simpl. by eapply counters_ok_frame; [..|exact Hok1].
Qed.

(** ** The main loop *)

Lemma uidset_insert_nonempty x s : uidset_insert x s <> [].
Proof. destruct s as [|y s]; simpl; [done|]. by repeat case_match. Qed.

Lemma foldr_uidset_insert_nil (servers l : list UID) :
  foldr uidset_insert servers l = [] <-> servers = [] /\ l = [].
Proof.
  split; [|by intros [-> ->]].
  destruct l as [|x l]; simpl; [done|]. intros H.
  by apply uidset_insert_nonempty in H.
Qed.

Lemma queueRelocation_servers k rs now rid st servers st' servers' eff' :
  queueRelocation k rs now rid st servers = Some (st', servers', eff') ->
  servers <> [] -> servers' <> [].
Proof.
  intros H Hne. unfold queueRelocation in H.
  apply option.bind_Some in H as ([[[rd st1] servers1] eff1] & Hscan & H).
  apply option.bind_Some in H as ([st3 eff3] & _ & H). injection H as <- <- <-.
  unfold queueRelocation_scan in Hscan.
  change servers1 with (rd, st1, servers1, eff1).1.2.
  eapply (foldM_opt_invariant (fun a : ScanState => a.1.2 <> [])); [| |exact Hscan];
    [|done].
  intros [[[rd0 st0] servers0] eff0] rrs a'. simpl. intros Hne0 Hv.
  unfold queueRelocation_visit in Hv.
  destruct (foundActiveRelocation st0 rrs) as [relocating st1'].
  destruct (foundActiveFetching st0 rrs || relocating).
  - apply option.bind_Some in Hv as (st4 & _ & Hv). injection Hv as <-. simpl.
    rewrite foldr_uidset_insert_nil. tauto.
  - by injection Hv as <-.
Qed.

Lemma counters_ok_new k teamSize single : counters_ok (DDQueueData_new k teamSize single).
Proof.
  unfold counters_ok, counters_agree, unhealthy_flag_ok. simpl.
  rewrite testActive_empty. done.
Qed.

Lemma counter_at_fold_testActive (ps : list Z) : forall c : gmap Z Z,
  testActive (foldl (fun c p => (counter_at c p).2) c ps) = testActive c.
Proof.
  induction ps as [|p ps IH]; intros c; simpl; [done|].
  rewrite IH. apply counter_at_testActive.
Qed.

Lemma loop_launch_ok k newId s s1 eff :
  counters_ok (self s) ->
  launchQueuedWorkTimeout s = negb (bool_decide (serversToLaunchFrom s = [])) ->
  loop_launch k newId s = Some (s1, eff) ->
  counters_ok (self s1) /\
  launchQueuedWorkTimeout s1 = negb (bool_decide (serversToLaunchFrom s1 = [])) /\
  startTime (launchData s1) = -1 /\ KeyRange_empty (keysToLaunchFrom s1) = true.
Proof.
  intros Hok Hto H. unfold loop_launch in H.
  match type of H with
  | match ?l with _ => _ end = _ => destruct l as [[s0 eff0]|] eqn:El; [|done]
  end.
  destruct ((startTime (launchData s0) =? -1) && KeyRange_empty (keysToLaunchFrom s0))
    eqn:Echk; [|done].
  injection H as <- <-.
  apply andb_true_iff in Echk as [E1%Z.eqb_eq E2].
  assert (counters_ok (self s0) /\
          launchQueuedWorkTimeout s0 = negb (bool_decide (serversToLaunchFrom s0 = [])));
    [|tauto].
  destruct (negb (startTime (launchData s) =? -1)).
  - destruct (launchQueuedWork_one k newId (self s) (launchData s))
      as [[st eff']|] eqn:E; [|done].
    injection El as <- <-. simpl. split; [|done].
    unfold launchQueuedWork_one in E.
    by apply (launchQueuedWork_counters _ _ _ _ _ Hok E).
  - destruct (negb (KeyRange_empty (keysToLaunchFrom s))).
    + destruct (launchQueuedWork_keys k newId (self s) (keysToLaunchFrom s))
        as [[st eff']|] eqn:E; [|done].
      injection El as <- <-. simpl. split; [|done].
      unfold launchQueuedWork_keys in E.
      destruct (foldl combineFromRange _ _) as [combined q].
      eapply (launchQueuedWork_counters _ _ _ _ (st, eff')); [|exact E].
      by eapply counters_ok_frame; [..|exact Hok].
    + by injection El as <- <-.
Qed.

Lemma loop_handle_ok k newId s msg s' eff :
  counters_ok (self s) ->
  launchQueuedWorkTimeout s = negb (bool_decide (serversToLaunchFrom s = [])) ->
  startTime (launchData s) = -1 -> KeyRange_empty (keysToLaunchFrom s) = true ->
  loop_handle k newId s msg = Some (s', eff) ->
  counters_ok (self s') /\ loop_vars_ok s'.
Proof.
  intros Hok Hto Hld Hkeys H. unfold loop_vars_ok.
  destruct msg as [rs now rid| |results now|fin|fin tooLong| | |]; cbn [loop_handle] in H.
  - destruct (RelocateShard_isRestore rs).
    + destruct (UID_isValid (rs_dataMoveId rs)); [|done].
      apply option.bind_Some in H as ([st eff'] & E & H). injection H as <- <-.
      simpl. split; [|auto].
      unfold launchQueuedWork_one in E.
      by apply (launchQueuedWork_counters _ _ _ _ _ Hok E).
    + destruct (rs_cancelled rs).
      * unfold enqueueCancelledDataMove in H.
        destruct (List.find _ _); injection H as <- <-; simpl; (split; [|auto]);
          [done|]. by eapply counters_ok_frame; [..|exact Hok].
      * apply option.bind_Some in H as ([[st servers] eff'] & E & H).
        injection H as <- <-. simpl. split.
        { by apply (queueRelocation_counters _ _ _ _ _ _ _ _ _ Hok E). }
        split; [|auto]. rewrite Hto.
        destruct (decide (serversToLaunchFrom s = [])) as [Hs|Hs].
        -- rewrite (bool_decide_eq_true_2 _ Hs). simpl.
           by destruct (bool_decide (servers = [])).
        -- rewrite (bool_decide_eq_false_2 _ Hs). simpl.
           pose proof (queueRelocation_servers _ _ _ _ _ _ _ _ _ E Hs) as Hs'.
           by rewrite (bool_decide_eq_false_2 _ Hs').
  - destruct (launchQueuedWorkTimeout s); [|done].
    apply option.bind_Some in H as ([st eff'] & E & H). injection H as <- <-.
    simpl. split; [|auto].
    unfold launchQueuedWork_servers in E.
    destruct (combineFromServers _ _ _) as [combined q].
    eapply (launchQueuedWork_counters _ _ _ _ (st, eff')); [|exact E].
    by eapply counters_ok_frame; [..|exact Hok].
  - apply option.bind_Some in H as ([st las] & E & H). injection H as <- <-.
    simpl. split; [|auto].
    unfold completeSourceFetch in E.
    destruct (rdset_count results (fetchingSourcesQueue (self s))); [|done].
    injection E as <- <-. by eapply counters_ok_frame; [..|exact Hok].
  - apply option.bind_Some in H as ([bm d] & _ & H). injection H as <- <-.
    simpl. split; [by eapply counters_ok_frame; [..|exact Hok]|].
    split; [|auto]. rewrite Hto.
    destruct (decide (serversToLaunchFrom s = [])) as [Hs|Hs].
    + rewrite (bool_decide_eq_true_2 _ Hs), Hs. simpl.
      destruct (src fin) as [|x l]; simpl; [done|].
      by rewrite bool_decide_eq_false_2 by apply uidset_insert_nonempty.
    + rewrite (bool_decide_eq_false_2 _ Hs). simpl.
      rewrite bool_decide_eq_false_2; [done|].
      rewrite foldr_uidset_insert_nil. tauto.
  - apply option.bind_Some in H as (st2 & Hfin & H). injection H as <- <-.
    simpl. split; [|auto].
    eapply counters_ok_frame;
      [| | | | |eapply (counters_ok_finish k _ _ (self s)); [| | | |exact Hok|exact Hfin]];
      try reflexivity.
    simpl. lia.
  - destruct (rangesComplete s) as [|r0 rest]; [done|].
    injection H as <- <-. simpl. auto.
  - set (c := foldl _ _ _) in H.
    assert (Hc : testActive c = testActive (priority_relocations (self s)))
      by apply counter_at_fold_testActive.
    clearbody c. injection H as <- <-. simpl. split; [|auto].
    destruct Hok as [Hagree Hflag]. split; [|done].
    unfold counters_agree in *. simpl. by rewrite Hc.
  - injection H as <- <-. auto.
Qed.

Lemma loop_turn_ok k newId acc msg acc' :
  counters_ok (self acc.1) /\ loop_vars_ok acc.1 ->
  loop_turn k newId acc msg = Some acc' ->
  counters_ok (self acc'.1) /\ loop_vars_ok acc'.1.
Proof.
  destruct acc as [s eff]. simpl. intros [Hok [Hto _]] H. unfold loop_turn in H.
  apply option.bind_Some in H as ([s1 eff1] & Hl & H).
  apply option.bind_Some in H as ([s2 eff2] & Hh & H). injection H as <-. simpl.
  destruct (loop_launch_ok _ _ _ _ _ Hok Hto Hl) as (Hok1 & Hto1 & Hld1 & Hk1).
  by apply (loop_handle_ok _ _ _ _ _ _ Hok1 Hto1 Hld1 Hk1 Hh).
Qed.

(** The counters and the variables of the main loop.  Whatever the
    messages the loop has handled since the actor started, and whatever
    the identifiers drawn: the sum of [priority_relocations] is
    [activeRelocations + queuedRelocations], as [validate()] asserts;
    [unhealthyRelocations] is not negative and [rawProcessingUnhealthy] is
    set exactly while it is positive; [launchQueuedWorkTimeout] is pending
    exactly while [serversToLaunchFrom] is not empty; and [launchData] and
    [keysToLaunchFrom] are not both set. *)
Theorem main_loop_keeps_counters_consistent
    (k : Knobs) (newId : KeyRange -> UID) (teamSize singleRegionTeamSize : Z)
    (msgs : list LoopMessage) (s : LoopState) (eff : list LoopEffect) :
  loop_run k newId teamSize singleRegionTeamSize msgs = Some (s, eff) ->
  activeRelocations (self s) + queuedRelocations (self s)
  = testActive (priority_relocations (self s)) /\
  0 <= unhealthyRelocations (self s) /\
  rawProcessingUnhealthy (self s) = (0 <? unhealthyRelocations (self s)) /\
  launchQueuedWorkTimeout s = negb (bool_decide (serversToLaunchFrom s = [])) /\
  (startTime (launchData s) = -1 \/ KeyRange_empty (keysToLaunchFrom s) = true).
Proof.
  intros H. unfold loop_run in H.
  assert (Hinv : counters_ok (self (s, eff).1) /\ loop_vars_ok (s, eff).1).
  { eapply (foldM_opt_invariant
              (fun a => counters_ok (self a.1) /\ loop_vars_ok a.1)); [| |exact H].
    - intros a x a'. apply loop_turn_ok.
    - simpl. split; [apply counters_ok_new|]. split; [done|]. by left. }
  simpl in Hinv. destruct Hinv as [[Ha [Hu Hf]] [Hto Hl]]. auto.
Qed.

Lemma main_loop_keeps_counters_consistent_witness :
  exists s eff,
    loop_run sample_knobs newId_S1 3 3 messages_S1 = Some (s, eff) /\
    activeRelocations (self s) + queuedRelocations (self s)
    = testActive (priority_relocations (self s)) /\
    0 <= unhealthyRelocations (self s) /\
    rawProcessingUnhealthy (self s) = (0 <? unhealthyRelocations (self s)) /\
    launchQueuedWorkTimeout s = negb (bool_decide (serversToLaunchFrom s = [])) /\
    (startTime (launchData s) = -1 \/ KeyRange_empty (keysToLaunchFrom s) = true).
Proof.
  eexists. eexists. split; [vm_compute; reflexivity|].
  eapply (main_loop_keeps_counters_consistent sample_knobs newId_S1 3 3 messages_S1).
  vm_compute. reflexivity.
Defined.

(** ** The end of a source fetch *)

Lemma rdset_count_erase x (s : RdSet) : rdset_count x (rdset_erase x s) = false.
Proof.
  apply rdset_count_false. intros y Hy. unfold rdset_erase in Hy.
  apply list_elem_of_In, filter_In in Hy as [_ Hy]. by apply negb_true_iff in Hy.
Qed.

Lemma queue_insert_lookup (results : RelocateData) (q : gmap UID RdSet) (id id' : UID) :
  queue_insert results q id !! id'
  = if decide (id = id') then Some (rdset_insert results (default [] (q !! id)))
    else q !! id'.
Proof.
  unfold queue_insert, queue_at. simpl. destruct (decide (id = id')) as [->|Hne].
  - by rewrite lookup_insert_eq.
  - by rewrite !lookup_insert_ne by done.
Qed.

Lemma queue_insert_fold (results : RelocateData) (ids : list UID) :
  forall (q : gmap UID RdSet) (id : UID),
  (id ∉ ids -> foldl (queue_insert results) q ids !! id = q !! id) /\
  (id ∈ ids ->
   rdset_count results (default [] (foldl (queue_insert results) q ids !! id)) = true).
Proof.
  induction ids as [|x ids IH]; intros q id.
  - split; [done|]. intros H. by apply elem_of_nil in H.
  - change (foldl (queue_insert results) q (x :: ids))
      with (foldl (queue_insert results) (queue_insert results q x) ids).
    destruct (IH (queue_insert results q x) id) as [IH1 IH2]. split.
    + intros [Hne Hid]%not_elem_of_cons. rewrite IH1 by done.
      rewrite queue_insert_lookup. by destruct (decide (x = id)).
    + intros Hid. destruct (decide (id ∈ ids)) as [Hin|Hnin]; [by apply IH2|].
      apply elem_of_cons in Hid as [->|Hid]; [|done].
      unfold RdSet in *. rewrite IH1 by done. rewrite queue_insert_lookup.
      destruct (decide (x = x)); [|done]. simpl.
      by rewrite rdset_count_insert_eq, rd_equiv_refl.
Qed.

Lemma updateLastAsSource_lookup (ids : list UID) (t : Z) :
  forall (m : gmap UID Z) (id : UID),
  updateLastAsSource ids t m !! id = if decide (id ∈ ids) then Some t else m !! id.
Proof.
  unfold updateLastAsSource. induction ids as [|x ids IH]; intros m id; simpl.
  - destruct (decide (id ∈ [])) as [H|H]; [by apply elem_of_nil in H|done].
  - rewrite IH. destruct (decide (id ∈ ids)) as [Hin|Hnin].
    + rewrite decide_True; [done|]. by right.
    + destruct (decide (x = id)) as [->|Hne].
      * rewrite lookup_insert_eq, decide_True; [done|]. by left.
      * rewrite lookup_insert_ne by done. rewrite decide_False; [done|].
        intros [->|?]%elem_of_cons; done.
Qed.

Lemma rdset_insert_keeps x y s : y ∈ s -> y ∈ rdset_insert x s.
Proof.
  induction s as [|z s IH]; simpl; [by intros H%elem_of_nil|].
  intros Hy. destruct (rd_gt x z); [by right|].
  destruct (rd_gt z x); [|done].
  apply elem_of_cons in Hy as [->|Hy]; [by left|]. right. by apply IH.
Qed.

Lemma rdset_insert_new x s : rdset_count x s = false -> x ∈ rdset_insert x s.
Proof.
  unfold rdset_count. induction s as [|z s IH]; simpl; [intros _; by left|].
  intros [Hz Hs]%orb_false_iff. destruct (rd_gt x z) eqn:Exz; [by left|].
  destruct (rd_gt z x) eqn:Ezx; [right; by apply IH|].
  unfold rd_equiv in Hz. by rewrite Exz, Ezx in Hz.
Qed.

Lemma queue_insert_fold_elem (results : RelocateData) (ids : list UID) :
  forall (q : gmap UID RdSet) (id : UID),
  (forall y, y ∈ default [] (q !! id) ->
     y ∈ default [] (foldl (queue_insert results) q ids !! id)) /\
  (forall y, y ∈ default [] (foldl (queue_insert results) q ids !! id) ->
     y = results \/ y ∈ default [] (q !! id)) /\
  (id ∈ ids -> rdset_count results (default [] (q !! id)) = false ->
   results ∈ default [] (foldl (queue_insert results) q ids !! id)).
Proof.
  induction ids as [|x ids IH]; intros q id.
  - split; [done|]. split; [by right|]. intros H. by apply elem_of_nil in H.
  - change (foldl (queue_insert results) q (x :: ids))
      with (foldl (queue_insert results) (queue_insert results q x) ids).
    destruct (IH (queue_insert results q x) id) as (IH1 & IH2 & IH3).
    unfold RdSet in *.
    rewrite queue_insert_lookup in IH1, IH2, IH3.
    destruct (decide (x = id)) as [->|Hne]; simpl in IH1, IH2, IH3.
    + split; [|split].
      * intros y Hy. by apply IH1, rdset_insert_keeps.
      * intros y Hy. apply IH2 in Hy as [Hy|Hy]; [by left|].
        by apply rdset_insert_elem in Hy.
      * intros _ Hc. by apply IH1, rdset_insert_new.
    + split; [done|]. split; [done|].
      intros [Heq|Hid]%elem_of_cons Hc; [done|]. by apply IH3.
Qed.

(** [completeSourceFetch] moves a relocation from the fetching queue to
    the queues of its sources.  The call fails its [ASSERT] unless the
    relocation is in [fetchingSourcesQueue]; when it returns the
    relocation is no longer there; the queue of each of its sources holds
    an element that is the relocation for the order, which is the
    relocation itself when the queue held no such element before, keeps
    the elements it had and gains no other; each source has the time of
    the call in [lastAsSource]; and the queue and the time of every other
    server are what they were. *)
Theorem completeSourceFetch_moves_relocation
    (results : RelocateData) (now : Z) (st : DDQueueData) (lastAsSource : gmap UID Z) :
  (rdset_count results (fetchingSourcesQueue st) = false ->
   completeSourceFetch results now st lastAsSource = None) /\
  (rdset_count results (fetchingSourcesQueue st) = true ->
   exists st' lastAsSource',
     completeSourceFetch results now st lastAsSource = Some (st', lastAsSource') /\
     rdset_count results (fetchingSourcesQueue st') = false /\
     (forall id, id ∈ src results ->
        rdset_count results (default [] (queue st' !! id)) = true /\
        (rdset_count results (default [] (queue st !! id)) = false ->
         results ∈ default [] (queue st' !! id)) /\
        (forall y, y ∈ default [] (queue st !! id) ->
           y ∈ default [] (queue st' !! id)) /\
        (forall y, y ∈ default [] (queue st' !! id) ->
           y = results \/ y ∈ default [] (queue st !! id)) /\
        lastAsSource' !! id = Some now) /\
     (forall id, id ∉ src results ->
        queue st' !! id = queue st !! id /\
        lastAsSource' !! id = lastAsSource !! id)).
Proof.
  unfold completeSourceFetch. split; intros ->; [done|].
  eexists _, _. split; [done|]. simpl. split; [apply rdset_count_erase|].
  split; intros id Hid.
  - destruct (queue_insert_fold_elem results (src results) (queue st) id)
      as (H1 & H2 & H3).
    split; [by apply queue_insert_fold|]. split; [by apply H3|].
    split; [done|]. split; [done|].
    rewrite updateLastAsSource_lookup. by rewrite decide_True.
  - split; [by apply queue_insert_fold|].
    rewrite updateLastAsSource_lookup. by rewrite decide_False.
Qed.

(** The relocation [R1] of scenario S1 is being fetched, and the reply
    with its sources is accepted. *)
Example completeSourceFetch_accepts_fetched_relocation :
  rdset_count results_R1 (fetchingSourcesQueue queue_fetching_R1) = true /\
  is_Some (completeSourceFetch results_R1 11 queue_fetching_R1 ∅).
Proof. split; [reflexivity|]. vm_compute. by eexists. Qed.

(** A queue that already holds a piece with the priority, the start time
    and the identifier of the relocation, on other keys, keeps that piece
    and does not take the relocation. *)
Example completeSourceFetch_keeps_equivalent_element :
  (fun r => queue r.1 !! serverA) <$>
    completeSourceFetch results_R1 11
      (set_queue {[ serverA := [set_keys (mkKeyRange "k5" "k9") results_R1] ]}
         queue_fetching_R1) ∅
  = Some (Some [set_keys (mkKeyRange "k5" "k9") results_R1]).
Proof. reflexivity. Qed.

(** ** The throttle of the read rebalancer *)

(** [timeThrottle] and [updateLastAsSource].  Servers that were never a
    source are not throttled.  At the very time at which the servers of a
    list are recorded as sources, the list is throttled exactly when it is
    not empty and [STORAGE_METRICS_AVERAGE_INTERVAL] is positive. *)
Theorem timeThrottle_after_updateLastAsSource
    (parallelism interval now t : Z) (lastAsSource : gmap UID Z) (ids : list UID) :
  ((forall id, id ∈ ids -> lastAsSource !! id = None) ->
   timeThrottle parallelism interval now lastAsSource ids = false) /\
  timeThrottle parallelism interval t (updateLastAsSource ids t lastAsSource) ids
  = negb (bool_decide (ids = [])) && (0 <? interval).
Proof.
  unfold timeThrottle. split.
  - intros H. apply not_true_iff_false. intros (id & Hid & Hb)%existsb_exists.
    apply list_elem_of_In in Hid. by rewrite H in Hb.
  - assert (Hall : forall l,
      (forall id, id ∈ l -> id ∈ ids) ->
      existsb (fun id => match updateLastAsSource ids t lastAsSource !! id with
                         | Some t0 => (t - t0) * parallelism <? interval
                         | None => false
                         end) l
      = negb (bool_decide (l = [])) && (0 <? interval)).
    { induction l as [|x l IH]; intros Hsub; [done|]. simpl.
      rewrite updateLastAsSource_lookup, decide_True by (apply Hsub; by left).
      rewrite IH by (intros id Hid; apply Hsub; by right).
      replace ((t - t) * parallelism) with 0 by lia.
      by destruct (0 <? interval), (bool_decide (l = [])). }
    by apply Hall.
Qed.

(** Scenario S4 of the specification, in seconds: server A was a source
    one second ago, four moves are allowed per interval of ten seconds,
    and the team of A is throttled. *)
Example timeThrottle_S4 :
  timeThrottle 4 10 100 {[ serverA := 99 ]} [serverA; serverB; serverC] = true.
Proof. reflexivity. Qed.

(** ** The candidates of [launchQueuedWork(keys)] *)

Lemma combineFromRange_fold (es : list (KeyRange * RelocateData)) :
  forall (combined : RdSet) (q : gmap UID RdSet),
    let r := foldl combineFromRange (combined, q) es in
    (forall id, default [] (r.2 !! id) = default [] (q !! id)) /\
    (forall y, y ∈ r.1 ->
       y ∈ combined \/
       exists e first rest, e ∈ es /\ y = e.2 /\ src y = first :: rest /\
         rdset_count y (default [] (q !! first)) = true) /\
    (forall y, rdset_count y combined = true -> rdset_count y r.1 = true) /\
    (forall e first rest, e ∈ es -> src e.2 = first :: rest ->
       rdset_count e.2 (default [] (q !! first)) = true ->
       rdset_count e.2 r.1 = true).
Proof.
  induction es as [|e es IH]; intros combined q.
  - simpl. split; [done|]. split; [auto|]. split; [done|].
    intros e first rest He. by apply elem_of_nil in He.
  - change (foldl combineFromRange (combined, q) (e :: es))
      with (foldl combineFromRange (combineFromRange (combined, q) e) es).
    destruct (combineFromRange (combined, q) e) as [c1 q1] eqn:E.
    destruct (IH c1 q1) as (IHq & IHin & IHmono & IHall). cbv zeta.
    assert (Hq1 : forall id, default [] (q1 !! id) = default [] (q !! id)).
    { unfold combineFromRange in E. destruct (src e.2) as [|first rest].
      - by injection E as <- <-.
      - intros id. pose proof (queue_at_lookup q first id) as Hl.
        unfold queue_at in E. simpl in E.
        destruct (rdset_count e.2 (default [] (q !! first))); injection E as <- <-;
          exact Hl. }
    assert (Hc1 : (forall y, y ∈ c1 -> y ∈ combined \/
                     exists first rest, y = e.2 /\ src y = first :: rest /\
                       rdset_count y (default [] (q !! first)) = true) /\
                  (forall y, rdset_count y combined = true -> rdset_count y c1 = true) /\
                  (forall first rest, src e.2 = first :: rest ->
                     rdset_count e.2 (default [] (q !! first)) = true ->
                     rdset_count e.2 c1 = true)).
    { unfold combineFromRange in E. destruct (src e.2) as [|first rest] eqn:Es.
      - injection E as <- <-. split; [auto|]. split; [done|]. done.
      - unfold queue_at in E. simpl in E.
        destruct (rdset_count e.2 (default [] (q !! first))) eqn:Ec;
          injection E as <- <-.
        + split; [|split].
          * intros y [->|Hy]%rdset_insert_elem; [|by left].
            right. exists first, rest. by rewrite Es.
          * intros y Hy. rewrite rdset_count_insert_eq, Hy. by rewrite orb_true_r.
          * intros f r [= <- <-] _. by rewrite rdset_count_insert_eq, rd_equiv_refl.
        + split; [auto|]. split; [done|].
          intros f r [= <- <-] Hc. by rewrite Ec in Hc. }
    destruct Hc1 as (Hc1in & Hc1mono & Hc1e).
    split; [intros id; by rewrite IHq, Hq1|]. split; [|split].
    + intros y Hy. apply IHin in Hy as [Hy|(e' & first & rest & He' & -> & Hs & Hc)].
      * apply Hc1in in Hy as [Hy|(first & rest & -> & Hs & Hc)]; [by left|].
        right. exists e, first, rest. split; [by left|done].
      * right. exists e', first, rest. split; [by right|].
        by rewrite <- Hq1.
    + intros y Hy. by apply IHmono, Hc1mono.
    + intros e' first rest [->|He']%elem_of_cons Hs Hc.
      * by apply IHmono, (Hc1e first rest).
      * apply (IHall e' first rest He' Hs). by rewrite Hq1.
Qed.

(** The overload of [launchQueuedWork] that takes a key range runs the
    launch loop on the relocations that [queueMap] holds for the ranges
    touching [keys], that have sources, and that are in the queue of their
    first source: every candidate is such a relocation, and every such
    relocation is a candidate, or an element the same for the order is. *)
Theorem launchQueuedWork_keys_candidates
    (k : Knobs) (newId : KeyRange -> UID) (st : DDQueueData) (keys : KeyRange) :
  let queued (e : KeyRange * RelocateData) :=
    e ∈ queueMap st /\ KeyRange_intersects e.1 keys = true /\
    exists first rest, src e.2 = first :: rest /\
      rdset_count e.2 (default [] (queue st !! first)) = true in
  let combined :=
    (foldl combineFromRange ([], queue st) (intersectingRanges (queueMap st) keys)).1 in
  let q :=
    (foldl combineFromRange ([], queue st) (intersectingRanges (queueMap st) keys)).2 in
  launchQueuedWork_keys k newId st keys
  = launchQueuedWork k newId (set_queue q st) combined /\
  (forall rd, rd ∈ combined -> exists e, queued e /\ rd = e.2) /\
  (forall e, queued e -> rdset_count e.2 combined = true).
Proof.
  intros queued combined q.
  destruct (combineFromRange_fold (intersectingRanges (queueMap st) keys) [] (queue st))
    as (_ & Hin & _ & Hall).
  assert (Hmem : forall e, e ∈ intersectingRanges (queueMap st) keys <->
                           e ∈ queueMap st /\ KeyRange_intersects e.1 keys = true).
  { intros e. unfold intersectingRanges.
    rewrite !list_elem_of_In, filter_In. done. }
  split; [|split].
  - unfold launchQueuedWork_keys, combined, q. by destruct (foldl _ _ _).
  - intros rd Hrd. apply Hin in Hrd as [Hrd|(e & first & rest & He & -> & Hs & Hc)].
    { by apply elem_of_nil in Hrd. }
    exists e. split; [|done]. apply Hmem in He as [He1 He2].
    split; [done|]. split; [done|]. by exists first, rest.
  - intros e (He1 & He2 & first & rest & Hs & Hc).
    apply (Hall e first rest); [|done|done]. by apply Hmem.
Qed.

(** ** What [validate()] checks of the ledgers *)

Lemma flat_map_nil_iff {A B : Type} (f : A -> list B) (l : list A) :
  flat_map f l = [] <-> forall x, x ∈ l -> f x = [].
Proof.
  induction l as [|a l IH]; simpl.
  - split; [|done]. intros _ x Hx. by apply elem_of_nil in Hx.
  - split.
    + intros [Ha Hl]%app_eq_nil x [->|Hx]%elem_of_cons; [done|]. by apply IH.
    + intros H. rewrite (H a) by (by left). simpl. apply IH.
      intros x Hx. apply H. by right.
Qed.

Lemma validate_ledger_silent_iff ascending negative (b : Busyness) :
  validate_ledger ascending negative b = [] <->
  forall (i : nat) x y, ledger b !! i = Some x -> ledger b !! S i = Some y ->
    y <= x /\ 0 <= x.
Proof.
  unfold validate_ledger. rewrite flat_map_nil_iff. split.
  - intros H i x y Hx Hy. specialize (H i).
    rewrite Hx, Hy in H.
    assert (Hi : i ∈ seq 0 (length (ledger b) - 1)).
    { apply elem_of_seq. apply lookup_lt_Some in Hy. lia. }
    specialize (H Hi). apply app_eq_nil in H as [H1 H2].
    destruct (Z.ltb_spec x y); [done|]. destruct (Z.ltb_spec x 0); [done|]. lia.
  - intros H i _.
    destruct (ledger b !! i) as [x|] eqn:Hx; [|done].
    destruct (ledger b !! S i) as [y|] eqn:Hy; [|done].
    destruct (H i x y Hx Hy) as [H1 H2].
    destruct (Z.ltb_spec x y); [lia|]. destruct (Z.ltb_spec x 0); [lia|]. done.
Qed.

Lemma ledger_nonincreasing_lookup (l : list Z) (i : nat) x y :
  ledger_nonincreasing l = true -> l !! i = Some x -> l !! S i = Some y -> y <= x.
Proof.
  revert i. induction l as [|a l IH]; intros i Hl Hx Hy; [done|].
  destruct l as [|a' l']; [done|].
  simpl in Hl. apply andb_true_iff in Hl as [Ha Hl].
  destruct i as [|i]; simpl in *.
  - injection Hx as <-. injection Hy as <-. by apply Z.leb_le.
  - by apply (IH i).
Qed.

(** What [validate()] checks of the ledgers of [busymap] and of
    [destBusymap], each ledger having its ten buckets.  It traces no error
    for the ledgers of a map exactly when, in every ledger, each bucket
    but the last is at least the next one and is not negative; the sign of
    the last bucket is not looked at.  In particular it traces none when
    every ledger is non-increasing and non-negative. *)
Theorem validate_busymap_silent_iff (ascending negative : string) (m : Busymap) :
  Busymap_wf m ->
  (validate_busymap ascending negative m = [] <->
   forall id b (i : nat) x y,
     m !! id = Some b -> ledger b !! i = Some x -> ledger b !! S i = Some y ->
     y <= x /\ 0 <= x) /\
  (Busymap_ok m -> validate_busymap ascending negative m = []).
Proof.
  intros _.
  assert (Hiff : validate_busymap ascending negative m = [] <->
                 forall id b (i : nat) x y,
                   m !! id = Some b -> ledger b !! i = Some x ->
                   ledger b !! S i = Some y -> y <= x /\ 0 <= x).
  { unfold validate_busymap. rewrite flat_map_nil_iff. split.
    - intros H id b i x y Hid.
      apply (proj1 (validate_ledger_silent_iff ascending negative b)).
      apply (H (id, b)). by apply elem_of_map_to_list.
    - intros H [id b] Hin%elem_of_map_to_list. simpl.
      apply (proj2 (validate_ledger_silent_iff ascending negative b)).
      intros i x y. by apply (H id b). }
  split; [done|]. intros Hok. apply Hiff. intros id b i x y Hid Hx Hy.
  specialize (Hok id b Hid). simpl in Hok. unfold ledger_ok in Hok.
  apply andb_true_iff in Hok as [Hni Hnn]. split.
  - by apply (ledger_nonincreasing_lookup (ledger b) i).
  - rewrite forallb_forall in Hnn. apply Z.leb_le, Hnn.
    apply list_elem_of_In, list_elem_of_lookup. by exists i.
Qed.

Lemma validate_busymap_silent_iff_witness :
  validate_busymap "DDQueueValidateError14" "DDQueueValidateError15" busymap_S3 = [].
Proof.
  destruct (validate_busymap_silent_iff "DDQueueValidateError14"
              "DDQueueValidateError15" busymap_S3) as [_ Hsilent].
  - apply (bool_decide_unpack (Busymap_wf busymap_S3)). vm_compute. exact I.
  - apply Hsilent. unfold Busymap_ok. apply (bool_decide_unpack _). vm_compute.
    exact I.
Defined.

(** A ledger whose last bucket alone is negative passes the check. *)
Example validate_busymap_last_bucket :
  validate_busymap "DDQueueValidateError14" "DDQueueValidateError15"
    {[ serverA := mkBusyness [0; 0; 0; 0; 0; 0; 0; 0; 0; -1000] ]} = [].
Proof. reflexivity. Qed.

(** ** [getWorstCpu] *)

Lemma getWorstCpu_loop_spec (hundred : Z) (storageStats : gmap UID Z) :
  forall (ids : list UID) (cpu : Z),
    let r := getWorstCpu_loop hundred storageStats ids cpu in
    cpu <= r /\
    (forall pre id post, ids = pre ++ id :: post ->
       (forall x, x ∈ pre -> is_Some (storageStats !! x)) ->
       match storageStats !! id with
       | Some c => c <= r
       | None => hundred <= r /\
                 r = getWorstCpu_loop hundred storageStats (pre ++ [id]) cpu
       end) /\
    (r = cpu \/
     (exists id, id ∈ ids /\ storageStats !! id = Some r) \/
     (r = hundred /\ exists id, id ∈ ids /\ storageStats !! id = None)).
Proof.
  induction ids as [|id0 ids IH]; intros cpu; simpl.
  - split; [lia|]. split; [|by left]. intros pre id post H.
    by destruct pre.
  - destruct (storageStats !! id0) as [c0|] eqn:E0.
    + destruct (IH (Z.max cpu c0)) as (Hle & Hpre & Hwhich).
      split; [lia|]. split.
      * intros pre id post Heq Hall. destruct pre as [|p pre].
        -- injection Heq as <- <-. rewrite E0. lia.
        -- injection Heq as <- ->. simpl. rewrite E0.
           apply (Hpre pre id post eq_refl). intros x Hx. apply Hall. by right.
      * destruct Hwhich as [Hr|[(id & Hid & Hs)|(Hr & id & Hid & Hs)]].
        -- destruct (Z.max_spec cpu c0) as [[_ Hm]|[_ Hm]]; rewrite Hm in Hr |- *.
           ++ right. left. exists id0. split; [by left|]. by rewrite Hr.
           ++ by left.
        -- right. left. exists id. split; [by right|done].
        -- right. right. split; [done|]. exists id. split; [by right|done].
    + split; [lia|]. split.
      * intros pre id post Heq Hall. destruct pre as [|p pre].
        -- injection Heq as <- <-. rewrite E0. simpl. rewrite E0. split; [lia|done].
        -- injection Heq as <- ->. destruct (Hall id0) as [c Hc]; [by left|].
           congruence.
      * destruct (Z.max_spec cpu hundred) as [[_ ->]|[_ ->]]; [|by left].
        right. right. split; [done|]. exists id0. split; [by left|done].
Qed.

(** [getWorstCpu] returns the highest [cpuUsage] among the servers of the
    list, and at least [100.0] when a server has no entry in
    [storageStats]; it does not look past the first such server.  The
    result is not negative; it is at least the usage of every server that
    comes before the first one without an entry; when the server at some
    place is the first one without an entry, the result is at least
    [100.0] and is what the function returns for the list cut after that
    place; and the result is zero, the usage of a server of the list, or
    [100.0] with a server of the list having no entry. *)
Theorem getWorstCpu_spec (hundred : Z) (storageStats : gmap UID Z) (ids : list UID) :
  let r := getWorstCpu hundred storageStats ids in
  0 <= r /\
  (forall pre id post, ids = pre ++ id :: post ->
     (forall x, x ∈ pre -> is_Some (storageStats !! x)) ->
     match storageStats !! id with
     | Some cpuUsage => cpuUsage <= r
     | None => hundred <= r /\ r = getWorstCpu hundred storageStats (pre ++ [id])
     end) /\
  (r = 0 \/
   (exists id, id ∈ ids /\ storageStats !! id = Some r) \/
   (r = hundred /\ exists id, id ∈ ids /\ storageStats !! id = None)).
Proof. apply getWorstCpu_loop_spec. Qed.

(** A server past the first one without an entry is not looked at, busy
    as it may be. *)
Example getWorstCpu_stops_at_missing_entry :
  getWorstCpu 100 {[ serverA := 20; serverC := 250 ]} [serverA; serverB; serverC] = 100.
Proof. reflexivity. Qed.

(** ** The destinations of a relocation *)

Lemma totalIds_concat (d : Destinations) :
  totalIds d = Z.of_nat (length (concat (fst <$> destinationTeams d))).
Proof.
  unfold totalIds. generalize (destinationTeams d). intros l.
  assert (H : forall n, foldl (fun n (t : list UID * bool) => n + Z.of_nat (length t.1)) n l
                        = n + Z.of_nat (length (concat (fst <$> l)))).
  { induction l as [|t l IH]; intros n; simpl; [lia|].
    rewrite IH, length_app, Nat2Z.inj_add, Z.add_assoc. reflexivity. }
  rewrite H. lia.
Qed.

Lemma chooseDestinations_inv allHealthy anyWithSource randomInt :
  forall (bestTeams : list BestTeam) (i : nat) (d d' : Destinations),
    chooseDestinations allHealthy anyWithSource randomInt i bestTeams d = Some d' ->
    destIds d ++ extraIds d ≡ₚ concat (fst <$> destinationTeams d) ->
    healthyIds d ⊆ destIds d ->
    destIds d' ++ extraIds d' ≡ₚ concat (fst <$> destinationTeams d') /\
    healthyIds d' ⊆ destIds d' /\
    fst <$> destinationTeams d'
    = (fst <$> destinationTeams d) ++ (bt_serverIDs <$> bestTeams).
Proof.
  induction bestTeams as [|team rest IH]; intros i d d' H Hperm Hsub.
  - injection H as <-. by rewrite app_nil_r.
  - simpl in H.
    destruct (allHealthy && anyWithSource && negb (bt_hasSource team)).
    + apply option.bind_Some in H as (id & Hid & H).
      apply IH in H as (H1 & H2 & H3); simpl.
      * split; [done|]. split; [done|]. rewrite H3. simpl.
        rewrite fmap_app. simpl. by rewrite <- app_assoc.
      * simpl. rewrite fmap_app, concat_app. simpl. rewrite app_nil_r.
        pose proof (delete_Permutation (bt_serverIDs team) (randomInt i) id Hid)
          as Hdel.
        rewrite <- Hperm.
        transitivity ((destIds d ++ extraIds d)
                      ++ id :: delete (randomInt i) (bt_serverIDs team));
          [solve_Permutation|by rewrite <- Hdel].
      * simpl. intros x [Hx|Hx]%elem_of_app; apply elem_of_app; auto.
    + apply IH in H as (H1 & H2 & H3).
      * split; [done|]. split; [done|]. rewrite H3.
        destruct (bt_isHealthy team); simpl; rewrite fmap_app; simpl;
          by rewrite <- app_assoc.
      * destruct (bt_isHealthy team); simpl; rewrite fmap_app, concat_app; simpl;
          rewrite app_nil_r, <- Hperm; solve_Permutation.
      * destruct (bt_isHealthy team); simpl.
        -- intros x [Hx|Hx]%elem_of_app; apply elem_of_app; auto.
        -- intros x Hx. apply elem_of_app. auto.
Qed.

Lemma chooseDestinations_returns (allHealthy anyWithSource : bool)
    (randomInt : nat -> nat) :
  forall (bestTeams : list BestTeam) (i : nat) (d : Destinations),
    (forall j team, bestTeams !! j = Some team ->
       (randomInt (i + j) < length (bt_serverIDs team))%nat) ->
    is_Some (chooseDestinations allHealthy anyWithSource randomInt i bestTeams d).
Proof.
  induction bestTeams as [|team rest IH]; intros i d Hdraw; [by eexists|].
  assert (Hrest : forall d', is_Some (chooseDestinations allHealthy anyWithSource
                                        randomInt (S i) rest d')).
  { intros d'. apply IH. intros j t Hj.
    replace (S i + j)%nat with (i + S j)%nat by lia. by apply Hdraw. }
  cbn [chooseDestinations].
  destruct (allHealthy && anyWithSource && negb (bt_hasSource team)); [|apply Hrest].
  destruct (lookup_lt_is_Some_2 (bt_serverIDs team) (randomInt i)) as [id Hid].
  { specialize (Hdraw 0%nat team eq_refl). by rewrite Nat.add_0_r in Hdraw. }
  rewrite Hid. simpl. apply Hrest.
Qed.

(** The destinations the relocator computes from its teams.  When each
    number drawn for a team is a place of that team, the loop over the
    teams returns; every server of every team is then a destination or an
    extra server, once for each time it occurs in the teams; every healthy
    destination is a destination; the servers counted in [totalIds] are as
    many as the destinations and the extra servers together; and the
    assertion made when the extra servers join the destinations holds,
    after which the destinations are the servers of the teams and no extra
    server is left. *)
Theorem chooseDestinations_covers_the_teams
    (allHealthy anyWithSource : bool) (randomInt : nat -> nat)
    (bestTeams : list BestTeam) :
  (forall i team, bestTeams !! i = Some team ->
     (randomInt i < length (bt_serverIDs team))%nat) ->
  exists d,
    chooseDestinations allHealthy anyWithSource randomInt 0 bestTeams
      Destinations_empty = Some d /\
    destIds d ++ extraIds d ≡ₚ concat (bt_serverIDs <$> bestTeams) /\
    healthyIds d ⊆ destIds d /\
    totalIds d = Z.of_nat (length (destIds d)) + Z.of_nat (length (extraIds d)) /\
    exists d',
      addExtraIds d = Some d' /\
      destIds d' ≡ₚ concat (bt_serverIDs <$> bestTeams) /\
      extraIds d' = [] /\ healthyIds d' ⊆ destIds d'.
Proof.
  intros Hdraw.
  destruct (chooseDestinations_returns allHealthy anyWithSource randomInt bestTeams
              0 Destinations_empty Hdraw) as [d H].
  exists d. split; [done|].
  apply chooseDestinations_inv in H as (Hperm & Hsub & Hteams); [|done|done].
  simpl in Hteams. rewrite Hteams in Hperm.
  assert (Htotal : totalIds d
                   = Z.of_nat (length (destIds d)) + Z.of_nat (length (extraIds d))).
  { rewrite totalIds_concat, Hteams, <- Hperm, length_app. lia. }
  split; [done|]. split; [done|]. split; [done|].
  unfold addExtraIds. destruct (extraIds d) as [|x xs] eqn:Ex.
  - exists d. split; [done|]. rewrite Ex. rewrite app_nil_r in Hperm. done.
  - simpl. rewrite Htotal, length_app. simpl.
    destruct (Z.eqb_spec (Z.of_nat (length (destIds d)) + Z.of_nat (S (length xs)))
                (Z.of_nat (length (destIds d) + S (length xs)))); [|lia].
    eexists. split; [done|]. simpl. split; [done|]. split; [done|].
    intros y [Hy|Hy]%elem_of_app; apply elem_of_app; auto.
Qed.

Lemma chooseDestinations_covers_the_teams_witness :
  exists d,
    chooseDestinations true true (fun _ => 1%nat) 0 bestTeams_S5 Destinations_empty
    = Some d /\
    destIds d ++ extraIds d ≡ₚ concat (bt_serverIDs <$> bestTeams_S5) /\
    healthyIds d ⊆ destIds d /\
    totalIds d = Z.of_nat (length (destIds d)) + Z.of_nat (length (extraIds d)) /\
    exists d',
      addExtraIds d = Some d' /\
      destIds d' ≡ₚ concat (bt_serverIDs <$> bestTeams_S5) /\
      extraIds d' = [] /\ healthyIds d' ⊆ destIds d'.
Proof.
  apply (chooseDestinations_covers_the_teams true true (fun _ => 1%nat) bestTeams_S5).
  intros [|[|i]] team Hteam.
  - injection Hteam as <-. simpl. lia.
  - injection Hteam as <-. simpl. lia.
  - discriminate Hteam.
Defined.

(** Scenario S5 of the specification: the remote team gets one server
    first, and its two other servers with the second [moveKeys]. *)
Example chooseDestinations_S5 :
  chooseDestinations true true (fun _ => 1%nat) 0 bestTeams_S5 Destinations_empty
  = Some (mkDestinations [serverA; serverB; serverC; serverE]
            [serverA; serverB; serverC; serverE] [serverD; serverF]
            bestTeams_S5
            [([serverA; serverB; serverC], true);
             ([serverD; serverE; serverF], false)]).
Proof. reflexivity. Qed.

(** ** [ParallelTCInfo] *)

Section ParallelTCInfo_properties.
Context {T : Type} `{IDataDistributionTeam T}.

Lemma ptc_teams_cons (heap : gmap nat T) r rest ts :
  ptc_teams heap (r :: rest) = Some ts ->
  exists t ts', ts = t :: ts' /\ heap !! r = Some t /\ ptc_teams heap rest = Some ts'.
Proof.
  unfold ptc_teams. simpl. intros Hm.
  apply option.bind_Some in Hm as (t & Ht & Hm).
  apply option.bind_Some in Hm as (ts' & Hts & Hm). injection Hm as <-.
  by exists t, ts'.
Qed.

Lemma ptc_fold_closed {A : Type} (step : A -> T -> A) (heap : gmap nat T) :
  forall teams ts a,
    ptc_teams heap teams = Some ts ->
    foldM_opt (fun result r => team ← heap !! r; Some (step result team)) a teams
    = Some (foldl step a ts).
Proof.
  induction teams as [|r rest IH]; intros ts a Hm.
  - by injection Hm as <-.
  - apply ptc_teams_cons in Hm as (t & ts' & -> & Ht & Hm).
    rewrite foldM_opt_cons, Ht. simpl. by apply IH.
Qed.

Lemma ptc_any_closed (func : T -> bool) (heap : gmap nat T) :
  forall teams ts,
    ptc_teams heap teams = Some ts ->
    ptc_any func heap teams = Some (existsb func ts).
Proof.
  induction teams as [|r rest IH]; intros ts Hm.
  - by injection Hm as <-.
  - apply ptc_teams_cons in Hm as (t & ts' & -> & Ht & Hm).
    cbn [ptc_any]. rewrite Ht. simpl. destruct (func t); [done|]. by apply IH.
Qed.

Lemma ptc_all_closed (func : T -> bool) (heap : gmap nat T) teams ts :
  ptc_teams heap teams = Some ts ->
  ptc_all func heap teams = Some (forallb func ts).
Proof.
  intros Hm. unfold ptc_all.
  rewrite (ptc_any_closed _ heap teams ts Hm). simpl. f_equal.
  clear Hm. induction ts as [|t ts IH]; simpl; [done|].
  rewrite negb_orb, negb_involutive. by rewrite IH.
Qed.

Lemma foldl_add_sumZ (l : list Z) : forall a, foldl Z.add a l = a + sumZ l.
Proof.
  unfold sumZ. induction l as [|x l IH]; intros a; simpl; [lia|].
  rewrite IH. lia.
Qed.

Lemma foldl_min_foldr (l : list Z) : forall a, foldl Z.min a l = foldr Z.min a l.
Proof.
  induction l as [|x l IH]; intros a; simpl; [done|].
  rewrite IH. clear IH. revert a x.
  induction l as [|y l IH]; intros a x; simpl; [lia|].
  rewrite IH. lia.
Qed.

Lemma foldl_max_foldr (l : list Z) : forall a, foldl Z.max a l = foldr Z.max a l.
Proof.
  induction l as [|x l IH]; intros a; simpl; [done|].
  rewrite IH. clear IH. revert a x.
  induction l as [|y l IH]; intros a x; simpl; [lia|].
  rewrite IH. lia.
Qed.

Lemma foldl_fmap {A B C : Type} (f : A -> B -> A) (g : C -> B) (l : list C) :
  forall a, foldl (fun a x => f a (g x)) a l = foldl f a (g <$> l).
Proof. induction l as [|x l IH]; intros a; simpl; [done|]. apply IH. Qed.

Lemma foldl_app_concat {A : Type} (l : list (list A)) :
  forall a, foldl app a l = a ++ concat l.
Proof.
  induction l as [|x l IH]; intros a; simpl; [by rewrite app_nil_r|].
  by rewrite IH, app_assoc.
Qed.

(** What a composite team answers.  When every reference of [teams]
    points to a team, the composite is healthy, optimal or has healthy
    space exactly when every team is, it is wrongly configured exactly
    when some team is, its size, its data in flight and its load are the
    sums over the teams, its servers are those of the teams in their
    order, its least available space is the least over the teams and
    [INT64_MAX], and its priority is the highest over the teams and
    zero.  A composite of no team is thus healthy and optimal, and a
    composite of teams of negative priority has priority zero. *)
Theorem ParallelTCInfo_answers (heap : gmap nat T) (teams : list nat)
    (ts : list T) (includeInFlight : bool) (inflightPenalty minRatio : team_double) :
  ptc_teams heap teams = Some ts ->
  ptc_isHealthy heap teams = Some (forallb team_isHealthy ts) /\
  ptc_isOptimal heap teams = Some (forallb team_isOptimal ts) /\
  ptc_hasHealthyAvailableSpace minRatio heap teams
  = Some (forallb (team_hasHealthyAvailableSpace minRatio) ts) /\
  ptc_isWrongConfiguration heap teams = Some (existsb team_isWrongConfiguration ts) /\
  ptc_size heap teams = Some (sumZ (team_size <$> ts)) /\
  ptc_getDataInFlightToTeam heap teams
  = Some (sumZ (team_getDataInFlightToTeam <$> ts)) /\
  ptc_getLoadBytes includeInFlight inflightPenalty heap teams
  = Some (sumZ (team_getLoadBytes includeInFlight inflightPenalty <$> ts)) /\
  ptc_getServerIDs heap teams = Some (concat (team_getServerIDs <$> ts)) /\
  ptc_getMinAvailableSpace includeInFlight heap teams
  = Some (foldr Z.min INT64_MAX (team_getMinAvailableSpace includeInFlight <$> ts)) /\
  ptc_getPriority heap teams = Some (foldr Z.max 0 (team_getPriority <$> ts)).
Proof.
  intros Hm.
  split; [by apply ptc_all_closed|]. split; [by apply ptc_all_closed|].
  split; [by apply ptc_all_closed|]. split; [by apply ptc_any_closed|].
  assert (Hsum : forall func : T -> Z,
            ptc_sum func heap teams = Some (sumZ (func <$> ts))).
  { intros func. unfold ptc_sum.
    rewrite (ptc_fold_closed (fun a t => a + func t) heap teams ts 0 Hm).
    f_equal. rewrite (foldl_fmap Z.add func), foldl_add_sumZ. lia. }
  split; [apply Hsum|]. split; [apply Hsum|]. split; [apply Hsum|].
  split; [|split].
  - unfold ptc_getServerIDs, ptc_collect.
    rewrite (ptc_fold_closed (fun a t => a ++ team_getServerIDs t) heap teams ts [] Hm).
    f_equal. by rewrite (foldl_fmap app team_getServerIDs), foldl_app_concat.
  - unfold ptc_getMinAvailableSpace.
    rewrite (ptc_fold_closed
               (fun a t => Z.min a (team_getMinAvailableSpace includeInFlight t))
               heap teams ts _ Hm).
    f_equal.
    by rewrite (foldl_fmap Z.min (team_getMinAvailableSpace includeInFlight)),
      foldl_min_foldr.
  - unfold ptc_getPriority.
    rewrite (ptc_fold_closed (fun a t => Z.max a (team_getPriority t))
               heap teams ts _ Hm).
    f_equal. by rewrite (foldl_fmap Z.max team_getPriority), foldl_max_foldr.
Qed.

Lemma ptc_forEach_post (f : T -> T) (P : T -> Prop) :
  (forall t, P (f t)) ->
  forall (teams : list nat) (heap : gmap nat T),
    (forall r, r ∈ teams -> is_Some (heap !! r)) ->
    exists heap',
      ptc_forEach f heap teams = Some heap' /\
      (forall r, r ∈ teams -> exists t', heap' !! r = Some t' /\ P t') /\
      (forall r, r ∉ teams -> heap' !! r = heap !! r) /\
      (forall r, is_Some (heap !! r) -> is_Some (heap' !! r)).
Proof.
  intros HP. unfold ptc_forEach.
  induction teams as [|r rest IH]; intros heap Hval.
  - exists heap. split; [done|]. split; [|done].
    intros r Hr. by apply elem_of_nil in Hr.
  - destruct (Hval r) as [t Ht]; [by left|].
    rewrite foldM_opt_cons, Ht. simpl.
    destruct (IH (<[r := f t]> heap)) as (heap' & Hrun & Hin & Hout & Hdom).
    { intros r' Hr'. destruct (decide (r = r')) as [->|Hne].
      - rewrite lookup_insert_eq. by eexists.
      - rewrite lookup_insert_ne by done. apply Hval. by right. }
    exists heap'. split; [done|]. split; [|split].
    + intros r' Hr'. destruct (decide (r' ∈ rest)) as [Hrest|Hrest]; [by apply Hin|].
      apply elem_of_cons in Hr' as [->|Hr']; [|done].
      rewrite Hout by done. rewrite lookup_insert_eq. by exists (f t).
    + intros r' [Hne Hr']%not_elem_of_cons.
      rewrite Hout by done. by rewrite lookup_insert_ne.
    + intros r' Hr'. apply Hdom. destruct (decide (r = r')) as [->|Hne].
      * rewrite lookup_insert_eq. by eexists.
      * by rewrite lookup_insert_ne.
Qed.

Lemma ptc_teams_valid (heap : gmap nat T) (teams : list nat) ts :
  ptc_teams heap teams = Some ts -> forall r, r ∈ teams -> is_Some (heap !! r).
Proof.
  revert ts. induction teams as [|r0 rest IH]; intros ts Hm r Hr.
  - by apply elem_of_nil in Hr.
  - apply ptc_teams_cons in Hm as (t & ts' & -> & Ht & Hm).
    apply elem_of_cons in Hr as [->|Hr]; [by eexists|]. by apply (IH ts').
Qed.

Lemma ptc_teams_Forall (heap : gmap nat T) (P : T -> Prop) :
  forall (teams : list nat),
    (forall r, r ∈ teams -> exists t, heap !! r = Some t /\ P t) ->
    exists ts, ptc_teams heap teams = Some ts /\ Forall P ts /\
               length ts = length teams.
Proof.
  induction teams as [|r rest IH]; intros Hall.
  - exists []. by repeat split.
  - destruct (Hall r) as (t & Ht & HPt); [by left|].
    destruct IH as (ts & Hts & HP & Hlen).
    { intros r' Hr'. apply Hall. by right. }
    exists (t :: ts). unfold ptc_teams in *. simpl. rewrite Ht, Hts. simpl.
    split; [done|]. split; [by constructor|]. by rewrite Hlen.
Qed.

(** A call sent to every team, and the answer of the composite
    afterwards.  For teams that are healthy after [setHealthy(true)] and
    not after [setHealthy(false)], and whose priority after
    [setPriority(p)] is [p]: when every reference of [teams] points to a
    team, [setHealthy(h)] and [setPriority(p)] return; after
    [setHealthy(h)] the composite says [h] when it has a team, and says
    that it is healthy when it has none; after [setPriority(p)] its
    priority is the larger of [p] and zero when it has a team, and zero
    when it has none. *)
Theorem ParallelTCInfo_set_then_get (heap : gmap nat T) (teams : list nat)
    (ts : list T) (h : bool) (p : Z) :
  (forall b t, team_isHealthy (team_setHealthy b t) = b) ->
  (forall q t, team_getPriority (team_setPriority q t) = q) ->
  ptc_teams heap teams = Some ts ->
  (exists heap',
     ptc_setHealthy h heap teams = Some heap' /\
     ptc_isHealthy heap' teams = Some (h || bool_decide (teams = []))) /\
  (exists heap',
     ptc_setPriority p heap teams = Some heap' /\
     ptc_getPriority heap' teams
     = Some (if bool_decide (teams = []) then 0 else Z.max 0 p)).
Proof.
  intros Hlaw1 Hlaw2 Hm.
  pose proof (ptc_teams_valid heap teams ts Hm) as Hval. split.
  - destruct (ptc_forEach_post (team_setHealthy h) (fun t => team_isHealthy t = h)
                (Hlaw1 h) teams heap Hval) as (heap' & Hrun & Hin & _ & _).
    exists heap'. split; [done|].
    destruct (ptc_teams_Forall heap' (fun t => team_isHealthy t = h) teams Hin)
      as (ts' & Hts' & Hall & Hlen).
    unfold ptc_isHealthy. rewrite (ptc_all_closed _ heap' teams ts' Hts').
    f_equal. destruct teams as [|r rest].
    + destruct ts'; [|done]. simpl. by rewrite orb_true_r.
    + rewrite bool_decide_eq_false_2 by done. rewrite orb_false_r.
      destruct ts' as [|t ts'']; [done|]. clear Hlen Hts'.
      destruct h.
      * apply forallb_forall. intros x Hx%list_elem_of_In.
        rewrite Forall_forall in Hall. by apply Hall.
      * simpl. apply Forall_cons in Hall as [-> _]. done.
  - destruct (ptc_forEach_post (team_setPriority p) (fun t => team_getPriority t = p)
                (Hlaw2 p) teams heap Hval) as (heap' & Hrun & Hin & _ & _).
    exists heap'. split; [done|].
    destruct (ptc_teams_Forall heap' (fun t => team_getPriority t = p) teams Hin)
      as (ts' & Hts' & Hall & Hlen).
    unfold ptc_getPriority.
    rewrite (ptc_fold_closed (fun a t => Z.max a (team_getPriority t))
               heap' teams ts' _ Hts').
    f_equal. destruct teams as [|r rest].
    + by destruct ts'.
    + rewrite bool_decide_eq_false_2 by done.
      destruct ts' as [|t ts'']; [done|]. clear Hlen Hts'.
      apply Forall_cons in Hall as [Ht Hall]. simpl. rewrite Ht.
      generalize (Z.max 0 p) (Z.le_max_r 0 p). intros a Ha.
      revert a Ha. induction Hall as [|x l Hx Hl IH]; intros a Ha; simpl; [done|].
      rewrite Hx. rewrite Z.max_l by done. by apply IH.
Qed.

Lemma string_app_nil_r (s : string) : (s ++ "")%string = s.
Proof.
  induction s as [|c s IH]; [done|].
  change (String c (s ++ "")%string = String c s). by rewrite IH.
Qed.

Lemma string_app_assoc (a b c : string) :
  ((a ++ b) ++ c)%string = (a ++ (b ++ c))%string.
Proof.
  induction a as [|x a IH]; [done|].
  change (String x ((a ++ b) ++ c)%string = String x (a ++ (b ++ c))%string).
  by rewrite IH.
Qed.

Lemma ptc_getTeamID_loop_closed (heap : gmap nat T) :
  forall (teams : list nat) (ts : list T) (id : string),
    ptc_teams heap teams = Some ts ->
    (forall t, t ∈ removelast ts -> c_str (team_getTeamID t) = team_getTeamID t) ->
    ptc_getTeamID_loop heap teams id
    = Some (id ++ String.concat ", " (team_getTeamID <$> ts))%string.
Proof.
  induction teams as [|r rest IH]; intros ts id Hm Hc.
  - injection Hm as <-. simpl. by rewrite string_app_nil_r.
  - apply ptc_teams_cons in Hm as (t & ts' & -> & Ht & Hm).
    cbn [ptc_getTeamID_loop]. rewrite Ht. simpl. destruct rest as [|r' rest'].
    + injection Hm as <-. done.
    + destruct ts' as [|t' ts'']; [by apply ptc_teams_cons in Hm as (? & ? & ? & _)|].
      rewrite (IH (t' :: ts'') _ Hm).
      * f_equal. rewrite Hc by (simpl; by left).
        change (team_getTeamID <$> t :: t' :: ts'')
          with (team_getTeamID t :: (team_getTeamID <$> t' :: ts'')).
        change (String.concat ", " (team_getTeamID t :: (team_getTeamID <$> t' :: ts'')))
          with (team_getTeamID t ++ ", "
                ++ String.concat ", " (team_getTeamID <$> t' :: ts''))%string.
        by rewrite !string_app_assoc.
      * intros x Hx. apply Hc. simpl. by right.
Qed.

(** [getTeamID] joins the identifiers of the teams with a comma and a
    space, when no identifier but the last holds a zero character. *)
Theorem ParallelTCInfo_getTeamID (heap : gmap nat T) (teams : list nat)
    (ts : list T) :
  ptc_teams heap teams = Some ts ->
  (forall t, t ∈ removelast ts -> c_str (team_getTeamID t) = team_getTeamID t) ->
  ptc_getTeamID heap teams = Some (String.concat ", " (team_getTeamID <$> ts)).
Proof.
  intros Hm Hc. unfold ptc_getTeamID.
  by rewrite (ptc_getTeamID_loop_closed heap teams ts "" Hm Hc).
Qed.
End ParallelTCInfo_properties.

Lemma ParallelTCInfo_answers_witness :
  ptc_isHealthy sample_heap sample_parallel = Some false /\
  ptc_getPriority sample_heap sample_parallel = Some 140 /\
  ptc_getMinAvailableSpace true sample_heap sample_parallel = Some 70.
Proof.
  destruct (@ParallelTCInfo_answers SampleTeam SampleTeam_team sample_heap
              sample_parallel
              [mkSampleTeam [serverA; serverB; serverC] 100 5000 70 true false true 140
                 "ab12";
               mkSampleTeam [serverD; serverE; serverF] 0 3000 90 true false false (-1)
                 "cd34"]
              true 1 0 eq_refl)
    as (H1 & _ & _ & _ & _ & _ & _ & _ & H2 & H3).
  split; [exact H1|]. split; [exact H3|exact H2].
Defined.

Lemma ParallelTCInfo_set_then_get_witness :
  (exists heap',
     ptc_setHealthy false sample_heap sample_parallel = Some heap' /\
     ptc_isHealthy heap' sample_parallel
     = Some (false || bool_decide (sample_parallel = []))) /\
  (exists heap',
     ptc_setPriority (-5) sample_heap sample_parallel = Some heap' /\
     ptc_getPriority heap' sample_parallel
     = Some (if bool_decide (sample_parallel = []) then 0 else Z.max 0 (-5))).
Proof.
  apply (ParallelTCInfo_set_then_get sample_heap sample_parallel
           [mkSampleTeam [serverA; serverB; serverC] 100 5000 70 true false true 140
              "ab12";
            mkSampleTeam [serverD; serverE; serverF] 0 3000 90 true false false (-1)
              "cd34"] false (-5)).
  - reflexivity.
  - reflexivity.
  - reflexivity.
Defined.

Lemma ParallelTCInfo_getTeamID_witness :
  ptc_getTeamID sample_heap sample_parallel = Some "ab12, cd34".
Proof.
  refine (ParallelTCInfo_getTeamID sample_heap sample_parallel
            [mkSampleTeam [serverA; serverB; serverC] 100 5000 70 true false true 140
               "ab12";
             mkSampleTeam [serverD; serverE; serverF] 0 3000 90 true false false (-1)
               "cd34"] _ _).
  - reflexivity.
  - intros t Ht. simpl in Ht. apply list_elem_of_singleton in Ht as ->. reflexivity.
Defined.

(** A composite of no team is healthy, even after [setHealthy(false)]. *)
Example ParallelTCInfo_empty_is_healthy :
  ptc_setHealthy false sample_heap [] = Some sample_heap /\
  ptc_isHealthy sample_heap [] = Some true.
Proof. split; reflexivity. Qed.
